(** * BatteryCycleiOS: a shallow embedding of [BatteryCycleiOS.cpp]

    The program reads an iOS sysdiagnose archive (tar over gzip), finds the
    most recent [BDC_Daily_version_<date>.csv] entry under a directory and
    prints two fields of the last row of that CSV file.

    The embedding follows the C source function by function and keeps its
    names.  Conventions:

    - a [char] is an [ascii]; a char array (a buffer, a struct seen as raw
      bytes) is a [list ascii]; a C string is the run of characters of an
      array up to its first NUL;
    - memory is a list of blocks (one per allocation); a pointer is a block
      index with a byte offset; a load or a store outside its block has no
      defined result ([None]);
    - [unsigned long] is 32 bits wide (the source needs <windows.h> and the
      MSVC secure CRT, so it builds for Windows only, where [long] has 32
      bits); its arithmetic is written with the wrap-around [ulong];
    - [int] counters and indices are [Z]; the model takes texts shorter than
      2^31 bytes, so that [int] indices do not overflow; an [int] stored by
      [sscanf] keeps the low 32 bits of the number converted ([int_of]);
    - allocation is taken to succeed, and [NULL] arguments are excluded by
      the type of pointers;
    - zlib, [mktime] and the C library are outside the repository: zlib is a
      small model of a decompressed stream, [mktime] is a parameter, and the
      C library calls are written out after their documentation. *)

From Stdlib Require Import String Ascii ZArith List Bool Lia Arith.
Import ListNotations.
Local Open Scope Z_scope.

(* ================================================================= *)
(** ** Characters, buffers, C strings *)

Definition NUL : ascii := "000"%char.
Definition LF : ascii := "010"%char.
Definition CR : ascii := "013"%char.
Definition TAB : ascii := "009"%char.
Definition SPACE : ascii := " "%char.
Definition DQUOTE : ascii := "034"%char.
Definition COMMA : ascii := ","%char.

Definition buffer := list ascii.

(** The numeric value of a character.  Whether [char] is signed does not
    matter to the comparisons of the source: a byte above 127 fails
    ['0' <= c <= '7'] and [isdigit] either way. *)
Definition char_code (c : ascii) : Z := Z.of_N (N_of_ascii c).

(** Literals of the source and of the examples. *)
Definition str (s : string) : list ascii := list_ascii_of_string s.

Definition bind {A B : Type} (x : option A) (f : A -> option B) : option B :=
  match x with
  | Some a => f a
  | None => None
  end.

Notation "x <- e ;; k" := (bind e (fun x => k))
  (at level 61, e at next level, right associativity).
Notation "' p <- e ;; k" := (bind e (fun x => let p := x in k))
  (at level 61, p pattern, e at next level, right associativity).

Fixpoint take_while {A : Type} (f : A -> bool) (l : list A) : list A :=
  match l with
  | [] => []
  | x :: l' => if f x then x :: take_while f l' else []
  end.

Fixpoint drop_while {A : Type} (f : A -> bool) (l : list A) : list A :=
  match l with
  | [] => []
  | x :: l' => if f x then drop_while f l' else l
  end.

Definition list_eqb (a b : list ascii) : bool :=
  if list_eq_dec ascii_dec a b then true else false.

(** [cstr l]: the C string that starts at the head of [l], when [l] holds a
    terminating NUL. *)
Fixpoint cstr (l : list ascii) : option (list ascii) :=
  match l with
  | [] => None
  | c :: l' =>
      if Ascii.eqb c NUL then Some []
      else match cstr l' with
           | Some s => Some (c :: s)
           | None => None
           end
  end.

(* ================================================================= *)
(** ** ulParseOctal *)

Definition ULONG_BITS : Z := 32.
Definition ulong (z : Z) : Z := z mod 2 ^ ULONG_BITS.

Definition is_pad (c : ascii) : bool := Ascii.eqb c SPACE || Ascii.eqb c NUL.

Definition is_octal (c : ascii) : bool :=
  (char_code "0" <=? char_code c) && (char_code c <=? char_code "7").

(** [for (i = 0; i < nSize && (szStr[i] == ' ' || szStr[i] == '\0'); i++);]
    The recursion is on [nSize - i], the number of positions left. *)
Fixpoint octal_skip (szStr : buffer) (i : nat) (left : nat) : option nat :=
  match left with
  | O => Some i
  | S left' =>
      c <- nth_error szStr i ;;
      if is_pad c then octal_skip szStr (S i) left' else Some i
  end.

(** [for (; i < nSize && szStr[i] != ' ' && szStr[i] != '\0'; i++)
       { if (szStr[i] < '0' || szStr[i] > '7') break;
         ulResult = ulResult * 8 + (szStr[i] - '0'); }] *)
Fixpoint octal_accum (szStr : buffer) (i : nat) (left : nat) (ulResult : Z)
  : option Z :=
  match left with
  | O => Some ulResult
  | S left' =>
      c <- nth_error szStr i ;;
      if is_pad c then Some ulResult
      else if negb (is_octal c) then Some ulResult
      else octal_accum szStr (S i) left'
             (ulong (ulResult * 8 + (char_code c - char_code "0")))
  end.

Definition ulParseOctal (szStr : buffer) (nSize : nat) : option Z :=
  i <- octal_skip szStr 0 nSize ;;
  octal_accum szStr i (nSize - i) 0.

(** What the field denotes: the digits after the leading padding, read in
    base 8. *)
Definition octal_digits (field : list ascii) : list ascii :=
  take_while is_octal (drop_while is_pad field).

Definition octal_step (acc : Z) (c : ascii) : Z :=
  acc * 8 + (char_code c - char_code "0").

Definition octal_value (digits : list ascii) : Z :=
  fold_left octal_step digits 0.

(* ================================================================= *)
(** ** Memory: blocks, pointers, the C library on strings *)

Definition memory := list buffer.

(** A pointer: the index of its block and a byte offset into it. *)
Definition ptr := (nat * Z)%type.

Definition block_of (m : memory) (b : nat) : buffer := nth b m [].

Definition set_block (m : memory) (b : nat) (buf : buffer) : memory :=
  firstn b m ++ buf :: skipn (S b) m.

Definition peek (buf : buffer) (z : Z) : option ascii :=
  if z <? 0 then None else nth_error buf (Z.to_nat z).

Definition poke (buf : buffer) (z : Z) (c : ascii) : option buffer :=
  if (0 <=? z) && (z <? Z.of_nat (length buf))
  then Some (firstn (Z.to_nat z) buf ++ c :: skipn (S (Z.to_nat z)) buf)
  else None.

Definition load (m : memory) (p : ptr) : option ascii :=
  peek (block_of m (fst p)) (snd p).

Definition store (m : memory) (p : ptr) (c : ascii) : option memory :=
  buf <- poke (block_of m (fst p)) (snd p) c ;;
  Some (set_block m (fst p) buf).

Definition padd (p : ptr) (k : Z) : ptr := (fst p, snd p + k).

(** [malloc] returns a block that no earlier pointer names. *)
Definition malloc (m : memory) (n : Z) : ptr * memory :=
  ((length m, 0), m ++ [repeat NUL (Z.to_nat n)]).

(** A freed block keeps its index and loses its bytes. *)
Definition free (m : memory) (p : ptr) : memory := set_block m (fst p) [].

(** The bytes of [p]'s block from [p] on. *)
Definition tail_at (m : memory) (p : ptr) : list ascii :=
  if snd p <? 0 then [] else skipn (Z.to_nat (snd p)) (block_of m (fst p)).

Definition cstring_at (m : memory) (p : ptr) : option (list ascii) :=
  cstr (tail_at m p).

Definition strlen (m : memory) (p : ptr) : option Z :=
  s <- cstring_at m p ;; Some (Z.of_nat (length s)).

(** [find_char c l]: the index of the first [c] of the C string at the head
    of [l]; [Some None] when the string ends first. *)
Fixpoint find_char (c : ascii) (l : list ascii) : option (option nat) :=
  match l with
  | [] => None
  | x :: l' =>
      if Ascii.eqb x c then Some (Some O)
      else if Ascii.eqb x NUL then Some None
      else r <- find_char c l' ;; Some (option_map S r)
  end.

Definition strchr (m : memory) (p : ptr) (c : ascii) : option (option ptr) :=
  r <- find_char c (tail_at m p) ;;
  Some (option_map (fun k => padd p (Z.of_nat k)) r).

Fixpoint store_chars (m : memory) (p : ptr) (l : list ascii) : option memory :=
  match l with
  | [] => Some m
  | c :: l' => m' <- store m p c ;; store_chars m' (padd p 1) l'
  end.

Definition STRUNCATE : Z := 80.

(** [strncpy_s(szDest, nSize, src, _TRUNCATE)]: as much of [src] as fits with
    its terminator; the return value is 0, or [STRUNCATE] when [src] was cut. *)
Definition strncpy_s_truncate (m : memory) (szDest : ptr) (nSize : Z)
  (src : list ascii) : option (Z * memory) :=
  if Z.of_nat (length src) <? nSize
  then m' <- store_chars m szDest (src ++ [NUL]) ;; Some (0, m')
  else m' <- store_chars m szDest (firstn (Z.to_nat (nSize - 1)) src ++ [NUL]) ;;
       Some (STRUNCATE, m').

(** Every loop over a block makes one step per byte at most; the loops below
    get one unit of fuel more than the block has bytes. *)
Definition fuel_of (m : memory) (p : ptr) : nat :=
  S (length (block_of m (fst p))).

(* ================================================================= *)
(** ** nGetCSVDataByColName *)

Definition MAX_COLUMNS : Z := 256.

Definition is_lead (c : ascii) : bool :=
  Ascii.eqb c SPACE || Ascii.eqb c TAB || Ascii.eqb c DQUOTE.

Definition is_trail (c : ascii) : bool :=
  Ascii.eqb c SPACE || Ascii.eqb c TAB || Ascii.eqb c DQUOTE || Ascii.eqb c CR.

(** [while (sz[0] is a space, a tab or a double quote) sz++;] *)
Fixpoint skip_leading (fuel : nat) (m : memory) (sz : ptr) : option ptr :=
  match fuel with
  | O => None
  | S fuel' =>
      c <- load m sz ;;
      if is_lead c then skip_leading fuel' m (padd sz 1) else Some sz
  end.

(** [while (pEnd > sz && (pEnd[0] is a space, a tab, a double quote or a
    carriage return)) pEnd--;] *)
Fixpoint back_trim (fuel : nat) (m : memory) (sz pEnd : ptr) : option ptr :=
  match fuel with
  | O => None
  | S fuel' =>
      if snd sz <? snd pEnd then
        c <- load m pEnd ;;
        if is_trail c then back_trim fuel' m sz (padd pEnd (-1)) else Some pEnd
      else Some pEnd
  end.

(** The trimming block of the source (it occurs four times, with the
    variables renamed): skip the leading characters, step back over the
    trailing ones, terminate the token after the last character kept. *)
Definition trim_token (m : memory) (szToken : ptr) : option (memory * ptr) :=
  let fuel := fuel_of m szToken in
  szTrimmed <- skip_leading fuel m szToken ;;
  n <- strlen m szTrimmed ;;
  pEnd <- back_trim fuel m szTrimmed (padd szTrimmed (n - 1)) ;;
  m' <- store m (padd pEnd 1) NUL ;;
  Some (m', szTrimmed).

(** The header loop:
    [while (szHeaderToken[i] != '\0' && nColumnCount < MAX_COLUMNS) ... i++].
    [szColumnNames] holds the pointers recorded so far; [nColumnCount] is
    its length. *)
Fixpoint header_loop (fuel : nat) (m : memory) (szHeaderToken : ptr) (i : Z)
  (bInQuotes : bool) (nTokenStart : Z) (szColumnNames : list ptr)
  : option (memory * Z * list ptr) :=
  match fuel with
  | O => None
  | S fuel' =>
      c <- load m (padd szHeaderToken i) ;;
      if Ascii.eqb c NUL
         || negb (Z.of_nat (length szColumnNames) <? MAX_COLUMNS)
      then Some (m, nTokenStart, szColumnNames)
      else if Ascii.eqb c DQUOTE then
        header_loop fuel' m szHeaderToken (i + 1) (negb bInQuotes)
          nTokenStart szColumnNames
      else if Ascii.eqb c COMMA && negb bInQuotes then
        m1 <- store m (padd szHeaderToken i) NUL ;;
        '(m2, szTrimmedName) <- trim_token m1 (padd szHeaderToken nTokenStart) ;;
        header_loop fuel' m2 szHeaderToken (i + 1) bInQuotes (i + 1)
          (szColumnNames ++ [szTrimmedName])
      else
        header_loop fuel' m szHeaderToken (i + 1) bInQuotes nTokenStart
          szColumnNames
  end.

(** [for (i = 0; i < nColumnCount; i++)
       if (strcmp(szColumnNames[i], szColName) == 0) { nTargetCol = i; break; }]
    started with [nTargetCol = -1]. *)
Fixpoint find_column (m : memory) (szColumnNames : list ptr)
  (szColName : list ascii) (i : Z) : option Z :=
  match szColumnNames with
  | [] => Some (-1)
  | p :: rest =>
      s <- cstring_at m p ;;
      if list_eqb s szColName then Some i
      else find_column m rest szColName (i + 1)
  end.

(** [while (nCurrentRow < nRow)]: [n] rows are left to skip.  [Some None] is
    the [return -5] of the loop. *)
Fixpoint skip_rows (m : memory) (szBufferCopy : ptr) (n : nat)
  : option (option ptr) :=
  match n with
  | O => Some (Some szBufferCopy)
  | S n' =>
      pNextLine <- strchr m szBufferCopy LF ;;
      match pNextLine with
      | None => Some None
      | Some q => skip_rows m (padd q 1) n'
      end
  end.

(** The [while (true)] of the [nRow == -1] branch; its result is
    [pLastRowStart]. *)
Fixpoint last_row (fuel : nat) (m : memory) (szBufferCopy pLastRowStart : ptr)
  : option ptr :=
  match fuel with
  | O => None
  | S fuel' =>
      pNextLine <- strchr m szBufferCopy LF ;;
      match pNextLine with
      | None => Some pLastRowStart
      | Some q => last_row fuel' m (padd q 1) szBufferCopy
      end
  end.

(** How the row loop ends: inside, at the delimiter that closes the target
    column, or at its condition. *)
Inductive row_scan :=
| FoundAt (m : memory) (szValue : ptr)
| RowEnd (nCurrentCol nTokenStart : Z).

Fixpoint row_loop (fuel : nat) (m : memory) (szBufferCopy : ptr)
  (nTargetCol i : Z) (bInQuotes : bool) (nCurrentCol nTokenStart : Z)
  : option row_scan :=
  match fuel with
  | O => None
  | S fuel' =>
      c <- load m (padd szBufferCopy i) ;;
      if Ascii.eqb c NUL || negb (nCurrentCol <=? nTargetCol)
      then Some (RowEnd nCurrentCol nTokenStart)
      else if Ascii.eqb c DQUOTE then
        row_loop fuel' m szBufferCopy nTargetCol (i + 1) (negb bInQuotes)
          nCurrentCol nTokenStart
      else if Ascii.eqb c COMMA && negb bInQuotes then
        if nCurrentCol =? nTargetCol then
          m1 <- store m (padd szBufferCopy i) NUL ;;
          '(m2, szValue) <- trim_token m1 (padd szBufferCopy nTokenStart) ;;
          Some (FoundAt m2 szValue)
        else
          row_loop fuel' m szBufferCopy nTargetCol (i + 1) bInQuotes
            (nCurrentCol + 1) (i + 1)
      else
        row_loop fuel' m szBufferCopy nTargetCol (i + 1) bInQuotes
          nCurrentCol nTokenStart
  end.

(** The end of both success paths: copy the value out, restore the row's
    terminator, free the copy. *)
Definition copy_value (m : memory) (szValue szResult : ptr) (nBufSize : Z)
  (pRowEnd : ptr) (cOriginalChar : ascii) (szBufferStart : ptr)
  : option (Z * memory) :=
  value <- cstring_at m szValue ;;
  '(err, m) <- strncpy_s_truncate m szResult nBufSize value ;;
  if negb (err =? 0) then Some (-6, free m szBufferStart)
  else
    m <- store m pRowEnd cOriginalChar ;;
    Some (0, free m szBufferStart).

(** The header phase: the header loop, then [if (nColumnCount <
    MAX_COLUMNS)] the last column. *)
Definition header_columns (fuel : nat) (m : memory) (szBufferCopy : ptr)
  : option (memory * list ptr) :=
  '(m, nTokenStart, szColumnNames) <-
     header_loop fuel m szBufferCopy 0 false 0 [] ;;
  if Z.of_nat (length szColumnNames) <? MAX_COLUMNS then
    '(m', szTrimmedName) <- trim_token m (padd szBufferCopy nTokenStart) ;;
    Some (m', szColumnNames ++ [szTrimmedName])
  else Some (m, szColumnNames).

(** The start of the row asked for; [Some None] is [return -5]. *)
Definition row_start (fuel : nat) (m : memory) (szBufferCopy : ptr) (nRow : Z)
  : option (option ptr) :=
  if 0 <=? nRow then skip_rows m szBufferCopy (Z.to_nat nRow)
  else if nRow =? -1 then
    p <- last_row fuel m szBufferCopy szBufferCopy ;; Some (Some p)
  else Some (Some szBufferCopy).

(** The end of the row: its line feed, or the end of the text. *)
Definition row_end (m : memory) (szBufferCopy : ptr) : option ptr :=
  r <- strchr m szBufferCopy LF ;;
  match r with
  | Some p => Some p
  | None => n <- strlen m szBufferCopy ;; Some (padd szBufferCopy n)
  end.

(** From the start of the row to the return: the row is terminated, scanned
    for the target column, and the value is copied out. *)
Definition read_row (fuel : nat) (m : memory) (szBufferCopy : ptr)
  (nTargetCol : Z) (szResult : ptr) (nBufSize : Z) (szBufferStart : ptr)
  : option (Z * memory) :=
  pRowEnd <- row_end m szBufferCopy ;;
  cOriginalChar <- load m pRowEnd ;;
  m <- store m pRowEnd NUL ;;
  scan <- row_loop fuel m szBufferCopy nTargetCol 0 false 0 0 ;;
  match scan with
  | FoundAt m szValue =>
      copy_value m szValue szResult nBufSize pRowEnd cOriginalChar
        szBufferStart
  | RowEnd nCurrentCol nTokenStart =>
      if nCurrentCol =? nTargetCol then
        '(m, szValue) <- trim_token m (padd szBufferCopy nTokenStart) ;;
        copy_value m szValue szResult nBufSize pRowEnd cOriginalChar
          szBufferStart
      else
        m <- store m pRowEnd cOriginalChar ;;
        Some (-4, free m szBufferStart)
  end.

Definition nGetCSVDataByColName (m : memory) (szCsvBuffer : ptr) (nRow : Z)
  (szColName : list ascii) (szResult : ptr) (nBufSize : Z)
  : option (Z * memory) :=
  if nBufSize <=? 0 then Some (-1, m) else
  (* strncpy_s of the empty string into szResult *)
  m <- store m szResult NUL ;;
  (* the private copy: strlen, malloc, memcpy_s *)
  text <- cstring_at m szCsvBuffer ;;
  let nBufferLen := Z.of_nat (length text) in
  let '(szBufferCopy, m) := malloc m (nBufferLen + 1) in
  m <- store_chars m szBufferCopy (text ++ [NUL]) ;;
  let szBufferStart := szBufferCopy in
  let fuel := fuel_of m szBufferCopy in
  (* the header line, terminated for the time of the header phase *)
  r <- strchr m szBufferCopy LF ;;
  let pHeaderEnd :=
    match r with
    | Some p => p
    | None => padd szBufferCopy nBufferLen
    end in
  cOriginalChar <- load m pHeaderEnd ;;
  m <- store m pHeaderEnd NUL ;;
  '(m, szColumnNames) <- header_columns fuel m szBufferCopy ;;
  nTargetCol <- find_column m szColumnNames szColName 0 ;;
  m <- store m pHeaderEnd cOriginalChar ;;
  if nTargetCol =? -1 then Some (-3, free m szBufferStart) else
  (* the row *)
  let szBufferCopy := padd pHeaderEnd 1 in
  start <- row_start fuel m szBufferCopy nRow ;;
  match start with
  | None => Some (-5, free m szBufferStart)
  | Some szBufferCopy =>
      read_row fuel m szBufferCopy nTargetCol szResult nBufSize szBufferStart
  end.

(** The accessor as the specification names it: the text and the result
    buffer are two blocks of the caller, and the result is read back as a C
    string.  [MAX_BUFFER_SIZE] is the size of the result buffers of the one
    caller in the source. *)
Definition MAX_BUFFER_SIZE : Z := 1024.

Inductive RowSelector :=
| Absolute (n : nat)
| Last.

Definition nRow_of (r : RowSelector) : Z :=
  match r with
  | Absolute n => Z.of_nat n
  | Last => -1
  end.

Definition caller_memory (text : list ascii) (nBufSize : Z) : memory :=
  [text ++ [NUL]; repeat NUL (Z.to_nat nBufSize)].

Definition getField_sized (nBufSize : Z) (text : list ascii) (row : RowSelector)
  (szColName : list ascii) : option (Z * list ascii) :=
  '(ret, m) <- nGetCSVDataByColName (caller_memory text nBufSize) (0%nat, 0)
                 (nRow_of row) szColName (1%nat, 0) nBufSize ;;
  value <- cstring_at m (1%nat, 0) ;;
  Some (ret, value).

Definition getField := getField_sized MAX_BUFFER_SIZE.

(* ================================================================= *)
(** ** The accessor as a function of the text

    What [nGetCSVDataByColName] computes, written on the characters of the
    text instead of a buffer; the two are proved equal below. *)

Definition not_lf (c : ascii) : bool := negb (Ascii.eqb c LF).

(** The text up to its first line feed, and the text after it. *)
Definition line_of (l : list ascii) : list ascii := take_while not_lf l.

Definition after_line (l : list ascii) : option (list ascii) :=
  match drop_while not_lf l with
  | [] => None
  | _ :: r => Some r
  end.

(** The fields of a line: it is cut at each comma met while the quote flag
    is down; [tok] is the part of the current field already read. *)
Fixpoint split_fields (bInQuotes : bool) (tok rest : list ascii)
  : list (list ascii) :=
  match rest with
  | [] => [tok]
  | c :: rest' =>
      if Ascii.eqb c DQUOTE then split_fields (negb bInQuotes) (tok ++ [c]) rest'
      else if Ascii.eqb c COMMA && negb bInQuotes
           then tok :: split_fields bInQuotes [] rest'
           else split_fields bInQuotes (tok ++ [c]) rest'
  end.

Definition csv_fields (line : list ascii) : list (list ascii) :=
  split_fields false [] line.

Definition rstrip (l : list ascii) : list ascii :=
  rev (drop_while is_trail (rev l)).

(** The value of a token: the leading characters go; of what is left the
    first character stays and the trailing characters after it go. *)
Definition trim_field (tok : list ascii) : list ascii :=
  match drop_while is_lead tok with
  | [] => []
  | c :: r => c :: rstrip r
  end.

Definition header_names (header : list ascii) : list (list ascii) :=
  map trim_field (firstn (Z.to_nat MAX_COLUMNS) (csv_fields header)).

Fixpoint index_of (szColName : list ascii) (names : list (list ascii)) (i : Z)
  : Z :=
  match names with
  | [] => -1
  | s :: rest => if list_eqb s szColName then i
                 else index_of szColName rest (i + 1)
  end.

Fixpoint skip_lines (n : nat) (l : list ascii) : option (list ascii) :=
  match n with
  | O => Some l
  | S n' =>
      match after_line l with
      | Some r => skip_lines n' r
      | None => None
      end
  end.

(** The start of the row taken for [nRow == -1]: [cur] is the start of the
    line being read and [prev] the start of the line before it; the result
    is [prev] when the text ends. *)
Fixpoint last_line_start (l cur prev : list ascii) : list ascii :=
  match l with
  | [] => prev
  | c :: l' =>
      if Ascii.eqb c LF then last_line_start l' l' cur
      else last_line_start l' cur prev
  end.

(** The text from the start of the row asked for; [None] when the text
    ends before [nRow] lines are skipped. *)
Definition row_suffix (rest : list ascii) (nRow : Z) : option (list ascii) :=
  if 0 <=? nRow then skip_lines (Z.to_nat nRow) rest
  else if nRow =? -1 then Some (last_line_start rest rest rest)
  else Some rest.

Definition select_row (rest : list ascii) (nRow : Z) : option (list ascii) :=
  option_map line_of (row_suffix rest nRow).

(** The outcome on a row, for the column of index [k]. *)
Definition field_result (nBufSize : Z) (row : list ascii) (k : Z)
  : Z * list ascii :=
  match nth_error (csv_fields row) (Z.to_nat k) with
  | None => (-4, [])
  | Some tok =>
      let v := trim_field tok in
      if Z.of_nat (length v) <? nBufSize then (0, v)
      else (-6, firstn (Z.to_nat (nBufSize - 1)) v)
  end.

Definition csv_lookup (nBufSize : Z) (text : list ascii) (nRow : Z)
  (szColName : list ascii) : option (Z * list ascii) :=
  let k := index_of szColName (header_names (line_of text)) 0 in
  if k =? -1 then Some (-3, [])
  else
    rest <- after_line text ;;
    match select_row rest nRow with
    | None => Some (-5, [])
    | Some row => Some (field_result nBufSize row k)
    end.

(* ================================================================= *)
(** ** Paths and names *)

Fixpoint is_prefix (p l : list ascii) : bool :=
  match p, l with
  | [], _ => true
  | _ :: _, [] => false
  | x :: p', y :: l' => Ascii.eqb x y && is_prefix p' l'
  end.

(** [strstr(l, sub) != NULL] *)
Fixpoint contains (sub l : list ascii) : bool :=
  is_prefix sub l ||
  match l with
  | [] => false
  | _ :: l' => contains sub l'
  end.

(** [strncmp(a, b, n) == 0] on two C strings. *)
Definition strncmp_eq (a b : list ascii) (n : nat) : bool :=
  list_eqb (firstn n a) (firstn n b).

(** [strrchr(l, c)]: the string from the last [c] on. *)
Fixpoint strrchr (c : ascii) (l : list ascii) : option (list ascii) :=
  match l with
  | [] => None
  | x :: l' =>
      match strrchr c l' with
      | Some s => Some s
      | None => if Ascii.eqb x c then Some l else None
      end
  end.

(** [strchr(l, c)] on a C string held as its characters: the string from the
    first [c] on. *)
Fixpoint str_from (c : ascii) (l : list ascii) : option (list ascii) :=
  match l with
  | [] => None
  | x :: l' => if Ascii.eqb x c then Some l else str_from c l'
  end.

Definition SLASH : ascii := "/"%char.
Definition BACKSLASH : ascii := "\"%char.

Definition bIsInDirectory (szPath szTargetDir : list ascii) : bool :=
  let nDirLen := length szTargetDir in
  let cLast := last szTargetDir NUL in
  if (0 <? nDirLen)%nat && negb (Ascii.eqb cLast SLASH)
     && negb (Ascii.eqb cLast BACKSLASH)
  then strncmp_eq szPath (szTargetDir ++ [SLASH]) (nDirLen + 1)
  else strncmp_eq szPath szTargetDir nDirLen.

(** The test of the reader on [stHeader.szName]. *)
Definition unsafe_path (szName : list ascii) : bool :=
  contains (str "../") szName || contains [".";"."; BACKSLASH]%char szName.

(* ================================================================= *)
(** ** Diagnostics and output

    What the program writes to [stderr] and [stdout], one constructor per
    [fprintf] or [printf] of the source. *)

Inductive event :=
| ErrCannotOpen
| ErrUnexpectedEnd
| WarnUnsafePath (szName : list ascii)
| ErrReadData (expected got : Z)
| ErrTimestamp
| ErrCycleCount
| OutReport (szCycleCount szTimestamp : list ascii)
| ErrDateParse (szDateStr : list ascii)
| ErrDateComponents (szDateStr : list ascii)
| ErrDateConvert
| ErrCopyFilename
| ErrInvalidDate
| OutParsing
| ErrAnalyze
| ErrNoMatching
| OutLatest (szFilename : list ascii)
| OutChecking.

(* ================================================================= *)
(** ** Dates: sscanf_s, bParseDate *)

Definition is_space (c : ascii) : bool :=
  Ascii.eqb c SPACE || ((9 <=? char_code c) && (char_code c <=? 13)).

Definition is_digit (c : ascii) : bool :=
  (char_code "0" <=? char_code c) && (char_code c <=? char_code "9").

Definition decimal_value (digits : list ascii) : Z :=
  fold_left (fun acc c => acc * 10 + (char_code c - char_code "0")) digits 0.

(** The [int] (32 bits, two's complement) that keeps the low 32 bits of
    [z]: [z] itself when it fits. *)
Definition int_of (z : Z) : Z := (z + 2 ^ 31) mod 2 ^ 32 - 2 ^ 31.

(** One [%d] of [sscanf]: white space is skipped, a sign is optional, one
    digit at least is needed; the conversion leaves the rest of the input.
    The target is an [int] field (lines 53-58, 594-596): of a number that
    does not fit, the Microsoft CRT stores the low 32 bits (it converts in
    64 bits and stores the low half, so this holds of numbers below 2^63;
    the older CRT accumulates in 32 bits). *)
Definition scan_int (l : list ascii) : option (Z * list ascii) :=
  let l1 := drop_while is_space l in
  let '(neg, l2) :=
    match l1 with
    | c :: r =>
        if Ascii.eqb c "-" then (true, r)
        else if Ascii.eqb c "+" then (false, r)
        else (false, l1)
    | [] => (false, l1)
    end in
  match take_while is_digit l2 with
  | [] => None
  | ds =>
      let v := decimal_value ds in
      Some (int_of (if neg : bool then - v else v), drop_while is_digit l2)
  end.

(** A literal character of the format. *)
Definition scan_lit (c : ascii) (l : list ascii) : option (list ascii) :=
  match l with
  | x :: r => if Ascii.eqb x c then Some r else None
  | [] => None
  end.

(** [sscanf(l, "%d<s1>%d<s2>...%d")]: the integers converted, in order, up to
    the first conversion or literal that fails. *)
Fixpoint sscanf_ints (seps : list ascii) (l : list ascii) : list Z :=
  match scan_int l with
  | None => []
  | Some (v, rest) =>
      v :: match seps with
           | [] => []
           | sep :: seps' =>
               match scan_lit sep rest with
               | None => []
               | Some rest' => sscanf_ints seps' rest'
               end
           end
  end.

(** The separators of the format ["%d-%d-%d_%d:%d:%d"]. *)
Definition DATE_SEPARATORS : list ascii := ["-"; "-"; "_"; ":"; ":"]%char.

Record tmT := mkTm {
  tm_sec : Z; tm_min : Z; tm_hour : Z; tm_mday : Z; tm_mon : Z; tm_year : Z
}.

Definition MAX_PATH_LENGTH : Z := 260.

Record fileDateT := mkFileDate {
  nYear : Z; nMonth : Z; nDay : Z; nHour : Z; nMinute : Z; nSecond : Z;
  szFilename : list ascii;
  tTimestamp : Z
}.

(** [memset(&stCurrentFile, 0, sizeof(fileDateT))] *)
Definition zero_fileDate : fileDateT := mkFileDate 0 0 0 0 0 0 [] 0.

Record matcherDataT := mkMatcherData {
  szPrefix : list ascii;
  stLatestFile : fileDateT;
  bFoundMatch : bool
}.

(** [sscanf_s] stores each integer it converts. *)
Definition store_fields (pDate : fileDateT) (v : list Z) : fileDateT :=
  let f (k : nat) (old : Z) := nth k v old in
  mkFileDate (f 0%nat (nYear pDate)) (f 1%nat (nMonth pDate))
    (f 2%nat (nDay pDate)) (f 3%nat (nHour pDate)) (f 4%nat (nMinute pDate))
    (f 5%nat (nSecond pDate)) (szFilename pDate) (tTimestamp pDate).

Definition components_valid (d : fileDateT) : bool :=
  negb ((nYear d <? 1970) || (2100 <? nYear d)
        || (nMonth d <? 1) || (12 <? nMonth d)
        || (nDay d <? 1) || (31 <? nDay d)
        || (nHour d <? 0) || (23 <? nHour d)
        || (nMinute d <? 0) || (59 <? nMinute d)
        || (nSecond d <? 0) || (59 <? nSecond d)).

Definition tm_of (d : fileDateT) : tmT :=
  mkTm (nSecond d) (nMinute d) (nHour d) (nDay d) (nMonth d - 1)
    (nYear d - 1900).

Definition set_timestamp (d : fileDateT) (t : Z) : fileDateT :=
  mkFileDate (nYear d) (nMonth d) (nDay d) (nHour d) (nMinute d) (nSecond d)
    (szFilename d) t.

Definition set_filename (d : fileDateT) (s : list ascii) : fileDateT :=
  mkFileDate (nYear d) (nMonth d) (nDay d) (nHour d) (nMinute d) (nSecond d)
    s (tTimestamp d).

(** A matcher callback: the filename and the user data go in; the answer,
    the user data and what was printed come out. *)
Definition matcherT (U : Type) : Type :=
  list ascii -> U -> bool * U * list event.

Section WithClock.

(** [mktime] of the C library: local time to seconds since the epoch, -1 when
    the time cannot be represented.  It depends on the time zone of the
    machine, so it stays a parameter. *)
Variable mktime : tmT -> Z.

Definition bParseDate (szDateStr : list ascii) (pDate : fileDateT)
  : bool * fileDateT * list event :=
  let converted := sscanf_ints DATE_SEPARATORS szDateStr in
  let pDate := store_fields pDate converted in
  if negb (length converted =? 6)%nat then
    (false, pDate, [ErrDateParse szDateStr])
  else if negb (components_valid pDate) then
    (false, pDate, [ErrDateComponents szDateStr])
  else
    let pDate := set_timestamp pDate (mktime (tm_of pDate)) in
    if tTimestamp pDate =? -1 then (false, pDate, [ErrDateConvert])
    else (true, pDate, []).

Definition bLatestBdcDailyMatcher : matcherT matcherDataT :=
  fun szFileName pData =>
  if negb (strncmp_eq szFileName (szPrefix pData) (length (szPrefix pData)))
  then (false, pData, [])
  else
    let szDatePart := skipn (length (szPrefix pData)) szFileName in
    match str_from "_" szDatePart with
    | None => (false, pData, [])
    | Some szDatePart =>
        let szDatePart := skipn 1 szDatePart in
        let stCurrentFile := zero_fileDate in
        (* strncpy_s(stCurrentFile.szFilename, 260, szFileName, _TRUNCATE) *)
        if negb (Z.of_nat (length szFileName) <? MAX_PATH_LENGTH)
        then (false, pData, [ErrCopyFilename])
        else
          let stCurrentFile := set_filename stCurrentFile szFileName in
          let '(ok, stCurrentFile, ev) := bParseDate szDatePart stCurrentFile in
          if negb ok then (false, pData, ev ++ [ErrInvalidDate])
          else if negb (bFoundMatch pData)
                  || (tTimestamp (stLatestFile pData) <? tTimestamp stCurrentFile)
          then (false, mkMatcherData (szPrefix pData) stCurrentFile true, ev)
          else (false, pData, ev)
    end.

End WithClock.

Definition bExtractLatestFileMatcher : matcherT matcherDataT :=
  fun szFileName pData =>
  (list_eqb szFileName (szFilename (stLatestFile pData)), pData, []).

(** [_stricmp(a, b) == 0]: both strings are compared in lower case; the
    letters are those of the C locale, [A] to [Z]. *)
Definition tolower (c : ascii) : ascii :=
  if (char_code "A" <=? char_code c) && (char_code c <=? char_code "Z")
  then ascii_of_N (Z.to_N (char_code c + 32))
  else c.

Definition stricmp_eq (a b : list ascii) : bool :=
  list_eqb (map tolower a) (map tolower b).

(** The user data of the next two matchers is a string: an extension with
    its dot, or a pattern. *)
Definition bFileExtensionMatcher : matcherT (list ascii) :=
  fun szFilename szExtension =>
  match strrchr "." szFilename with
  | None => (false, szExtension, [])
  | Some szFileExt => (stricmp_eq szFileExt szExtension, szExtension, [])
  end.

Definition bWildcardMatcher : matcherT (list ascii) :=
  fun szFilename szPattern =>
  if Ascii.eqb (nth 0 szPattern NUL) "*" && Ascii.eqb (nth 1 szPattern NUL) "."
  then
    match strrchr "." szFilename with
    | None => (false, szPattern, [])
    | Some szFileExt => (stricmp_eq szFileExt (skipn 1 szPattern), szPattern, [])
    end
  else (list_eqb szFilename szPattern, szPattern, []).







(** The date text of a filename: past the prefix, after the first ['_']. *)
Definition date_part (prefix szFileName : list ascii) : option (list ascii) :=
  if strncmp_eq szFileName prefix (length prefix)
  then option_map (skipn 1) (str_from "_" (skipn (length prefix) szFileName))
  else None.

(** A candidate of the first pass: a filename with the prefix whose date is
    parsed, with the record the matcher builds for it. *)
Definition candidate (mktime : tmT -> Z) (prefix szFileName : list ascii)
  : option fileDateT :=
  match date_part prefix szFileName with
  | Some szDatePart =>
      if Z.of_nat (length szFileName) <? MAX_PATH_LENGTH then
        let '(ok, d, _) :=
          bParseDate mktime szDatePart (set_filename zero_fileDate szFileName) in
        if ok then Some d else None
      else None
  | None => None
  end.

Fixpoint filter_map {A B : Type} (f : A -> option B) (l : list A) : list B :=
  match l with
  | [] => []
  | x :: l' =>
      match f x with
      | Some y => y :: filter_map f l'
      | None => filter_map f l'
      end
  end.

(** A matcher that declines every file and keeps the names it was given. *)
Definition recorder : matcherT (list (list ascii)) :=
  fun szFileName seen => (false, seen ++ [szFileName], []).

(** Events of the extraction of a file. *)
Definition is_extraction_event (e : event) : bool :=
  match e with
  | OutReport _ _ | ErrTimestamp | ErrCycleCount | ErrReadData _ _ => true
  | _ => false
  end.

(* ================================================================= *)
(** ** zlib: the decompressed stream

    An archive file is the byte sequence it decompresses to, and a flag
    telling whether the compressed data is damaged after those bytes.  A
    read past the last byte of a sound file is short and sets the
    end-of-file flag; on a damaged file it is an error (-1). *)

Record archiveT := mkArchive {
  ar_bytes : list ascii;
  ar_damaged : bool
}.

Record gzFile := mkGz {
  gz_data : list ascii;
  gz_damaged : bool;
  gz_pos : nat;
  gz_eof : bool
}.

(** [gzopen(path, "rb")]; [None] is a file that cannot be opened. *)
Definition gzopen (file : option archiveT) : option gzFile :=
  match file with
  | Some a => Some (mkGz (ar_bytes a) (ar_damaged a) 0 false)
  | None => None
  end.

(** [gzread(gz, buf, n)]: the return value, the bytes, the stream after. *)
Definition gzread (gz : gzFile) (n : nat) : Z * list ascii * gzFile :=
  let avail := skipn (gz_pos gz) (gz_data gz) in
  if (n <=? length avail)%nat then
    (Z.of_nat n, firstn n avail,
     mkGz (gz_data gz) (gz_damaged gz) (gz_pos gz + n) (gz_eof gz))
  else if gz_damaged gz then (-1, [], gz)
  else
    (Z.of_nat (length avail), avail,
     mkGz (gz_data gz) (gz_damaged gz) (gz_pos gz + length avail) true).

(** [gzseek(gz, offset, SEEK_CUR)], forward.  The offset is a [z_off_t],
    which is a [long] of 32 bits where [unsigned long] has 32; an offset
    that does not fit in it is left out of the model ([None]). *)
Definition LONG_MAX : Z := 2 ^ 31 - 1.

Definition gzseek (gz : gzFile) (offset : Z) : option gzFile :=
  if (0 <=? offset) && (offset <=? LONG_MAX) then
    Some (mkGz (gz_data gz) (gz_damaged gz) (gz_pos gz + Z.to_nat offset)
            (gz_eof gz))
  else None.

(* ================================================================= *)
(** ** nExtractFromTargzWithCallback *)

Definition CHUNK : Z := 16384.
Definition TAR_BLOCK_SIZE : Z := 512.

(** Offsets of [tarHeaderT]: [szName] is at 0, [szSize] (12 bytes) follows
    [szName[100]], [szMode[8]], [szUid[8]] and [szGid[8]]; [cTypeflag]
    follows [szSize[12]], [szMtime[12]] and [szChksum[8]]. *)
Definition OFFSET_SIZE : nat := 124.
Definition SIZE_WIDTH : nat := 12.
Definition OFFSET_TYPEFLAG : nat := 156.

(** [(ulFileSize + TAR_BLOCK_SIZE - 1) / TAR_BLOCK_SIZE], in [unsigned long]. *)
Definition nBlocks_of (ulFileSize : Z) : Z :=
  ulong (ulFileSize + TAR_BLOCK_SIZE - 1) / TAR_BLOCK_SIZE.

(** The base name: [strrchr(szName, '/')], then one past the slash. *)
Definition base_name (szName : list ascii) : list ascii :=
  match strrchr SLASH szName with
  | Some pSlash => skipn 1 pSlash
  | None => szName
  end.

Inductive read_result :=
| ReadOk (content : list ascii) (gz : gzFile)
| ReadShort (expected got : Z).

(** [while (nRemaining > 0)]: the content is read [CHUNK] bytes at a time. *)
Fixpoint read_content (fuel : nat) (gz : gzFile) (nRemaining : Z)
  (content : list ascii) : option read_result :=
  match fuel with
  | O => None
  | S fuel' =>
      if nRemaining <=? 0 then Some (ReadOk content gz)
      else
        let nToRead := if CHUNK <? nRemaining then CHUNK else nRemaining in
        let '(nBytesRead, bytes, gz) := gzread gz (Z.to_nat nToRead) in
        if negb (nBytesRead =? nToRead)
        then Some (ReadShort (ulong nToRead) (ulong nBytesRead))
        else read_content fuel' gz (nRemaining - nBytesRead) (content ++ bytes)
  end.

(** One turn of the main loop ends in [continue] or leaves the loop. *)
Inductive loop_step (U : Type) :=
| Next (gz : gzFile) (pUserData : U) (log : list event)
| Exit (nRet : Z) (pUserData : U) (log : list event).

Arguments Next {U} gz pUserData log.
Arguments Exit {U} nRet pUserData log.

(** The work on an extracted file: both fields of its last row. *)
Definition report_fields (content : list ascii) : option (list event) :=
  let m : memory :=
    [content ++ [NUL]; repeat NUL (Z.to_nat MAX_BUFFER_SIZE);
     repeat NUL (Z.to_nat MAX_BUFFER_SIZE)] in
  let szCsvBuf : ptr := (0%nat, 0) in
  let szBufferTimestamp : ptr := (1%nat, 0) in
  let szBufferCycleCount : ptr := (2%nat, 0) in
  '(r, m) <- nGetCSVDataByColName m szCsvBuf (-1) (str "TimeStamp")
               szBufferTimestamp MAX_BUFFER_SIZE ;;
  if negb (r =? 0) then Some [ErrTimestamp]
  else
    '(r, m) <- nGetCSVDataByColName m szCsvBuf (-1) (str "CycleCount")
                 szBufferCycleCount MAX_BUFFER_SIZE ;;
    if negb (r =? 0) then Some [ErrCycleCount]
    else
      ts <- cstring_at m szBufferTimestamp ;;
      cc <- cstring_at m szBufferCycleCount ;;
      Some [OutReport cc ts].

Section Reader.

Context {U : Type}.
Variable szTargetDir : list ascii.
Variable pfnMatcher : option (matcherT U).

Definition tar_step (gz : gzFile) (pUserData : U) : option (loop_step U) :=
  let '(n, stHeader, gz) := gzread gz (Z.to_nat TAR_BLOCK_SIZE) in
  if negb (n =? TAR_BLOCK_SIZE) then
    if gz_eof gz then Some (Exit 0 pUserData [])
    else Some (Exit (-1) pUserData [ErrUnexpectedEnd])
  else if Ascii.eqb (nth 0 stHeader NUL) NUL then
    let '(_, _, gz) := gzread gz (Z.to_nat TAR_BLOCK_SIZE) in
    Some (Exit 0 pUserData [])
  else
    szName <- cstr stHeader ;;
    if unsafe_path szName then
      ulFileSize <- ulParseOctal (skipn OFFSET_SIZE stHeader) SIZE_WIDTH ;;
      let nBlocks := nBlocks_of ulFileSize in
      gz <- gzseek gz (nBlocks * TAR_BLOCK_SIZE) ;;
      Some (Next gz pUserData [WarnUnsafePath szName])
    else
      ulFileSize <- ulParseOctal (skipn OFFSET_SIZE stHeader) SIZE_WIDTH ;;
      let nBlocks := nBlocks_of ulFileSize in
      let cTypeflag := nth OFFSET_TYPEFLAG stHeader NUL in
      if (Ascii.eqb cTypeflag "0" || Ascii.eqb cTypeflag NUL)
         && bIsInDirectory szName szTargetDir
      then
        let szFilename := base_name szName in
        match szFilename with
        | [] =>
            gz <- gzseek gz (nBlocks * TAR_BLOCK_SIZE) ;;
            Some (Next gz pUserData [])
        | _ :: _ =>
            let '(bExtract, pUserData, ev) :=
              match pfnMatcher with
              | Some f => f szFilename pUserData
              | None => (true, pUserData, [])
              end in
            if negb bExtract then
              gz <- gzseek gz (nBlocks * TAR_BLOCK_SIZE) ;;
              Some (Next gz pUserData ev)
            else
              (* malloc(ulFileSize + 1), then szCsvBuf[ulFileSize] = 0 *)
              if ulong (ulFileSize + 1) =? 0 then None
              else
                r <- read_content (S (Z.to_nat (ulFileSize / CHUNK + 1))) gz
                       ulFileSize [] ;;
                match r with
                | ReadShort expected got =>
                    Some (Exit (-1) pUserData (ev ++ [ErrReadData expected got]))
                | ReadOk content _ =>
                    out <- report_fields content ;;
                    Some (Exit 0 pUserData (ev ++ out))
                end
        end
      else
        gz <- gzseek gz (nBlocks * TAR_BLOCK_SIZE) ;;
        Some (Next gz pUserData []).

(** [while (1)].  Every turn that continues has read a whole header, so
    the turns are fewer than the blocks of the stream plus two. *)
Fixpoint tar_loop (fuel : nat) (gz : gzFile) (pUserData : U)
  (log : list event) : option (Z * U * list event) :=
  match fuel with
  | O => None
  | S fuel' =>
      s <- tar_step gz pUserData ;;
      match s with
      | Next gz pUserData ev => tar_loop fuel' gz pUserData (log ++ ev)
      | Exit nRet pUserData ev => Some (nRet, pUserData, log ++ ev)
      end
  end.

Definition tar_fuel (gz : gzFile) : nat :=
  S (S (length (gz_data gz) / Z.to_nat TAR_BLOCK_SIZE)).

Definition nExtractFromTargzWithCallback (file : option archiveT)
  (pUserData : U) : option (Z * U * list event) :=
  match gzopen file with
  | None => Some (-1, pUserData, [ErrCannotOpen])
  | Some gz => tar_loop (tar_fuel gz) gz pUserData []
  end.

End Reader.

(* ================================================================= *)
(** ** nExtractLatestBdcDailyFile *)

Definition BDC_PREFIX : list ascii := str "BDC_Daily_version".

Section Program.

Variable mktime : tmT -> Z.

Definition nExtractLatestBdcDailyFile (file : option archiveT)
  (szTargetDir : list ascii) : option (Z * list event) :=
  let stData := mkMatcherData BDC_PREFIX zero_fileDate false in
  '(nResult, stData, log1) <-
     nExtractFromTargzWithCallback szTargetDir
       (Some (bLatestBdcDailyMatcher mktime)) file stData ;;
  if negb (nResult =? 0) then Some (nResult, OutParsing :: log1 ++ [ErrAnalyze])
  else if negb (bFoundMatch stData)
  then Some (-1, OutParsing :: log1 ++ [ErrNoMatching])
  else
    '(nResult, _, log2) <-
       nExtractFromTargzWithCallback szTargetDir
         (Some bExtractLatestFileMatcher) file stData ;;
    Some (nResult,
          OutParsing :: log1
          ++ [OutLatest (szFilename (stLatestFile stData)); OutChecking]
          ++ log2).

(** [main] passes this directory. *)
Definition TARGET_DIR : list ascii := str "logs/BatteryBDC/".

End Program.

(* ================================================================= *)
(** ** Fixtures: a clock and archives for the examples *)

(** Days from 1970-01-01 to the first day of a month, proleptic Gregorian. *)
Definition days_from_civil (y m : Z) : Z :=
  let y := if m <=? 2 then y - 1 else y in
  let era := y / 400 in
  let yoe := y - era * 400 in
  let mp := (m + 9) mod 12 in
  let doy := (153 * mp + 2) / 5 in
  let doe := yoe * 365 + yoe / 4 - yoe / 100 + doy in
  era * 146097 + doe - 719468.

(** [mktime] of a machine whose local time is UTC. *)
Definition mktime_utc (t : tmT) : Z :=
  let days := days_from_civil (tm_year t + 1900) (tm_mon t + 1) + (tm_mday t - 1) in
  let s := ((days * 24 + tm_hour t) * 60 + tm_min t) * 60 + tm_sec t in
  if s <? 0 then -1 else s.

Definition pad_to (n : nat) (l : list ascii) : list ascii :=
  firstn n (l ++ repeat NUL n).

Fixpoint octal_of (digits : nat) (n : Z) : list ascii :=
  match digits with
  | O => []
  | S d => octal_of d (n / 8) ++ [ascii_of_N (Z.to_N (48 + n mod 8))]
  end.

(** A ustar header block with the given name, size field and type flag. *)
Definition tar_header (name : list ascii) (size_field : list ascii)
  (typeflag : ascii) : list ascii :=
  pad_to 100 name
  ++ pad_to 8 (str "0000644") ++ pad_to 8 (str "0000000")
  ++ pad_to 8 (str "0000000")
  ++ pad_to 12 size_field
  ++ pad_to 12 (str "00000000000") ++ pad_to 8 (str "        ")
  ++ [typeflag]
  ++ repeat NUL 355.

Definition tar_file (name content : list ascii) : list ascii :=
  let n := length content in
  tar_header name (octal_of 11 (Z.of_nat n)) "0"
  ++ pad_to ((n + 511) / 512 * 512) content.

Definition tar_end : list ascii := repeat NUL 1024.

(** Texts of the examples. *)
Definition csv_round_trip : list ascii :=
  str "TimeStamp,CycleCount" ++ [LF]
  ++ str "2025-05-14 20:15:23,253" ++ [LF].

Definition csv_quoted : list ascii :=
  str "A,B" ++ [LF] ++ [DQUOTE] ++ str "x,y" ++ [DQUOTE] ++ str ",9" ++ [LF].

(** A file with CR LF line ends whose last field is empty. *)
Definition csv_crlf_empty_last : list ascii :=
  str "A,B" ++ [CR; LF] ++ str "x," ++ [CR; LF].

(** Two rows, the second one without a line feed. *)
Definition csv_no_final_newline : list ascii :=
  str "TimeStamp,CycleCount" ++ [LF]
  ++ str "2025-05-13 20:15:23,252" ++ [LF]
  ++ str "2025-05-14 20:15:23,253".

Definition csv_ragged : list ascii :=
  str "A,B" ++ [LF] ++ str "x" ++ [LF].

(** A header of 257 columns: 256 named [a], then [z]. *)
Definition wide_header : list ascii :=
  concat (repeat (str "a,") 256) ++ str "z".

Definition wide_csv : list ascii := wide_header ++ [LF] ++ str "7" ++ [LF].

(** Archives of the examples. *)
Definition bdc_path (date : string) : list ascii :=
  str "logs/BatteryBDC/BDC_Daily_version_" ++ str date ++ str ".csv".

Definition bdc_csv (stamp count : string) : list ascii :=
  str "TimeStamp,CycleCount" ++ [LF] ++ str stamp ++ str "," ++ str count
  ++ [LF].

Definition archive_one : archiveT :=
  mkArchive
    (tar_file (bdc_path "2025-05-14_20:30:45")
       (bdc_csv "2025-05-14 20:15:23" "253")
     ++ tar_end) false.

(** Three dated files out of order, an unsafe path and a name whose date
    does not parse. *)
Definition archive_three : archiveT :=
  mkArchive
    (tar_file (bdc_path "2025-05-12_20:30:45")
       (bdc_csv "2025-05-12 20:15:23" "251")
     ++ tar_file (str "logs/../x") (str "abc")
     ++ tar_file (bdc_path "2025-05-14_20:30:45")
          (bdc_csv "2025-05-14 20:15:23" "253")
     ++ tar_file (bdc_path "bad") (bdc_csv "d" "4")
     ++ tar_file (bdc_path "2025-05-13_20:30:45")
          (bdc_csv "2025-05-13 20:15:23" "252")
     ++ tar_end) false.

Definition archive_none : archiveT :=
  mkArchive (tar_file (str "logs/other.txt") (str "abc") ++ tar_end) false.

(** An entry with a parent-directory path and the size field of a file of
    2^32 - 1 bytes; the stream holds its header and the start of its data,
    which reads as an archive of one dated file. *)
Definition huge_unsafe_header : list ascii :=
  tar_header (str "a/../b") (str "37777777777") "0".

Definition huge_unsafe_data : list ascii :=
  tar_file (bdc_path "2025-05-14_20:30:45") (bdc_csv "2025-05-14 20:15:23" "253")
  ++ tar_end.

Definition huge_unsafe_stream : gzFile :=
  mkGz (huge_unsafe_header ++ huge_unsafe_data) false 0 false.

Definition huge_unsafe_archive : archiveT :=
  mkArchive (huge_unsafe_header ++ huge_unsafe_data) false.


(* ================================================================= *)
(** ** Lists *)

Lemma skipn_cons_nth {A : Type} (l : list A) (i : nat) :
  (i < length l)%nat ->
  exists c, nth_error l i = Some c /\ skipn i l = c :: skipn (S i) l.
Proof.
  revert i. induction l as [|x l IH]; intros i Hi; simpl in Hi; [lia|].
  destruct i as [|i].
  - exists x. split; reflexivity.
  - destruct (IH i) as [c [H1 H2]]; [lia|].
    exists c. split; [exact H1 | exact H2].
Qed.

Lemma take_while_app {A : Type} (f : A -> bool) (l1 l2 : list A) :
  Forall (fun x => f x = true) l1 ->
  take_while f (l1 ++ l2) = l1 ++ take_while f l2.
Proof.
  induction 1 as [|x l Hx _ IH]; simpl; [reflexivity|].
  rewrite Hx, IH. reflexivity.
Qed.

Lemma drop_while_app {A : Type} (f : A -> bool) (l1 l2 : list A) :
  Forall (fun x => f x = true) l1 ->
  drop_while f (l1 ++ l2) = drop_while f l2.
Proof.
  induction 1 as [|x l Hx _ IH]; simpl; [reflexivity|].
  rewrite Hx, IH. reflexivity.
Qed.

Lemma take_drop_while {A : Type} (f : A -> bool) (l : list A) :
  take_while f l ++ drop_while f l = l.
Proof.
  induction l as [|x l IH]; simpl; [reflexivity|].
  destruct (f x); simpl; [rewrite IH|]; reflexivity.
Qed.

Lemma take_while_all {A : Type} (f : A -> bool) (l : list A) :
  Forall (fun x => f x = true) (take_while f l).
Proof.
  induction l as [|x l IH]; simpl; [constructor|].
  destruct (f x) eqn:E; constructor; assumption.
Qed.

(* ================================================================= *)
(** ** ulParseOctal *)

Lemma ulong_idem z : ulong (ulong z) = ulong z.
Proof. unfold ulong. apply Z.mod_mod. discriminate. Qed.

Lemma ulong_step acc c : ulong (octal_step (ulong acc) c) = ulong (octal_step acc c).
Proof.
  unfold ulong, octal_step.
  rewrite <- Z.add_mod_idemp_l by discriminate.
  rewrite Z.mul_mod_idemp_l by discriminate.
  rewrite Z.add_mod_idemp_l by discriminate. reflexivity.
Qed.

Lemma ulong_small z : 0 <= z < 2 ^ ULONG_BITS -> ulong z = z.
Proof. intros H. unfold ulong. apply Z.mod_small. exact H. Qed.

Lemma is_pad_not_octal c : is_pad c = true -> is_octal c = false.
Proof.
  unfold is_pad. intros H. apply orb_true_iff in H.
  destruct H as [H|H]; apply Ascii.eqb_eq in H; subst c; reflexivity.
Qed.

Lemma octal_skip_spec (s : buffer) :
  forall left i, (i + left <= length s)%nat ->
  octal_skip s i left
  = Some (i + length (take_while is_pad (firstn left (skipn i s))))%nat.
Proof.
  induction left as [|left IH]; intros i Hi; simpl.
  - f_equal. lia.
  - destruct (skipn_cons_nth s i) as [c [Hc Hs]]; [lia|].
    rewrite Hc, Hs. simpl.
    destruct (is_pad c).
    + rewrite IH by lia. simpl. f_equal. lia.
    + simpl. f_equal. lia.
Qed.

Lemma octal_accum_spec (s : buffer) :
  forall left i acc, (i + left <= length s)%nat ->
  octal_accum s i left (ulong acc)
  = Some (ulong (fold_left octal_step
                   (take_while is_octal (firstn left (skipn i s))) acc)).
Proof.
  induction left as [|left IH]; intros i acc Hi.
  - reflexivity.
  - destruct (skipn_cons_nth s i) as [c [Hc Hs]]; [lia|].
    cbn [octal_accum]. rewrite Hc, Hs.
    cbn [bind firstn take_while].
    destruct (is_pad c) eqn:Hp.
    + rewrite (is_pad_not_octal c Hp). reflexivity.
    + destruct (is_octal c); cbn [negb fold_left]; [|reflexivity].
      change (ulong acc * 8 + (char_code c - char_code "0"))
        with (octal_step (ulong acc) c).
      rewrite ulong_step. apply IH. lia.
Qed.

Lemma drop_while_firstn_pad (l : list ascii) (n : nat) :
  (n <= length l)%nat ->
  let k := length (take_while is_pad (firstn n l)) in
  drop_while is_pad (firstn n l) = firstn (n - k) (skipn k l).
Proof.
  revert n. induction l as [|x l IH]; intros n Hn; simpl in *.
  - destruct n; [reflexivity | lia].
  - destruct n as [|n]; [reflexivity|]. simpl.
    destruct (is_pad x); simpl.
    + apply IH. lia.
    + reflexivity.
Qed.

Lemma ulParseOctal_value (s : buffer) (w : nat) :
  (w <= length s)%nat ->
  ulParseOctal s w = Some (ulong (octal_value (octal_digits (firstn w s)))).
Proof.
  intros Hw. unfold ulParseOctal.
  rewrite octal_skip_spec by lia. simpl.
  set (k := length (take_while is_pad (firstn w s))).
  assert (Hk : (k <= w)%nat).
  { subst k. pose proof (take_drop_while is_pad (firstn w s)) as H.
    apply (f_equal (@length ascii)) in H.
    rewrite length_app, length_firstn in H. lia. }
  replace 0 with (ulong 0) at 1 by reflexivity.
  rewrite octal_accum_spec by lia.
  unfold octal_value, octal_digits.
  rewrite (drop_while_firstn_pad s w Hw). fold k. reflexivity.
Qed.


(* ================================================================= *)
(** ** Memory *)

Lemma firstn_exact {A : Type} (a b : list A) : firstn (length a) (a ++ b) = a.
Proof.
  rewrite firstn_app, firstn_all, Nat.sub_diag. simpl. apply app_nil_r.
Qed.

Lemma skipn_exact {A : Type} (a b : list A) : skipn (length a) (a ++ b) = b.
Proof.
  rewrite skipn_app, skipn_all, Nat.sub_diag. reflexivity.
Qed.

Lemma skipn_exact_S {A : Type} (a b : list A) (x : A) :
  skipn (S (length a)) (a ++ x :: b) = b.
Proof.
  change (S (length a)) with (1 + length a)%nat.
  rewrite <- skipn_skipn, skipn_exact. reflexivity.
Qed.

Lemma split_at {A : Type} (l : list A) (n : nat) :
  (n < length l)%nat ->
  exists a c b, l = a ++ c :: b /\ length a = n.
Proof.
  intros Hn. destruct (skipn_cons_nth l n Hn) as [c [_ Hs]].
  exists (firstn n l), c, (skipn (S n) l). split.
  - rewrite <- Hs. symmetry. apply firstn_skipn.
  - rewrite length_firstn. lia.
Qed.

Lemma set_block_app (a c : list buffer) (x y : buffer) :
  set_block (a ++ x :: c) (length a) y = a ++ y :: c.
Proof.
  unfold set_block. rewrite firstn_exact, skipn_exact_S. reflexivity.
Qed.

Lemma block_of_app (a c : list buffer) (x : buffer) :
  block_of (a ++ x :: c) (length a) = x.
Proof.
  unfold block_of. rewrite app_nth2, Nat.sub_diag by lia. reflexivity.
Qed.

Lemma length_set_block (m : memory) (b : nat) (x : buffer) :
  (b < length m)%nat -> length (set_block m b x) = length m.
Proof.
  intros Hb. destruct (split_at m b Hb) as [a [c [d [-> <-]]]].
  rewrite set_block_app, !length_app. reflexivity.
Qed.

Lemma block_of_set_same (m : memory) (b : nat) (x : buffer) :
  (b < length m)%nat -> block_of (set_block m b x) b = x.
Proof.
  intros Hb. destruct (split_at m b Hb) as [a [c [d [-> <-]]]].
  rewrite set_block_app. apply block_of_app.
Qed.

Lemma block_of_set_other (m : memory) (b b' : nat) (x : buffer) :
  (b < length m)%nat -> b' <> b ->
  block_of (set_block m b x) b' = block_of m b'.
Proof.
  intros Hb Hne. destruct (split_at m b Hb) as [a [c [d [-> <-]]]].
  rewrite set_block_app. unfold block_of.
  destruct (Nat.lt_ge_cases b' (length a)) as [Hlt|Hge].
  - rewrite !app_nth1 by lia. reflexivity.
  - rewrite !app_nth2 by lia.
    destruct (b' - length a)%nat as [|k] eqn:Hk; [lia|]. reflexivity.
Qed.

Lemma set_block_twice (m : memory) (b : nat) (x y : buffer) :
  (b < length m)%nat -> set_block (set_block m b x) b y = set_block m b y.
Proof.
  intros Hb. destruct (split_at m b Hb) as [a [c [d [-> <-]]]].
  rewrite !set_block_app. reflexivity.
Qed.

Lemma set_block_self (m : memory) (b : nat) :
  (b < length m)%nat -> set_block m b (block_of m b) = m.
Proof.
  intros Hb. destruct (split_at m b Hb) as [a [c [d [-> <-]]]].
  rewrite block_of_app, set_block_app. reflexivity.
Qed.

Lemma peek_at (l1 l2 : list ascii) (c : ascii) (z : Z) :
  z = Z.of_nat (length l1) -> peek (l1 ++ c :: l2) z = Some c.
Proof.
  intros ->. unfold peek.
  destruct (Z.ltb_spec (Z.of_nat (length l1)) 0); [lia|].
  rewrite Nat2Z.id, nth_error_app2 by lia.
  rewrite Nat.sub_diag. reflexivity.
Qed.

Lemma poke_at (l1 l2 : list ascii) (c d : ascii) (z : Z) :
  z = Z.of_nat (length l1) -> poke (l1 ++ c :: l2) z d = Some (l1 ++ d :: l2).
Proof.
  intros ->. unfold poke.
  assert (H : (0 <=? Z.of_nat (length l1))
              && (Z.of_nat (length l1) <? Z.of_nat (length (l1 ++ c :: l2)))
              = true).
  { rewrite length_app. cbn [length].
    apply andb_true_iff. split; [apply Z.leb_le | apply Z.ltb_lt]; lia. }
  rewrite H, Nat2Z.id, firstn_exact, skipn_exact_S. reflexivity.
Qed.

Lemma load_at (m : memory) (b : nat) (l1 l2 : list ascii) (c : ascii) (z : Z) :
  (b < length m)%nat -> z = Z.of_nat (length l1) ->
  load (set_block m b (l1 ++ c :: l2)) (b, z) = Some c.
Proof.
  intros Hb Hz. unfold load. simpl.
  rewrite block_of_set_same by exact Hb. apply peek_at. exact Hz.
Qed.

Lemma store_at (m : memory) (b : nat) (l1 l2 : list ascii) (c d : ascii) (z : Z) :
  (b < length m)%nat -> z = Z.of_nat (length l1) ->
  store (set_block m b (l1 ++ c :: l2)) (b, z) d
  = Some (set_block m b (l1 ++ d :: l2)).
Proof.
  intros Hb Hz. unfold store. simpl.
  rewrite block_of_set_same by exact Hb.
  rewrite (poke_at l1 l2 c d z Hz). simpl.
  rewrite set_block_twice by exact Hb. reflexivity.
Qed.

Lemma tail_at_app (m : memory) (b : nat) (l1 l2 : list ascii) (z : Z) :
  (b < length m)%nat -> z = Z.of_nat (length l1) ->
  tail_at (set_block m b (l1 ++ l2)) (b, z) = l2.
Proof.
  intros Hb ->. unfold tail_at. simpl.
  destruct (Z.ltb_spec (Z.of_nat (length l1)) 0); [lia|].
  rewrite block_of_set_same by exact Hb.
  rewrite Nat2Z.id. apply skipn_exact.
Qed.

(* ================================================================= *)
(** ** C strings *)

Definition nonul (s : list ascii) : Prop :=
  Forall (fun c => Ascii.eqb c NUL = false) s.

Lemma nonul_app (a b : list ascii) : nonul (a ++ b) <-> nonul a /\ nonul b.
Proof. apply Forall_app. Qed.

Lemma cstr_nonul (s x : list ascii) :
  nonul s -> cstr (s ++ NUL :: x) = Some s.
Proof.
  induction 1 as [|c s Hc _ IH]; simpl; [reflexivity|].
  rewrite Hc, IH. reflexivity.
Qed.

Lemma cstr_inv (l s : list ascii) :
  cstr l = Some s -> nonul s /\ exists x, l = s ++ NUL :: x.
Proof.
  revert s. induction l as [|c l IH]; intros s H; simpl in H; [discriminate|].
  destruct (Ascii.eqb c NUL) eqn:E.
  - injection H as <-. apply Ascii.eqb_eq in E. subst c.
    split; [constructor | exists l; reflexivity].
  - destruct (cstr l) as [s'|]; [|discriminate]. injection H as <-.
    destruct (IH s' eq_refl) as [Hn [x Hx]].
    split; [constructor; assumption | exists x; rewrite Hx; reflexivity].
Qed.

Lemma cstr_app (l x s : list ascii) :
  cstr l = Some s -> cstr (l ++ x) = Some s.
Proof.
  intros H. destruct (cstr_inv l s H) as [Hn [y ->]].
  rewrite <- app_assoc. simpl. apply cstr_nonul. exact Hn.
Qed.

Lemma cstr_none_nonul (s : list ascii) : nonul s -> cstr s = None.
Proof.
  induction 1 as [|c s Hc _ IH]; simpl; [reflexivity|].
  rewrite Hc, IH. reflexivity.
Qed.

Lemma cstring_at_app (m : memory) (b : nat) (l1 s x : list ascii) (z : Z) :
  (b < length m)%nat -> z = Z.of_nat (length l1) -> nonul s ->
  cstring_at (set_block m b (l1 ++ s ++ NUL :: x)) (b, z) = Some s.
Proof.
  intros Hb Hz Hs. unfold cstring_at.
  rewrite (tail_at_app m b l1 _ z Hb Hz). apply cstr_nonul. exact Hs.
Qed.

Lemma strlen_app (m : memory) (b : nat) (l1 s x : list ascii) (z : Z) :
  (b < length m)%nat -> z = Z.of_nat (length l1) -> nonul s ->
  strlen (set_block m b (l1 ++ s ++ NUL :: x)) (b, z)
  = Some (Z.of_nat (length s)).
Proof.
  intros Hb Hz Hs. unfold strlen.
  rewrite (cstring_at_app m b l1 s x z Hb Hz Hs). reflexivity.
Qed.

Definition nolf (s : list ascii) : Prop :=
  Forall (fun c => not_lf c = true) s.

Lemma find_char_found (s x : list ascii) :
  nolf s -> nonul s -> find_char LF (s ++ LF :: x) = Some (Some (length s)).
Proof.
  intros H1 H2. induction s as [|c s IH]; simpl; [reflexivity|].
  inversion H1 as [|? ? Hc H1']; subst. inversion H2 as [|? ? Hn H2']; subst.
  unfold not_lf in Hc. apply negb_true_iff in Hc. rewrite Hc, Hn.
  rewrite (IH H1' H2'). reflexivity.
Qed.

Lemma find_char_absent (s x : list ascii) :
  nolf s -> nonul s -> find_char LF (s ++ NUL :: x) = Some None.
Proof.
  intros H1 H2. induction s as [|c s IH]; simpl; [reflexivity|].
  inversion H1 as [|? ? Hc H1']; subst. inversion H2 as [|? ? Hn H2']; subst.
  unfold not_lf in Hc. apply negb_true_iff in Hc. rewrite Hc, Hn.
  rewrite (IH H1' H2'). reflexivity.
Qed.

Lemma line_split (l : list ascii) :
  nolf (line_of l) /\
  (after_line l = None -> l = line_of l) /\
  (forall r, after_line l = Some r -> l = line_of l ++ LF :: r).
Proof.
  unfold line_of, after_line, nolf.
  split; [apply take_while_all|].
  pose proof (take_drop_while not_lf l) as H.
  induction l as [|c l IH]; simpl in *.
  - split; [reflexivity | discriminate].
  - destruct (not_lf c) eqn:E; simpl in *.
    + injection H as H. destruct (IH H) as [IH1 IH2].
      split; intros; f_equal; auto.
    + split; [discriminate|]. intros r Hr. injection Hr as <-.
      unfold not_lf in E. apply negb_false_iff, Ascii.eqb_eq in E.
      subst c. reflexivity.
Qed.

Lemma nonul_line_of (l : list ascii) : nonul l -> nonul (line_of l).
Proof.
  unfold line_of. induction 1 as [|c l Hc _ IH]; simpl; [constructor|].
  destruct (not_lf c); constructor; assumption.
Qed.

Lemma nonul_after_line (l r : list ascii) :
  nonul l -> after_line l = Some r -> nonul r.
Proof.
  intros Hl Hr. destruct (line_split l) as [_ [_ H]].
  rewrite (H r Hr) in Hl. apply nonul_app in Hl. destruct Hl as [_ Hl].
  inversion Hl; assumption.
Qed.

Lemma strchr_found (m : memory) (b : nat) (l1 s x : list ascii) (z : Z) :
  (b < length m)%nat -> z = Z.of_nat (length l1) -> nolf s -> nonul s ->
  strchr (set_block m b (l1 ++ s ++ LF :: x)) (b, z) LF
  = Some (Some (b, Z.of_nat (length l1 + length s))).
Proof.
  intros Hb Hz H1 H2. unfold strchr.
  rewrite (tail_at_app m b l1 _ z Hb Hz), find_char_found by assumption.
  simpl. unfold padd. simpl. subst z. do 3 f_equal. lia.
Qed.

Lemma strchr_absent (m : memory) (b : nat) (l1 s x : list ascii) (z : Z) :
  (b < length m)%nat -> z = Z.of_nat (length l1) -> nolf s -> nonul s ->
  strchr (set_block m b (l1 ++ s ++ NUL :: x)) (b, z) LF = Some None.
Proof.
  intros Hb Hz H1 H2. unfold strchr.
  rewrite (tail_at_app m b l1 _ z Hb Hz), find_char_absent by assumption.
  reflexivity.
Qed.


(* ================================================================= *)
(** ** The trimming block *)

Lemma rstrip_snoc (r : list ascii) (d : ascii) :
  rstrip (r ++ [d]) = if is_trail d then rstrip r else r ++ [d].
Proof.
  unfold rstrip. rewrite rev_app_distr. simpl.
  destruct (is_trail d); [reflexivity|].
  simpl. rewrite rev_involutive. reflexivity.
Qed.

Lemma rstrip_split (r : list ascii) : exists junk, r = rstrip r ++ junk.
Proof.
  induction r as [|d r IH] using rev_ind.
  - exists []. reflexivity.
  - rewrite rstrip_snoc. destruct (is_trail d).
    + destruct IH as [junk IH]. exists (junk ++ [d]).
      rewrite app_assoc, <- IH. reflexivity.
    + exists []. rewrite app_nil_r. reflexivity.
Qed.

Lemma nonul_rstrip (r : list ascii) : nonul r -> nonul (rstrip r).
Proof.
  intros H. destruct (rstrip_split r) as [junk E]. rewrite E in H.
  apply nonul_app in H. tauto.
Qed.

Lemma skip_leading_spec (m : memory) (b : nat) :
  (b < length m)%nat ->
  forall t pre post fuel z,
  nonul t -> (length t < fuel)%nat -> z = Z.of_nat (length pre) ->
  skip_leading fuel (set_block m b (pre ++ t ++ NUL :: post)) (b, z)
  = Some (b, Z.of_nat (length pre + length (take_while is_lead t))).
Proof.
  intros Hb. induction t as [|c t IH]; intros pre post fuel z Hn Hf Hz.
  - destruct fuel as [|fuel]; [simpl in Hf; lia|].
    cbn [skip_leading app]. rewrite (load_at m b pre post NUL z Hb Hz).
    cbn. subst z. do 2 f_equal. lia.
  - destruct fuel as [|fuel]; [simpl in Hf; lia|].
    cbn [skip_leading].
    change ((c :: t) ++ NUL :: post) with (c :: (t ++ NUL :: post)).
    rewrite (load_at m b pre _ c z Hb Hz). cbn [bind take_while].
    destruct (is_lead c).
    + replace (pre ++ c :: t ++ NUL :: post)
        with ((pre ++ [c]) ++ t ++ NUL :: post)
        by (rewrite <- app_assoc; reflexivity).
      inversion Hn; subst. simpl in Hf.
      unfold padd. cbn [fst snd].
      rewrite (IH (pre ++ [c]) post fuel (Z.of_nat (length pre) + 1));
        try assumption; try lia.
      * do 2 f_equal. rewrite length_app. simpl. lia.
      * rewrite length_app. simpl. lia.
    + cbn [length]. do 2 f_equal. lia.
Qed.

Lemma back_trim_spec (m : memory) (b : nat) (pre1 : list ascii) (c : ascii) :
  (b < length m)%nat ->
  forall r x fuel z,
  (length r < fuel)%nat -> z = Z.of_nat (length pre1 + length r) ->
  back_trim fuel (set_block m b (pre1 ++ c :: r ++ x))
    (b, Z.of_nat (length pre1)) (b, z)
  = Some (b, Z.of_nat (length pre1 + length (rstrip r))).
Proof.
  intros Hb. induction r as [|d r IH] using rev_ind; intros x fuel z Hf Hz.
  - destruct fuel as [|fuel]; [simpl in Hf; lia|].
    cbn [back_trim fst snd]. simpl in Hz. subst z.
    destruct (Z.ltb_spec (Z.of_nat (length pre1)) (Z.of_nat (length pre1 + 0)));
      [lia|].
    reflexivity.
  - destruct fuel as [|fuel]; [simpl in Hf; lia|].
    rewrite length_app in Hf, Hz. simpl in Hf, Hz.
    cbn [back_trim fst snd].
    destruct (Z.ltb_spec (Z.of_nat (length pre1)) z); [|lia].
    replace (pre1 ++ c :: (r ++ [d]) ++ x) with ((pre1 ++ c :: r) ++ d :: x)
      by (rewrite <- !app_assoc; reflexivity).
    rewrite (load_at m b (pre1 ++ c :: r) x d z Hb)
      by (rewrite length_app; simpl; lia).
    cbn [bind]. rewrite rstrip_snoc.
    destruct (is_trail d).
    + replace ((pre1 ++ c :: r) ++ d :: x) with (pre1 ++ c :: r ++ d :: x)
        by (rewrite <- !app_assoc; reflexivity).
      apply IH; [lia|]. unfold padd. cbn [fst snd]. lia.
    + subst z. do 2 f_equal. rewrite length_app. simpl. lia.
Qed.

Lemma fuel_of_set (m : memory) (b : nat) (buf : buffer) (z : Z) :
  (b < length m)%nat -> fuel_of (set_block m b buf) (b, z) = S (length buf).
Proof.
  intros Hb. unfold fuel_of. cbn [fst]. rewrite block_of_set_same by exact Hb.
  reflexivity.
Qed.

(** The trimming block on a token [t] that starts at offset [|pre|] and is
    terminated: the bytes of the token and its terminator are replaced by
    [E], the pointer returned is past the leading characters, and the C
    string there is [trim_field t]. *)
Lemma trim_token_spec (m : memory) (b : nat) (pre t post : list ascii) (z : Z) :
  (b < length m)%nat -> nonul t -> z = Z.of_nat (length pre) ->
  exists E k,
    trim_token (set_block m b (pre ++ t ++ NUL :: post)) (b, z)
    = Some (set_block m b (pre ++ E ++ post), (b, Z.of_nat (length pre + k)))
    /\ length E = S (length t)
    /\ (k <= length t)%nat
    /\ cstr (skipn k E) = Some (trim_field t).
Proof.
  intros Hb Hn Hz.
  pose proof (take_drop_while is_lead t) as Ht.
  set (lead := take_while is_lead t) in *.
  assert (Hlen : length t
                 = (length lead + length (drop_while is_lead t))%nat).
  { rewrite <- length_app, Ht. reflexivity. }
  assert (Hlead : (length lead <= length t)%nat) by lia.
  unfold trim_token. rewrite fuel_of_set by exact Hb.
  rewrite (skip_leading_spec m b Hb t pre post _ z Hn) by
    (try exact Hz; rewrite !length_app; simpl; lia).
  fold lead. cbn [bind]. clearbody lead.
  assert (Hn' : nonul lead /\ nonul (drop_while is_lead t)).
  { apply nonul_app. rewrite Ht. exact Hn. }
  destruct Hn' as [Hnl Hnd].
  unfold trim_field.
  destruct (drop_while is_lead t) as [|c r] eqn:Hd.
  - (* nothing is left of the token *)
    rewrite app_nil_r in Ht.
    exists (t ++ [NUL]), (length lead).
    replace (pre ++ t ++ NUL :: post) with ((pre ++ lead) ++ [] ++ NUL :: post)
      by (rewrite <- Ht, <- app_assoc; reflexivity).
    rewrite (strlen_app m b (pre ++ lead) [] post) by
      (try exact Hb; try constructor; rewrite length_app; lia).
    cbn [bind length].
    destruct (length ((pre ++ lead) ++ [] ++ NUL :: post)) as [|fuel] eqn:Hfuel.
    { rewrite !length_app in Hfuel. simpl in Hfuel. lia. }
    cbn [back_trim]. unfold padd at 1 2. cbn [fst snd].
    destruct (Z.ltb_spec (Z.of_nat (length pre + length lead))
                (Z.of_nat (length pre + length lead) + (Z.of_nat 0 - 1))); [lia|].
    cbn [bind]. unfold padd. cbn [fst snd app].
    rewrite (store_at m b (pre ++ lead) post NUL NUL) by
      (try exact Hb; rewrite length_app; lia).
    split; [|split; [|split]].
    + cbn [bind]. rewrite <- Ht. rewrite <- !app_assoc. reflexivity.
    + rewrite length_app. simpl. lia.
    + exact Hlead.
    + rewrite <- Ht at 1. rewrite skipn_exact. reflexivity.
  - (* the token keeps its first character *)
    destruct (rstrip_split r) as [junk Hj].
    assert (Hnr : nonul (rstrip r)).
    { apply nonul_rstrip. inversion Hnd; assumption. }
    destruct (junk ++ [NUL]) as [|y B] eqn:HB.
    { destruct junk; discriminate. }
    exists (lead ++ c :: rstrip r ++ NUL :: B), (length lead).
    replace (pre ++ t ++ NUL :: post)
      with ((pre ++ lead) ++ (c :: r) ++ NUL :: post)
      by (rewrite <- Ht, <- !app_assoc; reflexivity).
    rewrite (strlen_app m b (pre ++ lead) (c :: r) post) by
      (try exact Hb; try exact Hnd; rewrite length_app; reflexivity).
    cbn [bind]. unfold padd at 1. cbn [fst snd].
    replace (Z.of_nat (length pre + length lead))
      with (Z.of_nat (length (pre ++ lead))) by (rewrite length_app; reflexivity).
    change ((pre ++ lead) ++ (c :: r) ++ NUL :: post)
      with ((pre ++ lead) ++ c :: r ++ NUL :: post).
    rewrite (back_trim_spec m b (pre ++ lead) c Hb r (NUL :: post)) by
      (rewrite ?length_app; cbn [length]; rewrite ?length_app; cbn [length]; lia).
    cbn [bind]. unfold padd. cbn [fst snd].
    assert (Hbuf : (pre ++ lead) ++ c :: r ++ NUL :: post
                   = ((pre ++ lead) ++ c :: rstrip r) ++ y :: (B ++ post)).
    { rewrite Hj at 1. rewrite <- !app_assoc. cbn [app]. do 3 f_equal.
      f_equal.
      change (junk ++ NUL :: post) with (junk ++ [NUL] ++ post).
      rewrite app_assoc, HB. reflexivity. }
    rewrite Hbuf.
    rewrite (store_at m b ((pre ++ lead) ++ c :: rstrip r) (B ++ post) y NUL) by
      (try exact Hb; rewrite !length_app; simpl; lia).
    assert (HlenB : length B = length junk).
    { apply (f_equal (@length ascii)) in HB. rewrite length_app in HB.
      simpl in HB. lia. }
    assert (Hlenr : length r = (length (rstrip r) + length junk)%nat).
    { rewrite Hj at 1. apply length_app. }
    split; [|split; [|split]].
    + cbn [bind]. rewrite length_app. do 3 f_equal.
      rewrite <- !app_assoc. cbn [app]. rewrite <- !app_assoc. reflexivity.
    + rewrite ?Hd in Hlen. cbn [length] in Hlen.
      rewrite !length_app. cbn [length]. rewrite !length_app. cbn [length]. lia.
    + exact Hlead.
    + rewrite skipn_exact.
      change (c :: rstrip r ++ NUL :: B) with ((c :: rstrip r) ++ NUL :: B).
      apply cstr_nonul. constructor; [inversion Hnd; assumption | exact Hnr].
Qed.


(* ================================================================= *)
(** ** Fields of a line *)

Lemma split_fields_nonempty (inq : bool) (tok rem : list ascii) :
  split_fields inq tok rem <> [].
Proof.
  revert inq tok. induction rem as [|c rem IH]; intros inq tok; simpl.
  - discriminate.
  - destruct (Ascii.eqb c DQUOTE); [apply IH|].
    destruct (Ascii.eqb c COMMA && negb inq); [discriminate | apply IH].
Qed.

Lemma split_fields_nonul (inq : bool) (tok rem : list ascii) :
  nonul tok -> nonul rem -> Forall nonul (split_fields inq tok rem).
Proof.
  revert inq tok. induction rem as [|c rem IH]; intros inq tok Ht Hr; simpl.
  - constructor; [exact Ht | constructor].
  - inversion Hr as [|? ? Hc Hr']; subst.
    assert (Htc : nonul (tok ++ [c])).
    { apply nonul_app. split; [exact Ht | constructor; [exact Hc | constructor]]. }
    destruct (Ascii.eqb c DQUOTE); [apply IH; assumption|].
    destruct (Ascii.eqb c COMMA && negb inq).
    + constructor; [exact Ht | apply IH; [constructor | assumption]].
    + apply IH; assumption.
Qed.

Lemma Forall_last {A : Type} (P : A -> Prop) (l : list A) (d : A) :
  l <> [] -> Forall P l -> P (last l d).
Proof.
  intros Hne H. induction H as [|x l Hx Hl IH]; [congruence|].
  destruct l as [|y l]; [exact Hx|].
  change (P (last (y :: l) d)). apply IH. discriminate.
Qed.

Lemma removelast_cons {A : Type} (x : A) (l : list A) :
  l <> [] -> removelast (x :: l) = x :: removelast l.
Proof. destruct l; [congruence | reflexivity]. Qed.

Lemma last_cons {A : Type} (x d : A) (l : list A) :
  l <> [] -> last (x :: l) d = last l d.
Proof. destruct l; [congruence | reflexivity]. Qed.

(* ================================================================= *)
(** ** Column names held in the buffer *)

(** [p] points into the first bytes [done] of block [b], and the C string
    there is [name], terminator included in [done]. *)
Definition col_at (b : nat) (done : list ascii) (p : ptr) (name : list ascii)
  : Prop :=
  fst p = b /\
  exists k, snd p = Z.of_nat k /\ (k <= length done)%nat
            /\ cstr (skipn k done) = Some name.

Lemma col_at_extend b done x p name :
  col_at b done p name -> col_at b (done ++ x) p name.
Proof.
  intros [Hb [k [Hp [Hk Hc]]]]. split; [exact Hb|].
  exists k. split; [exact Hp|]. split; [rewrite length_app; lia|].
  rewrite skipn_app. replace (k - length done)%nat with 0%nat by lia.
  simpl. apply cstr_app. exact Hc.
Qed.

Lemma col_at_cstring m b done x p name :
  (b < length m)%nat -> col_at b done p name ->
  cstring_at (set_block m b (done ++ x)) p = Some name.
Proof.
  intros Hm [Hb [k [Hp [Hk Hc]]]]. destruct p as [b' z]. simpl in *. subst b' z.
  rewrite <- (firstn_skipn k done), <- app_assoc.
  unfold cstring_at. rewrite (tail_at_app m b _ _ (Z.of_nat k) Hm).
  - apply cstr_app. exact Hc.
  - rewrite length_firstn. lia.
Qed.

Lemma Forall2_col_extend b done x cols names :
  Forall2 (col_at b done) cols names ->
  Forall2 (col_at b (done ++ x)) cols names.
Proof.
  induction 1; constructor; [apply col_at_extend|]; assumption.
Qed.

Definition MAXC : nat := Z.to_nat MAX_COLUMNS.

(* ================================================================= *)
(** ** The header loop *)

Lemma header_loop_spec (m : memory) (b : nat) :
  (b < length m)%nat ->
  forall rem fuel done tok inq cols names post i s,
  nonul tok -> nonul rem -> (length rem < fuel)%nat ->
  i = Z.of_nat (length done + length tok) -> s = Z.of_nat (length done) ->
  Forall2 (col_at b done) cols names ->
  exists done' tl s' cols',
    header_loop fuel (set_block m b (done ++ tok ++ rem ++ NUL :: post))
      (b, 0) i inq s cols
    = Some (set_block m b (done' ++ tl ++ post), s', cols')
    /\ (length (done' ++ tl)
        = length done + length tok + length rem + 1)%nat
    /\ Forall2 (col_at b done') cols'
         (names ++ map trim_field
                     (firstn (MAXC - length cols)
                        (removelast (split_fields inq tok rem))))
    /\ ((length cols' < MAXC)%nat ->
        tl = last (split_fields inq tok rem) [] ++ [NUL]
        /\ s' = Z.of_nat (length done')).
Proof.
  intros Hb.
  induction rem as [|c rem IH];
    intros fuel done tok inq cols names post i s Ht Hr Hf Hi Hs Hcols;
    (destruct fuel as [|fuel]; [simpl in Hf; lia|]); cbn [header_loop].
  - (* the terminator *)
    unfold padd. cbn [fst snd]. rewrite Z.add_0_l.
    replace (done ++ tok ++ [] ++ NUL :: post)
      with ((done ++ tok) ++ NUL :: post) by (rewrite <- app_assoc; reflexivity).
    rewrite (load_at m b (done ++ tok) post NUL i Hb)
      by (rewrite length_app; exact Hi).
    cbn [bind]. rewrite Ascii.eqb_refl. cbn [orb].
    exists done, (tok ++ [NUL]), s, cols.
    split; [|split; [|split]].
    + do 3 f_equal. rewrite <- !app_assoc. reflexivity.
    + rewrite !length_app. cbn [length]. lia.
    + cbn [split_fields removelast]. rewrite firstn_nil. cbn [map].
      rewrite app_nil_r. exact Hcols.
    + intros _. split; [reflexivity | exact Hs].
  - pose proof (Forall_inv Hr) as Hc. pose proof (Forall_inv_tail Hr) as Hr'.
    cbv beta in Hc.
    unfold padd at 1. cbn [fst snd]. rewrite Z.add_0_l.
    replace (done ++ tok ++ (c :: rem) ++ NUL :: post)
      with ((done ++ tok) ++ c :: (rem ++ NUL :: post))
      by (rewrite <- app_assoc; reflexivity).
    rewrite (load_at m b (done ++ tok) _ c i Hb)
      by (rewrite length_app; exact Hi).
    cbn [bind]. rewrite Hc. cbn [orb].
    assert (Htc : nonul (tok ++ [c])).
    { apply nonul_app. split; [exact Ht | constructor; [exact Hc | constructor]]. }
    assert (Hbuf : (done ++ tok) ++ c :: rem ++ NUL :: post
                   = done ++ (tok ++ [c]) ++ rem ++ NUL :: post).
    { rewrite <- !app_assoc. reflexivity. }
    destruct (Z.ltb_spec (Z.of_nat (length cols)) MAX_COLUMNS) as [Hlt|Hge];
      cbn [negb].
    2:{ (* the ceiling is reached *)
      exists done, (tok ++ c :: rem ++ [NUL]), s, cols.
      assert (Hz : (MAXC - length cols = 0)%nat).
      { unfold MAXC, MAX_COLUMNS in *. lia. }
      split; [|split; [|split]].
      - do 3 f_equal. rewrite <- !app_assoc. cbn [app].
        rewrite <- !app_assoc. reflexivity.
      - rewrite !length_app. cbn [length]. rewrite !length_app. cbn [length]. lia.
      - rewrite Hz. cbn [firstn map]. rewrite app_nil_r. exact Hcols.
      - intros H. unfold MAXC, MAX_COLUMNS in *. lia. }
    cbn [split_fields]. simpl in Hf.
    destruct (Ascii.eqb c DQUOTE) eqn:Hq.
    + (* a quote *)
      rewrite Hbuf.
      destruct (IH fuel done (tok ++ [c]) (negb inq) cols names post (i + 1) s)
        as [done' [tl [s' [cols' [H1 [H2 [H3 H4]]]]]]];
        try assumption; try lia.
      { rewrite length_app. cbn [length]. lia. }
      exists done', tl, s', cols'. split; [exact H1|].
      split; [rewrite H2, length_app; cbn [length]; lia|].
      split; assumption.
    + destruct (Ascii.eqb c COMMA && negb inq) eqn:Hd.
      * (* a delimiter *)
        rewrite (store_at m b (done ++ tok) _ c NUL i Hb)
          by (rewrite length_app; exact Hi).
        cbn [bind]. unfold padd. cbn [fst snd]. rewrite Z.add_0_l.
        replace ((done ++ tok) ++ NUL :: rem ++ NUL :: post)
          with (done ++ tok ++ NUL :: (rem ++ NUL :: post))
          by (rewrite <- app_assoc; reflexivity).
        destruct (trim_token_spec m b done tok (rem ++ NUL :: post) s Hb Ht Hs)
          as [E [k [HE [HlenE [Hk HcE]]]]].
        rewrite HE. cbn [bind].
        replace (done ++ E ++ rem ++ NUL :: post)
          with ((done ++ E) ++ [] ++ rem ++ NUL :: post)
          by (rewrite <- app_assoc; reflexivity).
        destruct (IH fuel (done ++ E) [] inq
                    (cols ++ [(b, Z.of_nat (length done + k))])
                    (names ++ [trim_field tok]) post (i + 1) (i + 1))
          as [done' [tl [s' [cols' [H1 [H2 [H3 H4]]]]]]];
          try assumption; try lia.
        { constructor. }
        { rewrite length_app. cbn [length]. lia. }
        { rewrite length_app. lia. }
        { apply Forall2_app.
          - apply Forall2_col_extend. exact Hcols.
          - constructor; [|constructor].
            split; [reflexivity|]. exists (length done + k)%nat.
            cbn [snd]. split; [reflexivity|].
            split; [rewrite length_app; lia|].
            rewrite skipn_app, skipn_all2 by lia.
            replace (length done + k - length done)%nat with k by lia.
            exact HcE. }
        exists done', tl, s', cols'. split; [exact H1|].
        split; [rewrite H2, length_app; cbn [length]; lia|].
        rewrite length_app in H3. cbn [length] in H3.
        pose proof (split_fields_nonempty inq [] rem) as Hne.
        rewrite (removelast_cons _ _ Hne), (last_cons _ _ _ Hne).
        split; [|exact H4].
        assert (HM : (MAXC - length cols = S (MAXC - (length cols + 1)))%nat).
        { unfold MAXC, MAX_COLUMNS in *. lia. }
        rewrite HM. cbn [firstn map].
        rewrite <- app_assoc in H3. exact H3.
      * (* any other character *)
        rewrite Hbuf.
        destruct (IH fuel done (tok ++ [c]) inq cols names post (i + 1) s)
          as [done' [tl [s' [cols' [H1 [H2 [H3 H4]]]]]]];
          try assumption; try lia.
        { rewrite length_app. cbn [length]. lia. }
        exists done', tl, s', cols'. split; [exact H1|].
        split; [rewrite H2, length_app; cbn [length]; lia|].
        split; assumption.
Qed.


(* ================================================================= *)
(** ** The header: loop, last column, lookup *)

Lemma firstn_removelast {A : Type} (n : nat) (l : list A) :
  (n < length l)%nat -> firstn n (removelast l) = firstn n l.
Proof.
  intros H. destruct (exists_last (l := l)) as [l' [x E]].
  { destruct l; [simpl in H; lia | discriminate]. }
  subst l. rewrite removelast_last. rewrite length_app in H. simpl in H.
  rewrite firstn_app. replace (n - length l')%nat with 0%nat by lia.
  simpl. rewrite app_nil_r. reflexivity.
Qed.

Lemma removelast_app_last {A : Type} (l : list A) (d : A) :
  l <> [] -> removelast l ++ [last l d] = l.
Proof. intros H. symmetry. apply app_removelast_last. exact H. Qed.

Lemma length_removelast' {A : Type} (l : list A) :
  length (removelast l) = pred (length l).
Proof.
  destruct l as [|x l0]; [reflexivity|].
  destruct (exists_last (l := x :: l0)) as [l' [y E]]; [discriminate|].
  rewrite E, removelast_last, length_app. simpl. lia.
Qed.

Lemma header_columns_spec (m : memory) (b : nat) (h post : list ascii)
  (fuel : nat) :
  (b < length m)%nat -> nonul h -> (length h < fuel)%nat ->
  exists done tl cols,
    header_columns fuel (set_block m b (h ++ NUL :: post)) (b, 0)
    = Some (set_block m b (done ++ tl ++ post), cols)
    /\ (length (done ++ tl) = length h + 1)%nat
    /\ Forall2 (col_at b done) cols (header_names h).
Proof.
  intros Hb Hn Hf. unfold header_columns.
  destruct (header_loop_spec m b Hb h fuel [] [] false [] [] post 0 0)
    as [done [tl [s [cols [H1 [H2 [H3 H4]]]]]]];
    try assumption; try reflexivity; try constructor.
  cbn [app] in H1. rewrite H1. cbn [bind].
  cbn [app length] in H2, H3. rewrite Nat.sub_0_r in H3.
  fold (csv_fields h) in H3, H4.
  pose proof (split_fields_nonempty false [] h) as Hne.
  fold (csv_fields h) in Hne.
  pose proof (Forall2_length H3) as Hlen.
  rewrite length_map, length_firstn, length_removelast' in Hlen.
  destruct (Z.ltb_spec (Z.of_nat (length cols)) MAX_COLUMNS) as [Hlt|Hge].
  - (* the last column is recorded *)
    destruct H4 as [Htl Hs]; [unfold MAXC, MAX_COLUMNS in *; lia|].
    subst tl s.
    assert (Hnl : nonul (last (csv_fields h) [])).
    { apply Forall_last; [exact Hne|].
      apply split_fields_nonul; [constructor | exact Hn]. }
    unfold padd. cbn [fst snd]. rewrite Z.add_0_l.
    replace (done ++ (last (csv_fields h) [] ++ [NUL]) ++ post)
      with (done ++ last (csv_fields h) [] ++ NUL :: post)
      by (rewrite <- !app_assoc; reflexivity).
    destruct (trim_token_spec m b done (last (csv_fields h) []) post
                (Z.of_nat (length done)) Hb Hnl eq_refl)
      as [E [k [HE [HlenE [Hk HcE]]]]].
    rewrite HE. cbn [bind].
    exists (done ++ E), [], (cols ++ [(b, Z.of_nat (length done + k))]).
    split; [|split].
    + do 3 f_equal. rewrite <- app_assoc. reflexivity.
    + rewrite app_nil_r, length_app, HlenE.
      rewrite !length_app in H2. cbn [length] in H2. lia.
    + unfold header_names. fold MAXC.
      assert (Hall : firstn MAXC (csv_fields h) = csv_fields h).
      { apply firstn_all2. unfold MAXC, MAX_COLUMNS in *. lia. }
      rewrite Hall.
      rewrite <- (removelast_app_last (csv_fields h) [] Hne) at 1.
      rewrite map_app. cbn [map].
      apply Forall2_app.
      * apply Forall2_col_extend.
        rewrite firstn_all2 in H3
          by (rewrite length_removelast'; unfold MAXC, MAX_COLUMNS in *; lia).
        exact H3.
      * constructor; [|constructor].
        split; [reflexivity|]. exists (length done + k)%nat.
        cbn [snd]. split; [reflexivity|].
        split; [rewrite length_app; lia|].
        rewrite skipn_app, skipn_all2 by lia.
        replace (length done + k - length done)%nat with k by lia.
        exact HcE.
  - (* the ceiling was reached in the loop *)
    exists done, tl, cols. split; [reflexivity|]. split; [lia|].
    unfold header_names. fold MAXC.
    rewrite firstn_removelast in H3
      by (unfold MAXC, MAX_COLUMNS in *; lia).
    exact H3.
Qed.

Lemma find_column_spec (m : memory) (b : nat) (done x : list ascii)
  (szColName : list ascii) :
  (b < length m)%nat ->
  forall cols names i,
  Forall2 (col_at b done) cols names ->
  find_column (set_block m b (done ++ x)) cols szColName i
  = Some (index_of szColName names i).
Proof.
  intros Hb cols names i H. revert i.
  induction H as [|p name cols names Hp _ IH]; intros i; simpl.
  - reflexivity.
  - rewrite (col_at_cstring m b done x p name Hb Hp). cbn [bind].
    destruct (list_eqb name szColName); [reflexivity | apply IH].
Qed.

Lemma index_of_range (col : list ascii) (names : list (list ascii)) (i : Z) :
  index_of col names i = -1 \/
  (i <= index_of col names i < i + Z.of_nat (length names)).
Proof.
  revert i. induction names as [|s names IH]; intros i; simpl.
  - left. reflexivity.
  - destruct (list_eqb s col); [right; lia|].
    destruct (IH (i + 1)) as [H|H]; [left; exact H | right; lia].
Qed.

(* ================================================================= *)
(** ** Rows *)

Lemma nolf_nonul_line (l : list ascii) :
  nonul l -> nolf (line_of l) /\ nonul (line_of l).
Proof.
  intros H. split; [apply line_split | apply nonul_line_of; exact H].
Qed.

Lemma skip_rows_spec (m : memory) (b : nat) :
  (b < length m)%nat ->
  forall n pre l z,
  nonul l -> z = Z.of_nat (length pre) ->
  match skip_lines n l with
  | Some r =>
      exists pre', pre ++ l = pre' ++ r /\
        skip_rows (set_block m b (pre ++ l ++ [NUL])) (b, z) n
        = Some (Some (b, Z.of_nat (length pre')))
  | None =>
      skip_rows (set_block m b (pre ++ l ++ [NUL])) (b, z) n = Some None
  end.
Proof.
  intros Hb. induction n as [|n IH]; intros pre l z Hn Hz; cbn [skip_lines skip_rows].
  - exists pre. split; [reflexivity | subst z; reflexivity].
  - destruct (line_split l) as [Hnolf [Hnone Hsome]].
    pose proof (nonul_line_of l Hn) as Hnl.
    destruct (after_line l) as [r|] eqn:Ha.
    + pose proof (Hsome r eq_refl) as El.
      pose proof (nonul_after_line l r Hn Ha) as Hnr.
      assert (Hbuf : pre ++ l ++ [NUL]
                     = pre ++ line_of l ++ LF :: (r ++ [NUL])).
      { rewrite El at 1. rewrite <- !app_assoc. reflexivity. }
      rewrite Hbuf.
      rewrite (strchr_found m b pre (line_of l) _ z Hb Hz Hnolf Hnl).
      cbn [bind]. unfold padd. cbn [fst snd].
      replace (pre ++ line_of l ++ LF :: r ++ [NUL])
        with ((pre ++ line_of l ++ [LF]) ++ r ++ [NUL])
        by (rewrite <- !app_assoc; reflexivity).
      specialize (IH (pre ++ line_of l ++ [LF]) r
                    (Z.of_nat (length pre + length (line_of l)) + 1) Hnr).
      destruct (skip_lines n r) as [r'|].
      * destruct IH as [pre' [E1 E2]].
        { rewrite !length_app. cbn [length]. lia. }
        exists pre'. split; [|exact E2].
        rewrite <- E1, El at 1. rewrite <- !app_assoc. reflexivity.
      * apply IH. rewrite !length_app. cbn [length]. lia.
    + rewrite (Hnone eq_refl).
      replace (pre ++ line_of l ++ [NUL]) with (pre ++ line_of l ++ NUL :: [])
        by reflexivity.
      rewrite (strchr_absent m b pre (line_of l) [] z Hb Hz Hnolf Hnl).
      reflexivity.
Qed.

Lemma last_line_start_line (line r cur prev : list ascii) :
  nolf line ->
  last_line_start (line ++ LF :: r) cur prev = last_line_start r r cur.
Proof.
  induction 1 as [|c line Hc _ IH]; simpl.
  - reflexivity.
  - unfold not_lf in Hc. apply negb_true_iff in Hc. rewrite Hc. exact IH.
Qed.

Lemma last_line_start_end (line cur prev : list ascii) :
  nolf line -> last_line_start line cur prev = prev.
Proof.
  induction 1 as [|c line Hc _ IH]; simpl.
  - reflexivity.
  - unfold not_lf in Hc. apply negb_true_iff in Hc. rewrite Hc. exact IH.
Qed.

Lemma last_row_spec (m : memory) (b : nat) (buf : list ascii) :
  (b < length m)%nat ->
  forall fuel prec lc prep lp zc zp,
  nonul lc -> (length lc < fuel)%nat ->
  buf = prec ++ lc ++ [NUL] -> buf = prep ++ lp ++ [NUL] ->
  zc = Z.of_nat (length prec) -> zp = Z.of_nat (length prep) ->
  exists pre', buf = pre' ++ last_line_start lc lc lp ++ [NUL] /\
    last_row fuel (set_block m b buf) (b, zc) (b, zp)
    = Some (b, Z.of_nat (length pre')).
Proof.
  intros Hb. induction fuel as [|fuel IH];
    intros prec lc prep lp zc zp Hn Hf Hc Hp Hzc Hzp; [lia|].
  destruct (line_split lc) as [Hnolf [Hnone Hsome]].
  pose proof (nonul_line_of lc Hn) as Hnl.
  destruct (after_line lc) as [r|] eqn:Ha.
  - pose proof (Hsome r eq_refl) as El.
    pose proof (nonul_after_line lc r Hn Ha) as Hnr.
    assert (Hbuf : buf = prec ++ line_of lc ++ LF :: (r ++ [NUL])).
    { rewrite Hc. rewrite El at 1. rewrite <- !app_assoc. reflexivity. }
    assert (Hs : strchr (set_block m b buf) (b, zc) LF
                 = Some (Some (b, Z.of_nat (length prec + length (line_of lc))))).
    { rewrite Hbuf. apply strchr_found; assumption. }
    assert (Hlen : length lc = (length (line_of lc) + S (length r))%nat).
    { rewrite El at 1. rewrite length_app. reflexivity. }
    destruct (IH (prec ++ line_of lc ++ [LF]) r prec lc
                (Z.of_nat (length prec + length (line_of lc)) + 1) zc)
      as [pre' [E1 E2]]; try assumption; try lia.
    { rewrite Hbuf, <- !app_assoc. reflexivity. }
    { rewrite !length_app. cbn [length]. lia. }
    exists pre'. split.
    + rewrite El at 1. rewrite (last_line_start_line _ _ _ _ Hnolf). exact E1.
    + cbn [last_row]. rewrite Hs. cbn [bind]. exact E2.
  - pose proof (Hnone eq_refl) as El.
    assert (Hbuf : buf = prec ++ line_of lc ++ NUL :: []).
    { rewrite Hc. rewrite El at 1. reflexivity. }
    assert (Hs : strchr (set_block m b buf) (b, zc) LF = Some None).
    { rewrite Hbuf. apply strchr_absent; assumption. }
    exists prep. split.
    + rewrite El at 1. rewrite (last_line_start_end _ _ _ Hnolf). exact Hp.
    + cbn [last_row]. rewrite Hs. cbn [bind]. subst zp. reflexivity.
Qed.


(* ================================================================= *)
(** ** The row loop *)

Lemma cstring_at_skip (m : memory) (b : nat) (A E X v : list ascii) (k : nat)
  (z : Z) :
  (b < length m)%nat -> (k <= length E)%nat ->
  z = Z.of_nat (length A + k) ->
  cstr (skipn k E) = Some v ->
  cstring_at (set_block m b (A ++ E ++ X)) (b, z) = Some v.
Proof.
  intros Hb Hk Hz Hc. unfold cstring_at.
  rewrite <- (firstn_skipn k E) at 1.
  replace (A ++ (firstn k E ++ skipn k E) ++ X)
    with ((A ++ firstn k E) ++ skipn k E ++ X)
    by (rewrite <- !app_assoc; reflexivity).
  rewrite (tail_at_app m b _ _ z Hb)
    by (rewrite length_app, length_firstn; lia).
  apply cstr_app. exact Hc.
Qed.

Lemma row_loop_spec (m : memory) (b : nat) (pre0 : list ascii) (k : Z) :
  (b < length m)%nat ->
  forall rem fuel done tok inq cur post i s,
  nonul tok -> nonul rem -> (length rem < fuel)%nat ->
  i = Z.of_nat (length done + length tok) -> s = Z.of_nat (length done) ->
  cur <= k ->
  let buf := pre0 ++ done ++ tok ++ rem ++ NUL :: post in
  let F := split_fields inq tok rem in
  let d := Z.to_nat (k - cur) in
  ((d < length F - 1)%nat ->
   exists buf' p,
     row_loop fuel (set_block m b buf) (b, Z.of_nat (length pre0)) k i inq cur s
     = Some (FoundAt (set_block m b buf') p)
     /\ length buf' = length buf
     /\ cstring_at (set_block m b buf') p = Some (trim_field (nth d F [])))
  /\
  ((length F - 1 <= d)%nat ->
   exists done',
     row_loop fuel (set_block m b buf) (b, Z.of_nat (length pre0)) k i inq cur s
     = Some (RowEnd (cur + Z.of_nat (length F - 1)) (Z.of_nat (length done')))
     /\ done ++ tok ++ rem = done' ++ last F []).
Proof.
  intros Hb.
  induction rem as [|c rem IH];
    intros fuel done tok inq cur post i s Ht Hr Hf Hi Hs Hcur buf F d;
    (destruct fuel as [|fuel]; [simpl in Hf; lia|]); cbn [row_loop];
    unfold padd; cbn [fst snd].
  - (* the terminator *)
    subst buf F. clearbody d. cbn [split_fields length Nat.sub].
    replace (pre0 ++ done ++ tok ++ [] ++ NUL :: post)
      with ((pre0 ++ done ++ tok) ++ NUL :: post)
      by (rewrite <- !app_assoc; reflexivity).
    assert (Hload : load (set_block m b ((pre0 ++ done ++ tok) ++ NUL :: post))
                      (b, Z.of_nat (length pre0) + i) = Some NUL).
    { apply load_at; [exact Hb | rewrite !length_app; lia]. }
    rewrite Hload. cbn [bind]. rewrite Ascii.eqb_refl. cbn [orb].
    split; [intros H; lia|]. intros _.
    exists done. split; [|rewrite app_nil_r; reflexivity].
    subst s. replace (cur + Z.of_nat 0) with cur by lia. reflexivity.
  - pose proof (Forall_inv Hr) as Hc. pose proof (Forall_inv_tail Hr) as Hr'.
    cbv beta in Hc.
    assert (Hload : load (set_block m b buf) (b, Z.of_nat (length pre0) + i)
                    = Some c).
    { subst buf.
      replace (pre0 ++ done ++ tok ++ (c :: rem) ++ NUL :: post)
        with ((pre0 ++ done ++ tok) ++ c :: (rem ++ NUL :: post))
        by (rewrite <- !app_assoc; reflexivity).
      apply load_at; [exact Hb | rewrite !length_app; lia]. }
    rewrite Hload. cbn [bind]. rewrite Hc. cbn [orb].
    destruct (Z.leb_spec cur k) as [_|]; [|lia]. cbn [negb].
    assert (Htc : nonul (tok ++ [c])).
    { apply nonul_app. split; [exact Ht | constructor; [exact Hc | constructor]]. }
    assert (Hbuf : buf = pre0 ++ done ++ (tok ++ [c]) ++ rem ++ NUL :: post).
    { subst buf. rewrite <- !app_assoc. reflexivity. }
    simpl in Hf. subst F. cbn [split_fields].
    destruct (Ascii.eqb c DQUOTE) eqn:Hq.
    + (* a quote *)
      rewrite Hbuf.
      destruct (IH fuel done (tok ++ [c]) (negb inq) cur post (i + 1) s)
        as [IH1 IH2]; try assumption; try lia.
      { rewrite length_app. cbn [length]. lia. }
      split; [exact IH1|].
      intros H. destruct (IH2 H) as [done' [E1 E2]].
      exists done'. split; [exact E1|].
      rewrite <- E2, <- !app_assoc. reflexivity.
    + destruct (Ascii.eqb c COMMA && negb inq) eqn:Hd.
      * (* a delimiter *)
        pose proof (split_fields_nonempty inq [] rem) as Hne.
        assert (HF : (1 <= length (split_fields inq [] rem))%nat).
        { destruct (split_fields inq [] rem); [congruence | simpl; lia]. }
        cbn [length].
        destruct (Z.eqb_spec cur k) as [Heq|Hneq].
        -- (* of the target column *)
           split; [|intros H; subst d; lia]. intros _.
           assert (Hd0 : d = 0%nat) by (subst d; lia).
           rewrite Hd0. cbn [nth].
           assert (Hst : store (set_block m b buf)
                           (b, Z.of_nat (length pre0) + i) NUL
                         = Some (set_block m b
                                   ((pre0 ++ done) ++ tok ++ NUL
                                      :: (rem ++ NUL :: post)))).
           { subst buf.
             replace (pre0 ++ done ++ tok ++ (c :: rem) ++ NUL :: post)
               with ((pre0 ++ done ++ tok) ++ c :: (rem ++ NUL :: post))
               by (rewrite <- !app_assoc; reflexivity).
             rewrite (store_at m b (pre0 ++ done ++ tok) _ c NUL
                        (Z.of_nat (length pre0) + i) Hb)
               by (rewrite !length_app; lia).
             do 2 f_equal. rewrite <- !app_assoc. reflexivity. }
           rewrite Hst. cbn [bind]. unfold padd. cbn [fst snd].
           destruct (trim_token_spec m b (pre0 ++ done) tok
                       (rem ++ NUL :: post) (Z.of_nat (length pre0) + s) Hb Ht)
             as [E [k' [HE [HlenE [Hk HcE]]]]].
           { rewrite length_app. lia. }
           rewrite HE. cbn [bind].
           eexists. eexists. split; [reflexivity|]. split.
           ++ subst buf. rewrite !length_app, HlenE. cbn [length].
              rewrite ?length_app. cbn [length]. lia.
           ++ apply (cstring_at_skip m b (pre0 ++ done) E (rem ++ NUL :: post)
                       (trim_field tok) k');
                [exact Hb | lia | reflexivity | exact HcE].
        -- (* of an earlier column *)
           replace buf
             with (pre0 ++ (done ++ tok ++ [c]) ++ [] ++ rem ++ NUL :: post)
             by (subst buf; rewrite <- !app_assoc; reflexivity).
           destruct (IH fuel (done ++ tok ++ [c]) [] inq (cur + 1) post
                       (i + 1) (i + 1))
             as [IH1 IH2]; try assumption; try lia.
           { constructor. }
           { rewrite !length_app. cbn [length]. lia. }
           { rewrite !length_app. cbn [length]. lia. }
           assert (Hd1 : d = S (Z.to_nat (k - (cur + 1)))) by (subst d; lia).
           split.
           ++ intros H. destruct IH1 as [buf' [p [E1 [E2 E3]]]]; [lia|].
              exists buf', p. split; [exact E1|]. split; [exact E2|].
              rewrite Hd1. cbn [nth]. exact E3.
           ++ intros H. destruct IH2 as [done' [E1 E2]]; [lia|].
              exists done'. split.
              ** rewrite E1. do 2 f_equal.
                 replace (length (split_fields inq [] rem) - 0)%nat
                   with (S (length (split_fields inq [] rem) - 1)) by lia.
                 lia.
              ** rewrite (last_cons _ _ _ Hne). rewrite <- E2.
                 rewrite <- !app_assoc. reflexivity.
      * (* any other character *)
        rewrite Hbuf.
        destruct (IH fuel done (tok ++ [c]) inq cur post (i + 1) s)
          as [IH1 IH2]; try assumption; try lia.
        { rewrite length_app. cbn [length]. lia. }
        split; [exact IH1|].
        intros H. destruct (IH2 H) as [done' [E1 E2]].
        exists done'. split; [exact E1|].
        rewrite <- E2, <- !app_assoc. reflexivity.
Qed.


(* ================================================================= *)
(** ** Stores seen from the block *)

Lemma as_set_block (m : memory) (b : nat) (buf : buffer) :
  (b < length m)%nat -> block_of m b = buf -> m = set_block m b buf.
Proof. intros Hb <-. symmetry. apply set_block_self. exact Hb. Qed.

Lemma store_block (m : memory) (b : nat) (l1 l2 : list ascii) (c d : ascii)
  (z : Z) :
  (b < length m)%nat -> block_of m b = l1 ++ c :: l2 ->
  z = Z.of_nat (length l1) ->
  store m (b, z) d = Some (set_block m b (l1 ++ d :: l2)).
Proof.
  intros Hb Hblk Hz. rewrite (as_set_block m b _ Hb Hblk) at 1.
  apply store_at; assumption.
Qed.

Lemma store_in_bounds (m : memory) (b : nat) (z : Z) (c : ascii) :
  (b < length m)%nat -> 0 <= z < Z.of_nat (length (block_of m b)) ->
  exists buf, store m (b, z) c = Some (set_block m b buf)
              /\ length buf = length (block_of m b).
Proof.
  intros Hb Hz.
  destruct (split_at (block_of m b) (Z.to_nat z)) as [l1 [x [l2 [E Hl]]]]; [lia|].
  exists (l1 ++ c :: l2). split.
  - apply (store_block m b l1 l2 x c z Hb E). lia.
  - rewrite E, !length_app. reflexivity.
Qed.

Lemma set_block_comm (m : memory) (b1 b2 : nat) (x y : buffer) :
  (b1 < length m)%nat -> (b2 < length m)%nat -> b1 <> b2 ->
  set_block (set_block m b1 x) b2 y = set_block (set_block m b2 y) b1 x.
Proof.
  intros H1 H2 Hne.
  apply nth_ext with (d := []) (d' := []).
  - rewrite (length_set_block (set_block m b1 x))
      by (rewrite length_set_block; assumption).
    rewrite (length_set_block (set_block m b2 y))
      by (rewrite length_set_block; assumption).
    rewrite !length_set_block by assumption. reflexivity.
  - intros n _. fold (block_of (set_block (set_block m b1 x) b2 y) n).
    fold (block_of (set_block (set_block m b2 y) b1 x) n).
    assert (L1 : (b2 < length (set_block m b1 x))%nat)
      by (rewrite length_set_block; assumption).
    assert (L2 : (b1 < length (set_block m b2 y))%nat)
      by (rewrite length_set_block; assumption).
    destruct (Nat.eq_dec n b1) as [E1|N1]; destruct (Nat.eq_dec n b2) as [E2|N2];
      try subst n.
    + congruence.
    + rewrite block_of_set_other, !block_of_set_same by assumption. reflexivity.
    + rewrite block_of_set_same, block_of_set_other, block_of_set_same
        by assumption. reflexivity.
    + rewrite !block_of_set_other by assumption. reflexivity.
Qed.

Lemma set_block_app_l (m t : memory) (b : nat) (x : buffer) :
  (b < length m)%nat -> set_block (m ++ t) b x = set_block m b x ++ t.
Proof.
  intros Hb. destruct (split_at m b Hb) as [a [c [d [-> <-]]]].
  rewrite <- app_assoc. cbn [app]. rewrite !set_block_app, <- app_assoc.
  reflexivity.
Qed.

Lemma set_block_end (m : memory) (x y : buffer) :
  set_block (m ++ [x]) (length m) y = m ++ [y].
Proof. apply set_block_app. Qed.

Lemma block_of_app_l (m t : memory) (b : nat) :
  (b < length m)%nat -> block_of (m ++ t) b = block_of m b.
Proof. intros Hb. unfold block_of. apply app_nth1. exact Hb. Qed.

Lemma cstring_at_other (m : memory) (b b' : nat) (x : buffer) (z : Z) :
  (b < length m)%nat -> b' <> b ->
  cstring_at (set_block m b x) (b', z) = cstring_at m (b', z).
Proof.
  intros Hb Hne. unfold cstring_at, tail_at. cbn [fst snd].
  rewrite block_of_set_other by assumption. reflexivity.
Qed.

Lemma store_chars_spec (b : nat) :
  forall l m pre old post z,
  (b < length m)%nat -> length old = length l ->
  z = Z.of_nat (length pre) -> block_of m b = pre ++ old ++ post ->
  store_chars m (b, z) l = Some (set_block m b (pre ++ l ++ post)).
Proof.
  induction l as [|c l IH]; intros m pre old post z Hb Hlen Hz Hblk.
  - destruct old; [|discriminate]. cbn [store_chars app] in *.
    rewrite <- Hblk, set_block_self by exact Hb. reflexivity.
  - destruct old as [|o old]; [discriminate|]. cbn [store_chars].
    rewrite (store_block m b pre (old ++ post) o c z Hb Hblk Hz). cbn [bind].
    unfold padd. cbn [fst snd].
    rewrite (IH _ (pre ++ [c]) old post).
    + rewrite set_block_twice by exact Hb. rewrite <- app_assoc. reflexivity.
    + rewrite length_set_block; exact Hb.
    + simpl in Hlen. lia.
    + rewrite length_app. cbn [length]. lia.
    + rewrite block_of_set_same by exact Hb. rewrite <- app_assoc. reflexivity.
Qed.

Lemma tail_at_end (m : memory) (b : nat) (z : Z) :
  Z.of_nat (length (block_of m b)) <= z -> tail_at m (b, z) = [].
Proof.
  intros H. unfold tail_at. cbn [fst snd].
  destruct (z <? 0); [reflexivity|]. apply skipn_all2. lia.
Qed.

Lemma strchr_end (m : memory) (b : nat) (z : Z) (c : ascii) :
  Z.of_nat (length (block_of m b)) <= z -> strchr m (b, z) c = None.
Proof. intros H. unfold strchr. rewrite tail_at_end by exact H. reflexivity. Qed.


(* ================================================================= *)
(** ** The start of the row *)

Lemma skip_lines_nonul (n : nat) :
  forall l r, nonul l -> skip_lines n l = Some r -> nonul r.
Proof.
  induction n as [|n IH]; intros l r Hl H; simpl in H.
  - injection H as <-. exact Hl.
  - destruct (after_line l) as [l'|] eqn:Ha; [|discriminate].
    apply (IH l' r); [|exact H]. apply (nonul_after_line l l' Hl Ha).
Qed.

Lemma last_line_start_nonul (l cur prev : list ascii) :
  nonul l -> nonul cur -> nonul prev -> nonul (last_line_start l cur prev).
Proof.
  revert cur prev. induction l as [|c l IH]; intros cur prev Hl Hc Hp; simpl.
  - exact Hp.
  - pose proof (Forall_inv_tail Hl) as Hl'.
    destruct (Ascii.eqb c LF); apply IH; assumption.
Qed.

Lemma row_suffix_nonul (l r : list ascii) (nRow : Z) :
  nonul l -> row_suffix l nRow = Some r -> nonul r.
Proof.
  intros Hl. unfold row_suffix.
  destruct (0 <=? nRow); [apply skip_lines_nonul; exact Hl|].
  destruct (nRow =? -1); intros H; injection H as <-;
    [apply last_line_start_nonul|]; assumption.
Qed.

Lemma row_start_spec (m : memory) (b : nat) (pre l : list ascii) (fuel : nat)
  (nRow : Z) (z : Z) :
  (b < length m)%nat -> nonul l -> (length l < fuel)%nat ->
  z = Z.of_nat (length pre) ->
  match row_suffix l nRow with
  | Some r =>
      exists pre', pre ++ l = pre' ++ r /\
        row_start fuel (set_block m b (pre ++ l ++ [NUL])) (b, z) nRow
        = Some (Some (b, Z.of_nat (length pre')))
  | None =>
      row_start fuel (set_block m b (pre ++ l ++ [NUL])) (b, z) nRow
      = Some None
  end.
Proof.
  intros Hb Hn Hf Hz. unfold row_suffix, row_start.
  destruct (0 <=? nRow).
  - apply skip_rows_spec; assumption.
  - destruct (nRow =? -1).
    + destruct (last_row_spec m b (pre ++ l ++ [NUL]) Hb fuel pre l pre l z z)
        as [pre' [E1 E2]]; try assumption; try reflexivity.
      exists pre'. split.
      * apply (f_equal (fun x => removelast x)) in E1.
        rewrite !app_assoc, !removelast_last in E1. exact E1.
      * rewrite E2. reflexivity.
    + exists pre. split; [reflexivity | subst z; reflexivity].
Qed.

(* ================================================================= *)
(** ** Copying the value out *)

Section Call.

Variables (M : memory) (bh br : nat) (rpre old' rpost : list ascii) (n : Z).
Hypothesis Hbh : (bh < length M)%nat.
Hypothesis Hbr : (br < length M)%nat.
Hypothesis Hne : br <> bh.
Hypothesis HR : block_of M br = rpre ++ NUL :: old' ++ rpost.
Hypothesis Hn : n = Z.of_nat (S (length old')).

(** The result buffer with the C string [v] written at its start. *)
Definition result_block (v : list ascii) : buffer :=
  rpre ++ v ++ NUL :: skipn (length v) old' ++ rpost.

(** The memory at the return: the result is written, the copy is freed. *)
Definition final_memory (v : list ascii) : memory :=
  set_block (set_block M br (result_block v)) bh [].

Lemma final_norm (X Y : buffer) (v : list ascii) :
  set_block (set_block (set_block M bh X) br (result_block v)) bh Y
  = set_block (set_block M br (result_block v)) bh Y.
Proof.
  rewrite (set_block_comm M bh br) by (try assumption; congruence).
  apply set_block_twice. rewrite length_set_block; assumption.
Qed.

Lemma write_result (bufv v : list ascii) :
  (length v <= length old')%nat ->
  store_chars (set_block M bh bufv) (br, Z.of_nat (length rpre)) (v ++ [NUL])
  = Some (set_block (set_block M bh bufv) br (result_block v)).
Proof.
  intros Hv.
  assert (Hlen : (br < length (set_block M bh bufv))%nat)
    by (rewrite length_set_block; assumption).
  rewrite (store_chars_spec br (v ++ [NUL]) _ rpre
             (firstn (S (length v)) (NUL :: old'))
             (skipn (S (length v)) (NUL :: old') ++ rpost)
             (Z.of_nat (length rpre)) Hlen).
  - unfold result_block. rewrite <- !app_assoc. reflexivity.
  - rewrite length_firstn, length_app. cbn [length]. lia.
  - reflexivity.
  - rewrite block_of_set_other by assumption. rewrite HR. f_equal.
    rewrite app_assoc, firstn_skipn. reflexivity.
Qed.

Lemma copy_value_spec (bufv v0 : list ascii) (p : ptr) (q z0 : Z) (x : ascii) :
  cstring_at (set_block M bh bufv) p = Some v0 ->
  0 <= q < Z.of_nat (length bufv) ->
  copy_value (set_block M bh bufv) p (br, Z.of_nat (length rpre)) n
    (bh, q) x (bh, z0)
  = Some (if Z.of_nat (length v0) <? n then (0, final_memory v0)
          else (-6, final_memory (firstn (Z.to_nat (n - 1)) v0))).
Proof.
  intros Hc Hq. unfold copy_value. rewrite Hc. cbn [bind].
  unfold strncpy_s_truncate.
  destruct (Z.ltb_spec (Z.of_nat (length v0)) n) as [Hlt|Hge].
  - rewrite write_result by lia. cbn [bind].
    change (negb (0 =? 0)) with false. cbv iota.
    destruct (store_in_bounds
                (set_block (set_block M bh bufv) br (result_block v0)) bh q x)
      as [buf' [Hst _]].
    + rewrite !length_set_block; try assumption.
      rewrite length_set_block; assumption.
    + rewrite block_of_set_other, block_of_set_same; try assumption;
        try congruence. rewrite length_set_block; assumption.
    + rewrite Hst. cbn [bind]. unfold free. cbn [fst].
      rewrite set_block_twice
        by (rewrite !length_set_block; try assumption;
            rewrite length_set_block; assumption).
      rewrite final_norm. reflexivity.
  - assert (Hl : length (firstn (Z.to_nat (n - 1)) v0) = Z.to_nat (n - 1)).
    { rewrite length_firstn. lia. }
    rewrite write_result by lia. cbn [bind].
    change (negb (STRUNCATE =? 0)) with true. cbv iota.
    unfold free. cbn [fst]. rewrite final_norm. reflexivity.
Qed.


Lemma row_end_spec (pre' r0 : list ascii) :
  nonul r0 ->
  row_end (set_block M bh (pre' ++ r0 ++ [NUL])) (bh, Z.of_nat (length pre'))
  = Some (bh, Z.of_nat (length pre' + length (line_of r0)))
  /\ exists x post',
       pre' ++ r0 ++ [NUL] = pre' ++ line_of r0 ++ x :: post'.
Proof.
  intros Hn0. unfold row_end.
  destruct (line_split r0) as [Hnolf [Hnone Hsome]].
  pose proof (nonul_line_of r0 Hn0) as Hnl.
  destruct (after_line r0) as [r1|] eqn:Ha.
  - assert (Hbuf : pre' ++ r0 ++ [NUL]
                   = pre' ++ line_of r0 ++ LF :: (r1 ++ [NUL])).
    { rewrite (Hsome r1 eq_refl) at 1. rewrite <- !app_assoc. reflexivity. }
    split; [|exists LF, (r1 ++ [NUL]); exact Hbuf].
    rewrite Hbuf.
    rewrite (strchr_found M bh pre' (line_of r0) _ _ Hbh eq_refl Hnolf Hnl).
    reflexivity.
  - assert (Hbuf : pre' ++ r0 ++ [NUL] = pre' ++ line_of r0 ++ NUL :: []).
    { rewrite (Hnone eq_refl) at 1. reflexivity. }
    split; [|exists NUL, []; exact Hbuf].
    rewrite Hbuf.
    rewrite (strchr_absent M bh pre' (line_of r0) [] _ Hbh eq_refl Hnolf Hnl).
    cbn [bind].
    rewrite (strlen_app M bh pre' (line_of r0) [] _ Hbh eq_refl Hnl).
    cbn [bind]. unfold padd. cbn [fst snd]. do 2 f_equal. lia.
Qed.

Lemma read_row_spec (pre' r0 : list ascii) (fuel : nat) (k z0 : Z) :
  nonul r0 -> (length r0 < fuel)%nat -> 0 <= k ->
  read_row fuel (set_block M bh (pre' ++ r0 ++ [NUL]))
    (bh, Z.of_nat (length pre')) k (br, Z.of_nat (length rpre)) n (bh, z0)
  = Some (let '(code, v) := field_result n (line_of r0) k in
          (code, final_memory v)).
Proof.
  intros Hn0 Hf Hk. unfold read_row.
  destruct (row_end_spec pre' r0 Hn0) as [Hend [x [post' Hbuf]]].
  rewrite Hend. cbn [bind]. rewrite Hbuf.
  set (row := line_of r0) in *.
  assert (Hnr : nonul row) by (apply nonul_line_of; exact Hn0).
  assert (Hlr : (length row <= length r0)%nat).
  { apply (f_equal (@length ascii)) in Hbuf.
    repeat (rewrite length_app in Hbuf; cbn [length] in Hbuf). lia. }
  replace (pre' ++ row ++ x :: post') with ((pre' ++ row) ++ x :: post')
    by (rewrite <- app_assoc; reflexivity).
  rewrite (load_at M bh (pre' ++ row) post' x _ Hbh)
    by (rewrite length_app; reflexivity).
  cbn [bind].
  rewrite (store_at M bh (pre' ++ row) post' x NUL _ Hbh)
    by (rewrite length_app; reflexivity).
  cbn [bind].
  destruct (row_loop_spec M bh pre' k Hbh row fuel [] [] false 0 post' 0 0)
    as [Hfound Hend']; try assumption; try reflexivity; try constructor;
    try lia.
  cbn [app length] in Hfound, Hend'. fold (csv_fields row) in Hfound, Hend'.
  rewrite Z.sub_0_r in Hfound, Hend'.
  replace ((pre' ++ row) ++ NUL :: post') with (pre' ++ row ++ NUL :: post')
    by (rewrite <- app_assoc; reflexivity).
  pose proof (split_fields_nonempty false [] row) as Hne0.
  fold (csv_fields row) in Hne0.
  assert (HF : (1 <= length (csv_fields row))%nat).
  { destruct (csv_fields row); [congruence | simpl; lia]. }
  assert (Hq : 0 <= Z.of_nat (length pre' + length row)
               < Z.of_nat (length (pre' ++ row ++ NUL :: post'))).
  { rewrite !length_app. cbn [length]. lia. }
  unfold field_result.
  destruct (Nat.lt_ge_cases (Z.to_nat k) (length (csv_fields row) - 1))
    as [Hlt|Hge].
  - (* the target column is closed by a delimiter *)
    destruct (Hfound Hlt) as [buf' [p [E1 [E2 E3]]]].
    rewrite E1. cbn [bind].
    rewrite (nth_error_nth' (csv_fields row) [] (n := Z.to_nat k)) by lia.
    rewrite (copy_value_spec buf' _ p _ z0 x E3) by (rewrite E2; exact Hq).
    destruct (Z.of_nat (length (trim_field (nth (Z.to_nat k) (csv_fields row) [])))
              <? n); reflexivity.
  - destruct (Hend' Hge) as [done' [E1 E2]].
    rewrite E1. cbn [bind]. rewrite Z.add_0_l.
    destruct (Z.eqb_spec (Z.of_nat (length (csv_fields row) - 1)) k)
      as [Heq|Hneq].
    + (* the target column is the last field of the row *)
      assert (Hnl : nonul (last (csv_fields row) [])).
      { apply Forall_last; [exact Hne0|].
        apply split_fields_nonul; [constructor | exact Hnr]. }
      unfold padd. cbn [fst snd].
      assert (Hshape : pre' ++ row ++ NUL :: post'
                = (pre' ++ done') ++ last (csv_fields row) [] ++ NUL :: post').
      { rewrite <- !app_assoc. f_equal. rewrite app_assoc, <- E2. reflexivity. }
      rewrite Hshape.
      destruct (trim_token_spec M bh (pre' ++ done')
                  (last (csv_fields row) []) post'
                  (Z.of_nat (length pre') + Z.of_nat (length done')) Hbh Hnl)
        as [E [k' [HE [HlenE [Hk' HcE]]]]].
      { rewrite length_app. lia. }
      rewrite HE. cbn [bind].
      assert (Hnth : nth_error (csv_fields row) (Z.to_nat k)
                     = Some (last (csv_fields row) [])).
      { rewrite <- (removelast_app_last (csv_fields row) [] Hne0) at 1.
        rewrite nth_error_app2 by (rewrite length_removelast'; lia).
        rewrite length_removelast'.
        replace (Z.to_nat k - pred (length (csv_fields row)))%nat with 0%nat
          by lia.
        reflexivity. }
      rewrite Hnth.
      rewrite (copy_value_spec ((pre' ++ done') ++ E ++ post')
                 (trim_field (last (csv_fields row) []))).
      * destruct (Z.of_nat (length (trim_field (last (csv_fields row) []))) <? n);
          reflexivity.
      * apply (cstring_at_skip M bh (pre' ++ done') E post' _ k');
          [exact Hbh | lia | reflexivity | exact HcE].
      * apply (f_equal (@length ascii)) in E2.
        rewrite !length_app in *. cbn [length] in *.
        rewrite HlenE. lia.
    + (* the row is ragged *)
      assert (Hnone : nth_error (csv_fields row) (Z.to_nat k) = None).
      { apply nth_error_None. lia. }
      rewrite Hnone.
      replace (pre' ++ row ++ NUL :: post')
        with ((pre' ++ row) ++ NUL :: post')
        by (rewrite <- app_assoc; reflexivity).
      rewrite (store_at M bh (pre' ++ row) post' NUL x _ Hbh)
        by (rewrite length_app; reflexivity).
      cbn [bind]. unfold free. cbn [fst].
      rewrite set_block_twice by exact Hbh.
      unfold final_memory, result_block. cbn [app length skipn].
      rewrite <- HR, set_block_self by exact Hbr. reflexivity.
Qed.

End Call.


(* ================================================================= *)
(** ** nGetCSVDataByColName is csv_lookup *)

Lemma freed_memory (m : memory) (br : nat) (R1 R : buffer) :
  (br < length m)%nat ->
  set_block (set_block (set_block m br R1 ++ [[]]) br R) (length m) []
  = set_block m br R ++ [[]].
Proof.
  intros Hbr.
  rewrite set_block_app_l by (rewrite length_set_block; exact Hbr).
  rewrite set_block_twice by exact Hbr.
  rewrite <- (length_set_block m br R Hbr) at 1.
  apply set_block_end.
Qed.

Lemma freed_memory' (m : memory) (br : nat) (R1 : buffer) (X : buffer) :
  (br < length m)%nat ->
  set_block (set_block (set_block m br R1 ++ [[]]) (length m) X) (length m) []
  = set_block m br R1 ++ [[]].
Proof.
  intros Hbr.
  rewrite set_block_twice
    by (rewrite length_app, length_set_block by exact Hbr; simpl; lia).
  rewrite <- (length_set_block m br R1 Hbr) at 1.
  apply set_block_end.
Qed.

Lemma split_last_byte (W : list ascii) (k : nat) :
  length W = S k -> exists hd y, W = hd ++ [y] /\ length hd = k.
Proof.
  intros H. destruct (exists_last (l := W)) as [hd [y E]].
  { destruct W; [discriminate | discriminate]. }
  exists hd, y. split; [exact E|].
  rewrite E, length_app in H. simpl in H. lia.
Qed.

Theorem nGetCSVDataByColName_spec (m : memory) (bc : nat) (zc : Z) (br : nat)
  (rpre old rpost : list ascii) (nRow : Z) (col text : list ascii) (n : Z) :
  cstring_at m (bc, zc) = Some text ->
  (br < length m)%nat -> br <> bc ->
  block_of m br = rpre ++ old ++ rpost ->
  n = Z.of_nat (length old) -> 0 < n ->
  nGetCSVDataByColName m (bc, zc) nRow col (br, Z.of_nat (length rpre)) n
  = match csv_lookup n text nRow col with
    | Some (code, v) =>
        Some (code,
              set_block m br
                (rpre ++ v ++ NUL :: skipn (S (length v)) old ++ rpost)
              ++ [[]])
    | None => None
    end.
Proof.
  intros Hc Hbr Hbc Hblk Hn Hpos.
  destruct old as [|o old']; [simpl in Hn; lia|].
  unfold nGetCSVDataByColName.
  destruct (Z.leb_spec n 0) as [|_]; [lia|].
  rewrite (store_block m br rpre (old' ++ rpost) o NUL _ Hbr Hblk eq_refl).
  cbn [bind].
  set (R1 := rpre ++ NUL :: old' ++ rpost).
  set (m1 := set_block m br R1).
  assert (Hlen1 : length m1 = length m) by (apply length_set_block; exact Hbr).
  unfold m1 at 1. rewrite cstring_at_other by (try exact Hbr; congruence).
  rewrite Hc. cbn [bind]. unfold malloc. cbv beta iota zeta.
  set (bh := length m1).
  set (M := m1 ++ [[]]).
  assert (HbhM : (bh < length M)%nat).
  { unfold M, bh. rewrite length_app. simpl. lia. }
  assert (HbrM : (br < length M)%nat).
  { unfold M. rewrite length_app. simpl. lia. }
  assert (Hne : br <> bh) by (unfold bh; lia).
  assert (HRM : block_of M br = R1).
  { unfold M. rewrite block_of_app_l by lia.
    unfold m1. apply block_of_set_same. exact Hbr. }
  assert (Hcopy : store_chars
                    (m1 ++ [repeat NUL (Z.to_nat (Z.of_nat (length text) + 1))])
                    (bh, 0) (text ++ [NUL])
                  = Some (set_block M bh (text ++ [NUL]))).
  { rewrite (store_chars_spec bh (text ++ [NUL]) _ []
               (repeat NUL (Z.to_nat (Z.of_nat (length text) + 1))) [] 0).
    - unfold M, bh. rewrite !set_block_end. cbn [app].
      rewrite app_nil_r. reflexivity.
    - unfold bh. rewrite length_app. simpl. lia.
    - rewrite repeat_length, length_app. simpl. lia.
    - reflexivity.
    - unfold bh. rewrite block_of_app. cbn [app]. rewrite app_nil_r.
      reflexivity. }
  rewrite Hcopy. cbn [bind].
  rewrite (fuel_of_set M bh _ 0 HbhM).
  set (fuel := S (length (text ++ [NUL]))).
  assert (Hfuel : (length text + 1 < fuel)%nat).
  { unfold fuel. rewrite length_app. simpl. lia. }
  pose proof (cstr_inv _ _ Hc) as [Hnt _].
  destruct (line_split text) as [Hnolf [Hnone Hsome]].
  pose proof (nonul_line_of text Hnt) as Hnh.
  set (h := line_of text) in *.
  unfold csv_lookup. fold h.
  set (k := index_of col (header_names h) 0).
  assert (Hlh : (length h <= length text)%nat).
  { unfold h, line_of.
    pose proof (take_drop_while not_lf text) as E.
    apply (f_equal (@length ascii)) in E. rewrite length_app in E. lia. }
  (* the header phase, common to a text with and without a line feed *)
  assert (Hheader :
    forall (x : ascii) (post : list ascii),
    text ++ [NUL] = h ++ x :: post ->
    exists hd,
      length hd = length h /\
      (cOriginalChar <- load (set_block M bh (text ++ [NUL]))
                          (bh, Z.of_nat (length h)) ;;
       m <- store (set_block M bh (text ++ [NUL]))
              (bh, Z.of_nat (length h)) NUL ;;
       '(m, szColumnNames) <- header_columns fuel m (bh, 0) ;;
       nTargetCol <- find_column m szColumnNames col 0 ;;
       m <- store m (bh, Z.of_nat (length h)) cOriginalChar ;;
       Some (nTargetCol, m))
      = Some (k, set_block M bh (hd ++ x :: post))).
  { intros x post Hshape. rewrite Hshape.
    rewrite (load_at M bh h post x _ HbhM eq_refl). cbn [bind].
    rewrite (store_at M bh h post x NUL _ HbhM eq_refl). cbn [bind].
    destruct (header_columns_spec M bh h post fuel HbhM Hnh)
      as [done [tl [cols [H1 [H2 H3]]]]]; [lia|].
    rewrite H1. cbn [bind].
    rewrite (find_column_spec M bh done (tl ++ post) col HbhM cols _ 0 H3).
    cbn [bind]. fold k.
    destruct (split_last_byte (done ++ tl) (length h)) as [hd [y [E Hhd]]];
      [lia|].
    exists hd. split; [exact Hhd|].
    replace (done ++ tl ++ post) with (hd ++ y :: post)
      by (rewrite app_assoc, E, <- app_assoc; reflexivity).
    rewrite (store_at M bh hd post y x _ HbhM) by (rewrite Hhd; reflexivity).
    reflexivity. }
  assert (Hk : k = -1 \/ 0 <= k).
  { destruct (index_of_range col (header_names h) 0) as [E|E];
      [left; exact E | right; unfold k; lia]. }
  destruct (after_line text) as [rest|] eqn:Ha.
  - (* the text has a header line and a rest *)
    pose proof (Hsome rest eq_refl) as Et. fold h in Et.
    pose proof (nonul_after_line text rest Hnt Ha) as Hnrest.
    assert (Hshape : text ++ [NUL] = h ++ LF :: (rest ++ [NUL])).
    { rewrite Et at 1. rewrite <- app_assoc. reflexivity. }
    assert (Hs : strchr (set_block M bh (text ++ [NUL])) (bh, 0) LF
                 = Some (Some (bh, Z.of_nat (length h)))).
    { rewrite Hshape.
      exact (strchr_found M bh [] h (rest ++ [NUL]) 0 HbhM eq_refl Hnolf Hnh). }
    rewrite Hs. cbn [bind].
    destruct (Hheader LF (rest ++ [NUL]) Hshape) as [hd [Hhd Hrun]].
    revert Hrun.
    destruct (load (set_block M bh (text ++ [NUL])) (bh, Z.of_nat (length h)))
      as [c0|]; cbn [bind]; [|discriminate].
    destruct (store (set_block M bh (text ++ [NUL])) (bh, Z.of_nat (length h)) NUL)
      as [ma|]; cbn [bind]; [|discriminate].
    destruct (header_columns fuel ma (bh, 0)) as [[mb cols]|]; cbn [bind];
      [|discriminate].
    destruct (find_column mb cols col 0) as [k0|]; cbn [bind]; [|discriminate].
    destruct (store mb (bh, Z.of_nat (length h)) c0) as [mc|]; cbn [bind];
      [|discriminate].
    intros Hrun. injection Hrun as -> ->.
    destruct (Z.eqb_spec k (-1)) as [Hk1|Hk1].
    + (* the column is not in the header *)
      unfold free. cbn [fst]. unfold M, bh. rewrite Hlen1.
      unfold m1. rewrite freed_memory' by exact Hbr.
      cbn [app length skipn]. reflexivity.
    + destruct Hk as [Hk|Hk]; [contradiction|].
      cbn [bind]. unfold padd. cbn [fst snd]. unfold select_row.
      replace (hd ++ LF :: rest ++ [NUL]) with ((hd ++ [LF]) ++ rest ++ [NUL])
        by (rewrite <- app_assoc; reflexivity).
      pose proof (row_start_spec M bh (hd ++ [LF]) rest fuel nRow
                    (Z.of_nat (length h) + 1) HbhM Hnrest) as Hstart.
      assert (Hlrest : (length rest < fuel)%nat).
      { pose proof (f_equal (@length ascii) Et) as El.
        rewrite length_app in El. cbn [length] in El. lia. }
      specialize (Hstart Hlrest).
      destruct (row_suffix rest nRow) as [r0|] eqn:Hsuf; cbn [option_map].
      * destruct Hstart as [pre' [E1 E2]].
        { rewrite length_app, Hhd. cbn [length]. lia. }
        rewrite E2. cbn [bind].
        replace ((hd ++ [LF]) ++ rest ++ [NUL]) with (pre' ++ r0 ++ [NUL])
          by (rewrite !app_assoc, E1; reflexivity).
        pose proof (row_suffix_nonul rest r0 nRow Hnrest Hsuf) as Hnr0.
        assert (Hlr0 : (length r0 < fuel)%nat).
        { apply (f_equal (@length ascii)) in E1.
          pose proof (f_equal (@length ascii) Et) as El.
          rewrite !length_app in E1. rewrite length_app in El.
          cbn [length] in E1, El. lia. }
        rewrite (read_row_spec M bh br rpre old' rpost n HbhM HbrM Hne HRM
                   ltac:(simpl in Hn; exact Hn) pre' r0 fuel k 0 Hnr0 Hlr0 Hk).
        destruct (field_result n (line_of r0) k) as [code v].
        unfold final_memory, result_block, M, bh. rewrite Hlen1.
        unfold m1. rewrite freed_memory by exact Hbr. reflexivity.
      * rewrite Hstart by (rewrite length_app, Hhd; cbn [length]; lia).
        cbn [bind]. unfold free. cbn [fst]. unfold M, bh. rewrite Hlen1.
        unfold m1. rewrite freed_memory' by exact Hbr.
        cbn [app length skipn]. reflexivity.
  - (* the text has no line feed *)
    pose proof (Hnone eq_refl) as Et. fold h in Et.
    assert (Hshape : text ++ [NUL] = h ++ NUL :: []).
    { rewrite Et at 1. reflexivity. }
    assert (Hs : strchr (set_block M bh (text ++ [NUL])) (bh, 0) LF = Some None).
    { rewrite Hshape.
      exact (strchr_absent M bh [] h [] 0 HbhM eq_refl Hnolf Hnh). }
    rewrite Hs. cbn [bind]. unfold padd at 1 2 3. cbn [fst snd].
    rewrite Z.add_0_l.
    replace (Z.of_nat (length text)) with (Z.of_nat (length h))
      by (f_equal; f_equal; exact (eq_sym Et)).
    destruct (Hheader NUL [] Hshape) as [hd [Hhd Hrun]].
    revert Hrun.
    destruct (load (set_block M bh (text ++ [NUL])) (bh, Z.of_nat (length h)))
      as [c0|]; cbn [bind]; [|discriminate].
    destruct (store (set_block M bh (text ++ [NUL])) (bh, Z.of_nat (length h)) NUL)
      as [ma|]; cbn [bind]; [|discriminate].
    destruct (header_columns fuel ma (bh, 0)) as [[mb cols]|]; cbn [bind];
      [|discriminate].
    destruct (find_column mb cols col 0) as [k0|]; cbn [bind]; [|discriminate].
    destruct (store mb (bh, Z.of_nat (length h)) c0) as [mc|]; cbn [bind];
      [|discriminate].
    intros Hrun. injection Hrun as -> ->.
    destruct (Z.eqb_spec k (-1)) as [Hk1|Hk1].
    + unfold free. cbn [fst]. unfold M, bh. rewrite Hlen1.
      unfold m1. rewrite freed_memory' by exact Hbr.
      cbn [app length skipn]. reflexivity.
    + (* the row would start past the end of the copy *)
      cbn [bind]. unfold padd. cbn [fst snd].
      assert (Hend : forall c,
                strchr (set_block M bh (hd ++ [NUL]))
                  (bh, Z.of_nat (length h) + 1) c = None).
      { intros c. apply strchr_end.
        rewrite block_of_set_same by exact HbhM.
        rewrite length_app, Hhd. cbn [length]. lia. }
      unfold row_start.
      destruct (0 <=? nRow).
      * destruct (Z.to_nat nRow) as [|nr]; cbn [skip_rows bind].
        -- unfold read_row, row_end. rewrite Hend. reflexivity.
        -- rewrite Hend. reflexivity.
      * destruct (nRow =? -1).
        -- unfold fuel. cbn [last_row]. rewrite Hend. reflexivity.
        -- cbn [bind]. unfold read_row, row_end. rewrite Hend. reflexivity.
Qed.


(* ================================================================= *)
(** ** The accessor on a text *)

Lemma nonul_drop_while (f : ascii -> bool) (l : list ascii) :
  nonul l -> nonul (drop_while f l).
Proof.
  induction 1 as [|c l Hc Hl IH]; simpl; [constructor|].
  destruct (f c); [exact IH | constructor; assumption].
Qed.

Lemma nonul_firstn (k : nat) (l : list ascii) : nonul l -> nonul (firstn k l).
Proof.
  intros H. rewrite <- (firstn_skipn k l) in H. apply nonul_app in H. tauto.
Qed.

Lemma nonul_trim_field (tok : list ascii) : nonul tok -> nonul (trim_field tok).
Proof.
  intros H. unfold trim_field.
  pose proof (nonul_drop_while is_lead tok H) as Hd.
  destruct (drop_while is_lead tok) as [|c r]; [constructor|].
  constructor; [exact (Forall_inv Hd)|].
  apply nonul_rstrip. exact (Forall_inv_tail Hd).
Qed.

Lemma field_result_nonul (n : Z) (row : list ascii) (k : Z) :
  nonul row -> nonul (snd (field_result n row k)).
Proof.
  intros H. unfold field_result.
  destruct (nth_error (csv_fields row) (Z.to_nat k)) as [tok|] eqn:E;
    [|constructor].
  assert (Ht : nonul (trim_field tok)).
  { apply nonul_trim_field.
    pose proof (split_fields_nonul false [] row (Forall_nil _) H) as HF.
    rewrite Forall_forall in HF. apply HF.
    apply (nth_error_In _ _ E). }
  destruct (Z.of_nat (length (trim_field tok)) <? n); simpl;
    [exact Ht | apply nonul_firstn; exact Ht].
Qed.

Lemma csv_lookup_nonul (n : Z) (text : list ascii) (nRow : Z)
  (col : list ascii) (code : Z) (v : list ascii) :
  nonul text -> csv_lookup n text nRow col = Some (code, v) -> nonul v.
Proof.
  intros Ht. unfold csv_lookup.
  destruct (index_of col (header_names (line_of text)) 0 =? -1).
  - intros H. injection H as _ <-. constructor.
  - destruct (after_line text) as [rest|] eqn:Ha; cbn [bind]; [|discriminate].
    pose proof (nonul_after_line text rest Ht Ha) as Hr.
    unfold select_row.
    destruct (row_suffix rest nRow) as [r0|] eqn:Hs; cbn [option_map].
    + intros H. injection H as H.
      pose proof (field_result_nonul n (line_of r0)
                    (index_of col (header_names (line_of text)) 0)) as Hf.
      rewrite H in Hf. apply Hf. apply nonul_line_of.
      apply (row_suffix_nonul rest r0 nRow Hr Hs).
    + intros H. injection H as _ <-. constructor.
Qed.

(** On a text without NUL and a result buffer of [nBufSize > 0] bytes, the
    return code and the string left in the result buffer are those of
    [csv_lookup]; the call has no defined result where [csv_lookup] has
    none. *)
Theorem getField_sized_spec (n : Z) (text : list ascii) (row : RowSelector)
  (col : list ascii) :
  nonul text -> 0 < n ->
  getField_sized n text row col = csv_lookup n text (nRow_of row) col.
Proof.
  intros Ht Hn. unfold getField_sized, caller_memory.
  assert (Hc : cstring_at [text ++ [NUL]; repeat NUL (Z.to_nat n)] (0%nat, 0)
               = Some text).
  { unfold cstring_at, tail_at. cbn. apply cstr_nonul. exact Ht. }
  pose proof (nGetCSVDataByColName_spec _ 0 0 1 [] (repeat NUL (Z.to_nat n)) []
                (nRow_of row) col text n Hc) as H.
  cbn [length Z.of_nat] in H. rewrite H; clear H.
  - destruct (csv_lookup n text (nRow_of row) col) as [[code v]|] eqn:E;
      [|reflexivity].
    cbn [bind]. unfold cstring_at, tail_at, set_block, block_of. cbn.
    rewrite (cstr_nonul v _ (csv_lookup_nonul n text _ col code v Ht E)).
    reflexivity.
  - simpl. lia.
  - discriminate.
  - cbn. rewrite app_nil_r. reflexivity.
  - rewrite repeat_length. lia.
  - exact Hn.
Qed.

Corollary getField_spec (text : list ascii) (row : RowSelector)
  (col : list ascii) :
  nonul text ->
  getField text row col = csv_lookup MAX_BUFFER_SIZE text (nRow_of row) col.
Proof.
  intros Ht. apply getField_sized_spec; [exact Ht | reflexivity].
Qed.


(* ================================================================= *)
(** ** Dates *)






Lemma int_of_range (z : Z) : - 2 ^ 31 <= int_of z < 2 ^ 31.
Proof.
  unfold int_of. pose proof (Z.mod_pos_bound (z + 2 ^ 31) (2 ^ 32) eq_refl).
  lia.
Qed.

Lemma int_of_low_bits (z : Z) : int_of z mod 2 ^ 32 = z mod 2 ^ 32.
Proof.
  unfold int_of.
  replace ((z + 2 ^ 31) mod 2 ^ 32 - 2 ^ 31)
    with ((z + 2 ^ 31) mod 2 ^ 32 + (- 2 ^ 31)) by lia.
  rewrite Z.add_mod_idemp_l by lia. f_equal. lia.
Qed.







(* ================================================================= *)
(** ** The first pass: what the matcher keeps *)

(** The latest file so far, after one more candidate. *)
Definition pick (best : option fileDateT) (d : fileDateT) : option fileDateT :=
  match best with
  | None => Some d
  | Some b => if tTimestamp b <? tTimestamp d then Some d else Some b
  end.

Definition latest_of (pData : matcherDataT) : option fileDateT :=
  if bFoundMatch pData then Some (stLatestFile pData) else None.

(** [best] is the first of [cands] with the greatest timestamp. *)
Definition first_latest (cands : list fileDateT) (best : fileDateT) : Prop :=
  exists pre suf,
    cands = pre ++ best :: suf
    /\ (forall x, In x pre -> tTimestamp x < tTimestamp best)
    /\ (forall x, In x suf -> tTimestamp x <= tTimestamp best).

Lemma pick_fold_some (cands : list fileDateT) :
  forall b, exists best,
    fold_left pick cands (Some b) = Some best
    /\ ((best = b /\ forall x, In x cands -> tTimestamp x <= tTimestamp b)
        \/ (tTimestamp b < tTimestamp best /\ first_latest cands best)).
Proof.
  induction cands as [|d cands IH]; intros b; simpl.
  - exists b. split; [reflexivity|]. left. split; [reflexivity|]. intros x [].
  - destruct (Z.ltb_spec (tTimestamp b) (tTimestamp d)) as [Hlt|Hge].
    + destruct (IH d) as [best [E [[-> Hall]|[Hgt [pre [suf [Ec [Hp Hs]]]]]]]].
      * exists d. split; [exact E|]. right. split; [exact Hlt|].
        exists [], cands. split; [reflexivity|]. split; [intros x []|exact Hall].
      * exists best. split; [exact E|]. right. split; [lia|].
        exists (d :: pre), suf. split; [rewrite Ec; reflexivity|].
        split; [|exact Hs].
        intros x [<-|Hx]; [exact Hgt | apply Hp; exact Hx].
    + destruct (IH b) as [best [E [[-> Hall]|[Hgt [pre [suf [Ec [Hp Hs]]]]]]]].
      * exists b. split; [exact E|]. left. split; [reflexivity|].
        intros x [<-|Hx]; [lia | apply Hall; exact Hx].
      * exists best. split; [exact E|]. right. split; [exact Hgt|].
        exists (d :: pre), suf. split; [rewrite Ec; reflexivity|].
        split; [|exact Hs].
        intros x [<-|Hx]; [lia | apply Hp; exact Hx].
Qed.

Lemma pick_fold_first (cands : list fileDateT) :
  cands <> [] ->
  exists best, fold_left pick cands None = Some best /\ first_latest cands best.
Proof.
  destruct cands as [|d cands]; [congruence|]. intros _. simpl.
  destruct (pick_fold_some cands d) as [best [E [[-> Hall]|[Hgt H]]]].
  - exists d. split; [exact E|].
    exists [], cands. split; [reflexivity|]. split; [intros x []|exact Hall].
  - destruct H as [pre [suf [Ec [Hp Hs]]]].
    exists best. split; [exact E|].
    exists (d :: pre), suf. split; [rewrite Ec; reflexivity|].
    split; [|exact Hs].
    intros x [<-|Hx]; [exact Hgt | apply Hp; exact Hx].
Qed.

Section Matcher.

Variable mktime : tmT -> Z.

(** The user data after the matcher has seen one more name. *)
Definition observe (pData : matcherDataT) (szFileName : list ascii)
  : matcherDataT :=
  snd (fst (bLatestBdcDailyMatcher mktime szFileName pData)).

Definition keep (pData : matcherDataT) (best : option fileDateT)
  : matcherDataT :=
  match best with
  | Some d => mkMatcherData (szPrefix pData) d true
  | None => pData
  end.

Lemma matcher_declines (szFileName : list ascii) (pData : matcherDataT) :
  fst (fst (bLatestBdcDailyMatcher mktime szFileName pData)) = false.
Proof.
  unfold bLatestBdcDailyMatcher.
  destruct (negb (strncmp_eq _ _ _)); [reflexivity|].
  destruct (str_from _ _); [|reflexivity].
  destruct (negb (Z.of_nat _ <? _)); [reflexivity|].
  destruct (bParseDate _ _ _) as [[ok d] ev].
  destruct (negb ok); [reflexivity|].
  destruct (negb (bFoundMatch pData) || _); reflexivity.
Qed.

Lemma matcher_events (szFileName : list ascii) (pData : matcherDataT) :
  forallb (fun e => negb (is_extraction_event e))
    (snd (bLatestBdcDailyMatcher mktime szFileName pData)) = true.
Proof.
  unfold bLatestBdcDailyMatcher.
  destruct (negb (strncmp_eq _ _ _)); [reflexivity|].
  destruct (str_from _ _); [|reflexivity].
  destruct (negb (Z.of_nat _ <? _)); [reflexivity|].
  unfold bParseDate.
  destruct (negb (length _ =? 6)%nat); [reflexivity|].
  destruct (negb (components_valid _)); [reflexivity|].
  cbv zeta.
  destruct (tTimestamp _ =? -1); [reflexivity|].
  cbn [negb].
  destruct (negb (bFoundMatch pData) || _); reflexivity.
Qed.

(** One call of the matcher, on the state seen as the latest file so far. *)
Lemma observe_pick (pData : matcherDataT) (szFileName : list ascii) :
  pData = keep pData (latest_of pData) ->
  let best' :=
    match candidate mktime (szPrefix pData) szFileName with
    | Some d => pick (latest_of pData) d
    | None => latest_of pData
    end in
  observe pData szFileName = keep pData best'
  /\ latest_of (observe pData szFileName) = best'.
Proof.
  intros Hk. unfold observe, bLatestBdcDailyMatcher, candidate, date_part.
  destruct (strncmp_eq szFileName (szPrefix pData) (length (szPrefix pData)));
    cbn [negb]; [|split; [exact Hk | reflexivity]].
  destruct (str_from "_" (skipn (length (szPrefix pData)) szFileName))
    as [dp|]; cbn [option_map]; [|split; [exact Hk | reflexivity]].
  destruct (Z.of_nat (length szFileName) <? MAX_PATH_LENGTH);
    cbn [negb]; [|split; [exact Hk | reflexivity]].
  destruct (bParseDate mktime (skipn 1 dp)
              (set_filename zero_fileDate szFileName)) as [[ok d] ev].
  destruct ok; cbn [negb fst snd]; [|split; [exact Hk | reflexivity]].
  unfold latest_of, pick.
  destruct (bFoundMatch pData) eqn:Hf; cbn [negb orb].
  - destruct (tTimestamp (stLatestFile pData) <? tTimestamp d); cbn [fst snd].
    + split; reflexivity.
    + split; [|unfold latest_of; rewrite Hf; reflexivity].
      unfold keep. destruct pData; simpl in *. subst. reflexivity.
  - cbn [fst snd]. split; reflexivity.
Qed.

Lemma keep_keep (pData : matcherDataT) (best : option fileDateT) :
  pData = keep pData (latest_of pData) ->
  keep pData best = keep (keep pData best) (latest_of (keep pData best)).
Proof.
  intros H. destruct best as [d|]; [reflexivity | exact H].
Qed.

Lemma pick_fold_none (cands : list fileDateT) (B : option fileDateT) :
  fold_left pick cands B = None -> B = None.
Proof.
  revert B. induction cands as [|d cands IH]; intros B H; simpl in H.
  - exact H.
  - apply IH in H. destruct B as [b|]; [|reflexivity].
    simpl in H. destruct (tTimestamp b <? tTimestamp d); discriminate.
Qed.

Lemma keep_fold (pData : matcherDataT) (cands : list fileDateT)
  (B : option fileDateT) :
  keep (keep pData B) (fold_left pick cands B)
  = keep pData (fold_left pick cands B).
Proof.
  destruct (fold_left pick cands B) as [b|] eqn:E.
  - destruct B; reflexivity.
  - rewrite (pick_fold_none cands B E). reflexivity.
Qed.

Lemma observe_fold (names : list (list ascii)) :
  forall pData,
  pData = keep pData (latest_of pData) ->
  fold_left observe names pData
  = keep pData (fold_left pick
                  (filter_map (candidate mktime (szPrefix pData)) names)
                  (latest_of pData)).
Proof.
  induction names as [|name names IH]; intros pData Hk;
    cbn [fold_left filter_map].
  - exact Hk.
  - destruct (observe_pick pData name Hk) as [E1 E2]. cbv zeta in E1, E2.
    set (B := match candidate mktime (szPrefix pData) name with
              | Some d => pick (latest_of pData) d
              | None => latest_of pData
              end) in *.
    assert (Hp : szPrefix (observe pData name) = szPrefix pData).
    { rewrite E1. destruct B; reflexivity. }
    rewrite IH by (rewrite E1; apply keep_keep; exact Hk).
    rewrite Hp, E2, E1.
    replace (fold_left pick
               match candidate mktime (szPrefix pData) name with
               | Some y =>
                   y :: filter_map (candidate mktime (szPrefix pData)) names
               | None => filter_map (candidate mktime (szPrefix pData)) names
               end (latest_of pData))
      with (fold_left pick
              (filter_map (candidate mktime (szPrefix pData)) names) B).
    + apply keep_fold.
    + unfold B. destruct (candidate mktime (szPrefix pData) name); reflexivity.
Qed.

End Matcher.


(* ================================================================= *)
(** ** The reader under a matcher that declines every file *)

Definition quiet (log : list event) : Prop :=
  forallb (fun e => negb (is_extraction_event e)) log = true.

Lemma quiet_app (a b : list event) : quiet a -> quiet b -> quiet (a ++ b).
Proof.
  unfold quiet. intros Ha Hb. rewrite forallb_app, Ha, Hb. reflexivity.
Qed.

Section Declining.

Variable U : Type.
Variable szTargetDir : list ascii.
Variable f : matcherT U.
Hypothesis f_declines : forall name u, fst (fst (f name u)) = false.
Hypothesis f_quiet : forall name u, quiet (snd (f name u)).

Definition seen_by (u : U) (name : list ascii) : U := snd (fst (f name u)).

(** A path the reader hands to the matcher by its base name. *)
Definition presented (name : list ascii) : Prop :=
  exists path,
    unsafe_path path = false /\ bIsInDirectory path szTargetDir = true
    /\ name = base_name path /\ name <> [].

Lemma tar_step_sim (gz : gzFile) (u : U) (seen : list (list ascii)) :
  match tar_step szTargetDir (Some recorder) gz seen with
  | None => tar_step szTargetDir (Some f) gz u = None
  | Some (Next gz' seen' _) =>
      exists new ev,
        seen' = seen ++ new /\ Forall presented new
        /\ tar_step szTargetDir (Some f) gz u
           = Some (Next gz' (fold_left seen_by new u) ev)
        /\ quiet ev
  | Some (Exit r seen' _) =>
      exists ev,
        seen' = seen
        /\ tar_step szTargetDir (Some f) gz u = Some (Exit r u ev)
        /\ quiet ev
  end.
Proof.
  unfold tar_step.
  destruct (gzread gz (Z.to_nat TAR_BLOCK_SIZE)) as [[n stHeader] gz1].
  destruct (negb (n =? TAR_BLOCK_SIZE)).
  { destruct (gz_eof gz1); eexists; repeat split; reflexivity. }
  destruct (Ascii.eqb (nth 0 stHeader NUL) NUL).
  { destruct (gzread gz1 (Z.to_nat TAR_BLOCK_SIZE)) as [[? ?] ?].
    eexists; repeat split; reflexivity. }
  destruct (cstr stHeader) as [szName|]; cbn [bind]; [|reflexivity].
  destruct (unsafe_path szName) eqn:Hsafe.
  { destruct (ulParseOctal (skipn OFFSET_SIZE stHeader) SIZE_WIDTH);
      cbn [bind]; [|reflexivity].
    destruct (gzseek gz1 _); cbn [bind]; [|reflexivity].
    exists [], [WarnUnsafePath szName]. rewrite app_nil_r.
    repeat split; try reflexivity. constructor. }
  destruct (ulParseOctal (skipn OFFSET_SIZE stHeader) SIZE_WIDTH) as [sz|];
    cbn [bind]; [|reflexivity].
  destruct ((Ascii.eqb (nth OFFSET_TYPEFLAG stHeader NUL) "0"
             || Ascii.eqb (nth OFFSET_TYPEFLAG stHeader NUL) NUL)
            && bIsInDirectory szName szTargetDir) eqn:Hdir.
  2:{ destruct (gzseek gz1 _); cbn [bind]; [|reflexivity].
      exists [], []. rewrite app_nil_r.
      repeat split; try reflexivity. constructor. }
  destruct (base_name szName) as [|c name] eqn:Hbase.
  { destruct (gzseek gz1 _); cbn [bind]; [|reflexivity].
    exists [], []. rewrite app_nil_r.
    repeat split; try reflexivity. constructor. }
  unfold recorder at 1. cbn [negb].
  pose proof (f_declines (c :: name) u) as Hd.
  pose proof (f_quiet (c :: name) u) as Hq.
  destruct (f (c :: name) u) as [[b u'] ev] eqn:Hf. cbn [fst snd] in Hd, Hq.
  subst b. cbn [negb].
  destruct (gzseek gz1 _); cbn [bind]; [|reflexivity].
  exists [c :: name], ev. repeat split.
  - constructor; [|constructor]. exists szName.
    apply andb_true_iff in Hdir. destruct Hdir as [_ Hdir].
    repeat split; try assumption; try (symmetry; assumption). discriminate.
  - cbn [fold_left]. unfold seen_by. rewrite Hf. reflexivity.
  - exact Hq.
Qed.

Lemma tar_loop_sim :
  forall fuel gz u seen logr log,
  quiet log ->
  match tar_loop szTargetDir (Some recorder) fuel gz seen logr with
  | None => tar_loop szTargetDir (Some f) fuel gz u log = None
  | Some (r, seen', _) =>
      exists new log',
        seen' = seen ++ new /\ Forall presented new
        /\ tar_loop szTargetDir (Some f) fuel gz u log
           = Some (r, fold_left seen_by new u, log')
        /\ quiet log'
  end.
Proof.
  induction fuel as [|fuel IH]; intros gz u seen logr log Hlog;
    cbn [tar_loop]; [reflexivity|].
  pose proof (tar_step_sim gz u seen) as Hstep.
  destruct (tar_step szTargetDir (Some recorder) gz seen) as [[gz' seen' evr|r seen' evr]|];
    cbn [bind].
  - destruct Hstep as [new [ev [-> [Hnew [-> Hq]]]]]. cbn [bind].
    specialize (IH gz' (fold_left seen_by new u) (seen ++ new) (logr ++ evr)
                  (log ++ ev) (quiet_app _ _ Hlog Hq)).
    destruct (tar_loop szTargetDir (Some recorder) fuel gz' (seen ++ new)
                (logr ++ evr)) as [[[r s'] l']|].
    + destruct IH as [new' [log' [-> [Hnew' [E Hq']]]]].
      exists (new ++ new'), log'. rewrite app_assoc.
      split; [reflexivity|]. split; [apply Forall_app; split; assumption|].
      rewrite fold_left_app. split; assumption.
    + exact IH.
  - destruct Hstep as [ev [-> [-> Hq]]]. cbn [bind].
    exists [], (log ++ ev). rewrite app_nil_r.
    repeat split; try reflexivity; [constructor | apply quiet_app; assumption].
  - rewrite Hstep. reflexivity.
Qed.

Lemma declining_run (file : option archiveT) (u : U) :
  match nExtractFromTargzWithCallback szTargetDir (Some recorder) file [] with
  | None => nExtractFromTargzWithCallback szTargetDir (Some f) file u = None
  | Some (r, names, _) =>
      exists log,
        Forall presented names
        /\ nExtractFromTargzWithCallback szTargetDir (Some f) file u
           = Some (r, fold_left seen_by names u, log)
        /\ quiet log
  end.
Proof.
  unfold nExtractFromTargzWithCallback.
  destruct (gzopen file) as [gz|].
  - pose proof (tar_loop_sim (tar_fuel gz) gz u [] [] [] eq_refl) as H.
    destruct (tar_loop szTargetDir (Some recorder) (tar_fuel gz) gz [] [])
      as [[[r names] l]|]; [|exact H].
    destruct H as [new [log' [-> [Hnew [E Hq]]]]].
    exists log'. repeat split; assumption.
  - exists [ErrCannotOpen]. split; [constructor|]. split; reflexivity.
Qed.

End Declining.

(* ================================================================= *)
(** ** Fuel of the main loop *)

Section Fuel.

Variable U : Type.
Variable szTargetDir : list ascii.
Variable pfnMatcher : option (matcherT U).

Lemma gzread_block (gz : gzFile) (n : Z) (bytes : list ascii) (gz1 : gzFile) :
  gzread gz (Z.to_nat TAR_BLOCK_SIZE) = (n, bytes, gz1) ->
  n = TAR_BLOCK_SIZE ->
  gz_data gz1 = gz_data gz /\ gz_pos gz1 = (gz_pos gz + 512)%nat
  /\ (gz_pos gz + 512 <= length (gz_data gz))%nat.
Proof.
  unfold gzread. change (Z.to_nat TAR_BLOCK_SIZE) with 512%nat.
  destruct (Nat.leb_spec 512 (length (skipn (gz_pos gz) (gz_data gz))))
    as [Hle|Hgt].
  - intros H _. injection H as _ _ <-. cbn.
    rewrite length_skipn in Hle. repeat split; try reflexivity; lia.
  - destruct (gz_damaged gz); intros H Hn; injection H as <- _ _;
      unfold TAR_BLOCK_SIZE in Hn; lia.
Qed.

Lemma tar_step_progress (gz gz' : gzFile) (u u' : U) (ev : list event) :
  tar_step szTargetDir pfnMatcher gz u = Some (Next gz' u' ev) ->
  gz_data gz' = gz_data gz
  /\ (gz_pos gz + 512 <= gz_pos gz')%nat
  /\ (gz_pos gz + 512 <= length (gz_data gz))%nat.
Proof.
  unfold tar_step.
  destruct (gzread gz (Z.to_nat TAR_BLOCK_SIZE)) as [[n stHeader] gz1] eqn:Hr.
  destruct (Z.eqb_spec n TAR_BLOCK_SIZE) as [Hn|Hn]; cbn [negb].
  2:{ destruct (gz_eof gz1); discriminate. }
  destruct (gzread_block gz n stHeader gz1 Hr Hn) as [Hd [Hp Hl]].
  assert (Hseek : forall off (u2 u3 : U) e2 e3,
            (g <- gzseek gz1 off ;; Some (Next g u2 e2))
            = Some (Next gz' u3 e3) ->
            gz_data gz' = gz_data gz
            /\ (gz_pos gz + 512 <= gz_pos gz')%nat
            /\ (gz_pos gz + 512 <= length (gz_data gz))%nat).
  { intros off u2 u3 e2 e3. unfold gzseek.
    destruct ((0 <=? off) && (off <=? LONG_MAX)); cbn [bind]; [|discriminate].
    intros H. injection H as <- _ _. cbn.
    repeat split; try assumption. lia. }
  destruct (Ascii.eqb (nth 0 stHeader NUL) NUL).
  { destruct (gzread gz1 (Z.to_nat TAR_BLOCK_SIZE)) as [[? ?] ?]. discriminate. }
  destruct (cstr stHeader) as [szName|]; cbn [bind]; [|discriminate].
  destruct (unsafe_path szName).
  { destruct (ulParseOctal _ _); cbn [bind]; [|discriminate].
    intros H. eapply Hseek. exact H. }
  destruct (ulParseOctal _ _) as [sz|]; cbn [bind]; [|discriminate].
  destruct (_ && bIsInDirectory szName szTargetDir).
  2:{ intros H. eapply Hseek. exact H. }
  destruct (base_name szName) as [|c name].
  { intros H. eapply Hseek. exact H. }
  destruct (match pfnMatcher with Some f => f (c :: name) u | None => _ end)
    as [[b u1] ev1].
  destruct (negb b).
  { intros H. eapply Hseek. exact H. }
  destruct (ulong (sz + 1) =? 0); [discriminate|].
  destruct (read_content _ _ _ _) as [[content gz2|a b0]|]; cbn [bind];
    [|discriminate|discriminate].
  destruct (report_fields content); cbn [bind]; discriminate.
Qed.

(** The loop never stops for want of fuel: past the blocks that are left,
    more fuel changes nothing. *)
Lemma tar_loop_fuel :
  forall fuel gz u log extra,
  (length (gz_data gz) - gz_pos gz < 512 * fuel)%nat ->
  tar_loop szTargetDir pfnMatcher (fuel + extra) gz u log
  = tar_loop szTargetDir pfnMatcher fuel gz u log.
Proof.
  induction fuel as [|fuel IH]; intros gz u log extra Hlen; [lia|].
  cbn [tar_loop Nat.add].
  destruct (tar_step szTargetDir pfnMatcher gz u) as [[gz' u' ev|r u' ev]|] eqn:Hs;
    cbn [bind]; try reflexivity.
  destruct (tar_step_progress gz gz' u u' ev Hs) as [Hd [Hp Hl]].
  apply IH. rewrite Hd. lia.
Qed.


End Fuel.


(* ================================================================= *)
(** * The statements of the specification *)

(* ----------------------------------------------------------------- *)
(** ** C7: ulParseOctal *)

(** C7.  For every buffer [s] that holds the [w] bytes of the field,
    [ulParseOctal] returns a number and never an error: the digits that follow
    the leading spaces and NULs, up to the first byte that is not an octal
    digit or to the end of the field, read in base 8 (modulo 2^32, the width
    of [unsigned long]).  It reads no byte at an index [>= w]: it gives the
    same result on the buffer cut after [w] bytes, where any such read would
    be undefined, and on every buffer with the same first [w] bytes.  A field
    with no digit after the padding gives 0. *)
Theorem ulParseOctal_reads_field (s : buffer) (w : nat) :
  (w <= length s)%nat ->
  ulParseOctal s w = Some (ulong (octal_value (octal_digits (firstn w s))))
  /\ ulParseOctal (firstn w s) w = ulParseOctal s w
  /\ (forall s', firstn w s' = firstn w s ->
                 ulParseOctal s' w = ulParseOctal s w)
  /\ (octal_digits (firstn w s) = [] -> ulParseOctal s w = Some 0)
  /\ (octal_value (octal_digits (firstn w s)) < 2 ^ ULONG_BITS ->
      ulParseOctal s w = Some (octal_value (octal_digits (firstn w s)))).
Proof.
  intros Hw.
  assert (Hcut : forall s', firstn w s' = firstn w s ->
                            ulParseOctal s' w = ulParseOctal s w).
  { intros s' E.
    assert (Hw' : (w <= length s')%nat).
    { apply (f_equal (@length ascii)) in E. rewrite !length_firstn in E. lia. }
    rewrite (ulParseOctal_value s w Hw), (ulParseOctal_value s' w Hw'), E.
    reflexivity. }
  split; [apply ulParseOctal_value; exact Hw|].
  split; [apply Hcut; rewrite firstn_firstn, Nat.min_id; reflexivity|].
  split; [exact Hcut|].
  split.
  - intros E. rewrite (ulParseOctal_value s w Hw), E. reflexivity.
  - intros Hlt. rewrite (ulParseOctal_value s w Hw). f_equal.
    apply ulong_small. split; [|exact Hlt].
    unfold octal_value.
    assert (Hpos : forall l acc, 0 <= acc ->
              Forall (fun c => is_octal c = true) l ->
              0 <= fold_left octal_step l acc).
    { induction l as [|c l IH]; intros acc Ha Hl; simpl; [exact Ha|].
      apply IH; [|exact (Forall_inv_tail Hl)].
      pose proof (Forall_inv Hl) as Hc. cbv beta in Hc.
      unfold is_octal in Hc. apply andb_true_iff in Hc.
      destruct Hc as [Hc _]. apply Z.leb_le in Hc.
      unfold octal_step. lia. }
    apply Hpos; [lia|]. unfold octal_digits. apply take_while_all.
Qed.

Lemma ulParseOctal_reads_field_witness :
  (12 <= length (str "00000000253 "))%nat
  /\ ulParseOctal (str "00000000253 ") 12 = Some 171.
Proof.
  split; [simpl; lia|].
  exact (proj1 (ulParseOctal_reads_field (str "00000000253 ") 12
                  (le_n 12))).
Defined.

(* ----------------------------------------------------------------- *)
(** ** C3: bParseDate *)




(* ----------------------------------------------------------------- *)
(** ** C2: tokens and their trimming *)

(** C2.  The quoted example is read as the specification says: on the text
    of the example, row 0, column [A], the value is [x,y], the comma inside
    the quotes being no field boundary.  But a trailing carriage return is
    not always removed: the backward loop stops at the first character of
    the token, so on a text with CR LF line ends whose last field is empty
    the value returned for that field is the carriage return itself. *)
Theorem trailing_cr_survives_in_empty_field :
  getField csv_quoted (Absolute 0) (str "A") = Some (0, str "x,y")
  /\ getField csv_crlf_empty_last Last (str "B") = Some (0, [CR])
  /\ trim_field [CR] = [CR].
Proof. repeat split; vm_compute; reflexivity. Qed.

(* ----------------------------------------------------------------- *)
(** ** C4: the row taken *)

(** C4.  The round trip of the specification holds, and a row index past
    the lines of the text gives -5.  But with the last row asked for
    ([nRow = -1]) and a text of two rows whose second row has no line feed,
    the row read is the first one: the value of [CycleCount] is 252, not the
    253 of the trailing line. *)
Theorem last_row_misses_unterminated_line :
  getField csv_round_trip Last (str "CycleCount") = Some (0, str "253")
  /\ getField csv_round_trip (Absolute 0) (str "TimeStamp")
     = Some (0, str "2025-05-14 20:15:23")
  /\ getField csv_round_trip (Absolute 2) (str "TimeStamp") = Some (-5, [])
  /\ getField csv_no_final_newline Last (str "CycleCount")
     = Some (0, str "252").
Proof. repeat split; vm_compute; reflexivity. Qed.

(* ----------------------------------------------------------------- *)
(** ** C8: entries with a parent-directory path *)

(** C8.  An entry named [a/../b] whose size field is 37777777777 (octal,
    2^32 - 1 bytes) is warned about and not handed to the matcher, but the
    block count [(ulFileSize + 511) / 512] wraps around in [unsigned long]
    and is 0 where 8388608 blocks hold the data: the stream is left at byte
    512, the first byte of the entry's data, which the next turn reads as a
    header.  On the archive of the example the data names a dated file of
    the target directory; the matcher is given that name and the program
    reports the fields found in it. *)
Theorem unsafe_entry_block_count_wraps :
  ulParseOctal (skipn OFFSET_SIZE huge_unsafe_header) SIZE_WIDTH
  = Some 4294967295
  /\ nBlocks_of 4294967295 = 0
  /\ (4294967295 + TAR_BLOCK_SIZE - 1) / TAR_BLOCK_SIZE = 8388608
  /\ option_map
       (fun s => match s with
                 | Next gz seen log => Some (gz_pos gz, seen, log)
                 | Exit _ _ _ => None
                 end)
       (tar_step TARGET_DIR (Some recorder) huge_unsafe_stream [])
     = Some (Some (512%nat, [], [WarnUnsafePath (str "a/../b")]))
  /\ nExtractFromTargzWithCallback TARGET_DIR (Some recorder)
       (Some huge_unsafe_archive) []
     = Some (0, [str "BDC_Daily_version_2025-05-14_20:30:45.csv"],
             [WarnUnsafePath (str "a/../b")])
  /\ nExtractLatestBdcDailyFile mktime_utc (Some huge_unsafe_archive) TARGET_DIR
     = Some (0, [OutParsing; WarnUnsafePath (str "a/../b");
                 OutLatest (str "BDC_Daily_version_2025-05-14_20:30:45.csv");
                 OutChecking; WarnUnsafePath (str "a/../b");
                 OutReport (str "253") (str "2025-05-14 20:15:23")]).
Proof. repeat split; vm_compute; reflexivity. Qed.

(* ----------------------------------------------------------------- *)
(** ** Columns and their index *)

Lemma index_of_absent (col : list ascii) (names : list (list ascii)) (i : Z) :
  index_of col names i = -1 -> 0 <= i -> ~ In col names.
Proof.
  revert i. induction names as [|s names IH]; intros i H Hi; cbn [index_of In] in *.
  - tauto.
  - unfold list_eqb in H. destruct (list_eq_dec ascii_dec s col) as [E|E].
    + lia.
    + intros [Hin|Hin]; [exact (E Hin)|].
      apply (IH (i + 1)); [exact H | lia | exact Hin].
Qed.

Lemma index_of_present (col : list ascii) (names : list (list ascii)) (i : Z) :
  index_of col names i <> -1 -> In col names.
Proof.
  revert i. induction names as [|s names IH]; intros i H; cbn [index_of In] in *.
  - congruence.
  - unfold list_eqb in H. destruct (list_eq_dec ascii_dec s col) as [E|E].
    + left. exact E.
    + right. exact (IH _ H).
Qed.

Lemma index_of_nth (col : list ascii) (names : list (list ascii)) (i : Z) :
  index_of col names i <> -1 ->
  nth_error names (Z.to_nat (index_of col names i - i)) = Some col.
Proof.
  revert i. induction names as [|s names IH]; intros i H; cbn [index_of] in *.
  - congruence.
  - unfold list_eqb in *. destruct (list_eq_dec ascii_dec s col) as [E|E].
    + rewrite Z.sub_diag. cbn. rewrite E. reflexivity.
    + specialize (IH (i + 1) H).
      destruct (index_of_range col names (i + 1)) as [R|R]; [congruence|].
      replace (Z.to_nat (index_of col names (i + 1) - i))
        with (S (Z.to_nat (index_of col names (i + 1) - (i + 1)))) by lia.
      exact IH.
Qed.

Lemma line_of_line (h r : list ascii) : nolf h -> line_of (h ++ LF :: r) = h.
Proof.
  intros H. unfold line_of. rewrite (take_while_app not_lf h _ H).
  cbn. apply app_nil_r.
Qed.

Lemma after_line_line (h r : list ascii) :
  nolf h -> after_line (h ++ LF :: r) = Some r.
Proof.
  intros H. unfold after_line. rewrite (drop_while_app not_lf h _ H).
  reflexivity.
Qed.

(* ----------------------------------------------------------------- *)
(** ** C10: a header and no row *)

(** C10.  On a text that is a header line and its line feed, with no row
    after it, the last row asked for is the empty text after the header:
    for the first column of the header the call succeeds with the empty
    string (it does not fail with -5, row not found), and for a column
    further right it fails with -4, the code of a column missing in the
    row. *)
Theorem header_only_last_row (h col : list ascii) (n : Z) :
  nonul h -> nolf h -> 0 < n ->
  let k := index_of col (header_names h) 0 in
  (k = 0 -> getField_sized n (h ++ [LF]) Last col = Some (0, []))
  /\ (0 < k -> getField_sized n (h ++ [LF]) Last col = Some (-4, [])).
Proof.
  intros Hz Hl Hn k.
  assert (Ht : nonul (h ++ [LF])).
  { apply nonul_app. split; [exact Hz|]. constructor; [reflexivity|constructor]. }
  rewrite (getField_sized_spec n (h ++ [LF]) Last col Ht Hn).
  unfold csv_lookup. rewrite (line_of_line h [] Hl), (after_line_line h [] Hl).
  fold k. cbn [bind nRow_of select_row row_suffix last_line_start option_map
                 line_of take_while Z.leb Z.eqb Z.compare Pos.eqb].
  unfold field_result. cbn [csv_fields split_fields].
  split; intros Hk.
  - rewrite Hk. cbn. destruct (Z.ltb_spec 0 n); [reflexivity | lia].
  - destruct (Z.eqb_spec k (-1)); [lia|].
    destruct (Z.to_nat k) as [|j] eqn:Ej; [lia|].
    cbn. destruct j; reflexivity.
Qed.

Lemma header_only_last_row_witness :
  getField_sized 16 (str "A,B" ++ [LF]) Last (str "A") = Some (0, [])
  /\ getField_sized 16 (str "A,B" ++ [LF]) Last (str "B") = Some (-4, []).
Proof.
  assert (Hz : nonul (str "A,B")) by (repeat constructor).
  assert (Hl : nolf (str "A,B")) by (repeat constructor).
  split.
  - exact (proj1 (header_only_last_row (str "A,B") (str "A") 16 Hz Hl eq_refl)
             eq_refl).
  - exact (proj2 (header_only_last_row (str "A,B") (str "B") 16 Hz Hl eq_refl)
             eq_refl).
Defined.

(* ----------------------------------------------------------------- *)
(** ** C5: a short row and an absent column *)

(** C5, as stated, fails: on the text of a header [A,B] and the row [x],
    the column [B], which the row does not have, gives -4, and the column
    [C], which the header does not have, gives -3: two different codes. *)
Lemma ragged_row_and_absent_column_differ :
  getField csv_ragged (Absolute 0) (str "B") = Some (-4, [])
  /\ getField csv_ragged (Absolute 0) (str "C") = Some (-3, []).
Proof. split; vm_compute; reflexivity. Qed.

(** C5, amended.  The two failures have codes of their own.  The call
    returns -3 exactly when the column name is none of the (first 256)
    names of the header line; it returns -4 exactly when the name is in the
    header at index [k], the row asked for exists, and that row has [k]
    fields or fewer.  In both cases the result buffer holds the empty
    string. *)
Theorem ragged_row_code_is_not_absent_column_code
  (n : Z) (text : list ascii) (row : RowSelector) (col : list ascii)
  (code : Z) (v : list ascii) :
  nonul text -> 0 < n ->
  getField_sized n text row col = Some (code, v) ->
  let names := header_names (line_of text) in
  let k := index_of col names 0 in
  (code = -3 <-> ~ In col names)
  /\ (code = -4 <->
      In col names
      /\ exists rest r,
           after_line text = Some rest
           /\ select_row rest (nRow_of row) = Some r
           /\ (length (csv_fields r) <= Z.to_nat k)%nat)
  /\ (code = -3 \/ code = -4 -> v = []).
Proof.
  intros Ht Hn Hrun names k.
  rewrite (getField_sized_spec n text row col Ht Hn) in Hrun.
  unfold csv_lookup in Hrun. fold names k in Hrun.
  destruct (Z.eqb_spec k (-1)) as [Hk|Hk].
  - injection Hrun as <- <-.
    pose proof (index_of_absent col names 0 Hk (Z.le_refl 0)) as Hno.
    split; [tauto|]. split; [|reflexivity].
    split; [discriminate | intros [Hin _]; contradiction].
  - pose proof (index_of_present col names 0 Hk) as Hin.
    destruct (after_line text) as [rest|]; cbn [bind] in Hrun; [|discriminate].
    destruct (select_row rest (nRow_of row)) as [r|] eqn:Hrow.
    + injection Hrun as Hrun. unfold field_result in Hrun.
      destruct (nth_error (csv_fields r) (Z.to_nat k)) as [tok|] eqn:Hnth.
      * assert (Hlt : (Z.to_nat k < length (csv_fields r))%nat).
        { apply nth_error_Some. congruence. }
        assert (Hcode : code = 0 \/ code = -6).
        { destruct (Z.of_nat (length (trim_field tok)) <? n);
            injection Hrun as <- _; [left | right]; reflexivity. }
        split; [split; [lia | tauto]|]. split; [|lia].
        split; [lia|]. intros [_ [rest' [r' [E1 [E2 Hle]]]]].
        injection E1 as <-. rewrite Hrow in E2. injection E2 as <-. lia.
      * injection Hrun as <- <-.
        apply nth_error_None in Hnth.
        split; [split; [discriminate | tauto]|]. split; [|reflexivity].
        split; [|reflexivity]. intros _. split; [exact Hin|].
        exists rest, r. repeat split; [exact Hrow | exact Hnth].
    + injection Hrun as <- <-.
      split; [split; [discriminate | tauto]|]. split; [|lia].
      split; [discriminate|]. intros [_ [rest' [r' [E1 [E2 _]]]]].
      injection E1 as <-. rewrite Hrow in E2. discriminate.
Qed.

Lemma ragged_row_code_is_not_absent_column_code_witness :
  (-4 = -3 <-> ~ In (str "B") (header_names (line_of csv_ragged)))
  /\ (-4 = -4 <->
      In (str "B") (header_names (line_of csv_ragged))
      /\ exists rest r,
           after_line csv_ragged = Some rest
           /\ select_row rest 0 = Some r
           /\ (length (csv_fields r)
               <= Z.to_nat (index_of (str "B")
                              (header_names (line_of csv_ragged)) 0))%nat)
  /\ (-4 = -3 \/ -4 = -4 -> @nil ascii = []).
Proof.
  assert (Hz : nonul csv_ragged) by (repeat constructor).
  exact (ragged_row_code_is_not_absent_column_code 1024 csv_ragged (Absolute 0)
           (str "B") (-4) [] Hz eq_refl eq_refl).
Defined.

Lemma nonul_check (l : list ascii) :
  forallb (fun c => negb (Ascii.eqb c NUL)) l = true -> nonul l.
Proof.
  intros H. apply Forall_forall. intros c Hc.
  apply negb_true_iff. revert c Hc. apply forallb_forall. exact H.
Qed.

Lemma not_in_check (col : list ascii) (names : list (list ascii)) :
  forallb (fun s => negb (list_eqb s col)) names = true -> ~ In col names.
Proof.
  intros H Hin. rewrite forallb_forall in H. specialize (H col Hin).
  unfold list_eqb in H. destruct (list_eq_dec ascii_dec col col); 
    [discriminate | congruence].
Qed.

Lemma index_of_found (col : list ascii) (names : list (list ascii)) (i : Z) :
  In col names -> 0 <= i -> index_of col names i <> -1.
Proof.
  revert i. induction names as [|s names IH]; intros i Hin Hi;
    cbn [index_of In] in *; [tauto|].
  unfold list_eqb. destruct (list_eq_dec ascii_dec s col) as [E|E]; [lia|].
  destruct Hin as [Hin|Hin]; [contradiction|]. apply IH; [exact Hin | lia].
Qed.

(* ----------------------------------------------------------------- *)
(** ** C6: a header of more than 256 columns *)

(** C6, as stated, fails: there is no error for too many columns.  On a
    text whose header has 257 columns (256 named [a], then [z]) and one row
    [7], the column [a] is read with success, and the column [z], the 257th
    one, is reported as a name that is not found (-3). *)
Lemma wide_header_is_accepted :
  length (csv_fields (line_of wide_csv)) = 257%nat
  /\ getField wide_csv Last (str "a") = Some (0, str "7")
  /\ getField wide_csv Last (str "z") = Some (-3, []).
Proof. repeat split; vm_compute; reflexivity. Qed.

(** C6, amended.  When the header line has more than 256 columns, the
    columns after the 256th are dropped without an error: a name that is
    not among the first 256 gives -3 (column name not found), a name among
    them is looked up at its first index there, as on any other text, and
    the return code is never another than 0, -3, -4, -5 or -6. *)
Theorem columns_past_the_ceiling_are_dropped
  (n : Z) (text : list ascii) (row : RowSelector) (col : list ascii) :
  nonul text -> 0 < n ->
  (Z.to_nat MAX_COLUMNS < length (csv_fields (line_of text)))%nat ->
  let names :=
    map trim_field (firstn (Z.to_nat MAX_COLUMNS) (csv_fields (line_of text))) in
  (~ In col names -> getField_sized n text row col = Some (-3, []))
  /\ (In col names ->
      exists k,
        0 <= k < MAX_COLUMNS
        /\ nth_error names (Z.to_nat k) = Some col
        /\ getField_sized n text row col
           = (rest <- after_line text ;;
              Some (match select_row rest (nRow_of row) with
                    | None => (-5, [])
                    | Some r => field_result n r k
                    end)))
  /\ (forall code v,
        getField_sized n text row col = Some (code, v) ->
        In code [0; -3; -4; -5; -6]).
Proof.
  intros Ht Hn Hwide names.
  rewrite (getField_sized_spec n text row col Ht Hn).
  unfold csv_lookup. fold (header_names (line_of text)).
  change (header_names (line_of text)) with names.
  assert (Hlen : length names = Z.to_nat MAX_COLUMNS).
  { unfold names. rewrite length_map, length_firstn. lia. }
  split; [|split].
  - intros Hno. destruct (Z.eqb_spec (index_of col names 0) (-1)) as [E|E];
      [reflexivity|].
    elim Hno. exact (index_of_present col names 0 E).
  - intros Hin. exists (index_of col names 0).
    pose proof (index_of_found col names 0 Hin (Z.le_refl 0)) as Hk.
    destruct (index_of_range col names 0) as [R|R]; [contradiction|].
    split; [unfold MAX_COLUMNS in *; lia|].
    split.
    + pose proof (index_of_nth col names 0 Hk) as Hnth.
      rewrite Z.sub_0_r in Hnth. exact Hnth.
    + destruct (Z.eqb_spec (index_of col names 0) (-1)); [contradiction|].
      destruct (after_line text); cbn [bind]; [|reflexivity].
      destruct (select_row _ _); reflexivity.
  - intros code v.
    destruct (index_of col names 0 =? -1).
    { intros H. injection H as <- _. cbn. tauto. }
    destruct (after_line text) as [rest|]; cbn [bind]; [|discriminate].
    destruct (select_row rest (nRow_of row)) as [r|].
    + unfold field_result.
      destruct (nth_error (csv_fields r) _) as [tok|].
      * destruct (_ <? n); intros H; injection H as <- _; cbn; tauto.
      * intros H; injection H as <- _; cbn; tauto.
    + intros H; injection H as <- _; cbn; tauto.
Qed.

Lemma columns_past_the_ceiling_are_dropped_witness :
  getField_sized 16 wide_csv Last (str "z") = Some (-3, []).
Proof.
  assert (Hz : nonul wide_csv) by (apply nonul_check; vm_compute; reflexivity).
  assert (Hw : (Z.to_nat MAX_COLUMNS < length (csv_fields (line_of wide_csv)))%nat)
    by (vm_compute; apply le_n).
  refine (proj1 (columns_past_the_ceiling_are_dropped 16 wide_csv Last (str "z")
                   Hz eq_refl Hw) _).
  apply not_in_check. vm_compute. reflexivity.
Defined.

(* ----------------------------------------------------------------- *)
(** ** C9: the caller's text is not written *)

Lemma block_of_freed_end (m : memory) (b : nat) :
  block_of (m ++ [[]]) b = block_of m b.
Proof.
  unfold block_of. destruct (Nat.lt_ge_cases b (length m)) as [Hlt|Hge].
  - apply app_nth1. exact Hlt.
  - rewrite app_nth2 by exact Hge. rewrite (nth_overflow m) by exact Hge.
    destruct (b - length m)%nat as [|[|k]]; reflexivity.
Qed.

(** Every call that has a result leaves the blocks of the caller as they
    were, the block of the result buffer apart. *)
Lemma nGetCSVDataByColName_frame
  (m m' : memory) (szCsvBuffer szResult : ptr) (nRow : Z)
  (szColName rpre old rpost : list ascii) (nBufSize ret : Z) :
  (fst szResult < length m)%nat -> fst szResult <> fst szCsvBuffer ->
  block_of m (fst szResult) = rpre ++ old ++ rpost ->
  snd szResult = Z.of_nat (length rpre) ->
  nBufSize = Z.of_nat (length old) ->
  nGetCSVDataByColName m szCsvBuffer nRow szColName szResult nBufSize
  = Some (ret, m') ->
  forall b, b <> fst szResult -> block_of m' b = block_of m b.
Proof.
  destruct szCsvBuffer as [bc zc], szResult as [br zr]. cbn [fst snd].
  intros Hbr Hne Hblk Hzr Hn Hrun.
  destruct (Z.leb_spec nBufSize 0) as [Hle|Hpos].
  - unfold nGetCSVDataByColName in Hrun.
    destruct (Z.leb_spec nBufSize 0); [|lia].
    injection Hrun as _ <-. reflexivity.
  - assert (Hc : exists text, cstring_at m (bc, zc) = Some text).
    { unfold nGetCSVDataByColName in Hrun.
      destruct (Z.leb_spec nBufSize 0); [lia|].
      destruct old as [|c old']; [cbn in Hn; lia|].
      rewrite (store_block m br rpre (old' ++ rpost) c NUL zr Hbr Hblk Hzr)
        in Hrun.
      cbn [bind] in Hrun.
      rewrite (cstring_at_other m br bc _ zc Hbr (not_eq_sym Hne)) in Hrun.
      destruct (cstring_at m (bc, zc)) as [text|]; [|discriminate].
      exists text. reflexivity. }
    destruct Hc as [text Hc]. subst zr.
    rewrite (nGetCSVDataByColName_spec m bc zc br rpre old rpost nRow
               szColName text nBufSize Hc Hbr Hne Hblk Hn Hpos) in Hrun.
    destruct (csv_lookup nBufSize text nRow szColName) as [[code v]|];
      [|discriminate].
    injection Hrun as _ <-. intros b Hbne.
    rewrite block_of_freed_end.
    apply block_of_set_other; assumption.
Qed.

(** C9.  The copy is made (lines 154-164), but not every write of the call
    falls inside it.  On the text [A,B], which has no line feed, with the
    column [A]: the copy is a block of four bytes, [strchr] finds no line
    feed in it, so [pHeaderEnd] is the address of its NUL (line 177) and the
    row cursor [pHeaderEnd + 1] of line 258 is the address after the last
    byte of the copy.  The read of line 294 and the write [*pRowEnd = 0] of
    line 302 are made from there, outside the copy: they have no result
    here, and so has the call, for each kind of row index.  With a column
    that the header does not hold the call returns -3 before line 258, and
    with a line feed after the header the same call stays inside the copy
    and leaves the text of the caller as it was. *)
Theorem row_cursor_leaves_the_copy_without_line_feed :
  let m0 := caller_memory (str "A,B") 8 in
  let copy : ptr := (2%nat, 0) in
  let m := m0 ++ [str "A,B" ++ [NUL]] in
  (m1 <- store m0 (1%nat, 0) NUL ;;
   let '(p, m2) := malloc m1 4 in
   m3 <- store_chars m2 p (str "A,B" ++ [NUL]) ;; Some (p, m3))
  = Some (copy, m)
  /\ strchr m copy LF = Some None
  /\ padd (padd copy 3) 1 = (2%nat, Z.of_nat (length (block_of m 2)))
  /\ load m (padd (padd copy 3) 1) = None
  /\ store m (padd (padd copy 3) 1) NUL = None
  /\ nGetCSVDataByColName m0 (0%nat, 0) 0 (str "A") (1%nat, 0) 8 = None
  /\ nGetCSVDataByColName m0 (0%nat, 0) 1 (str "A") (1%nat, 0) 8 = None
  /\ nGetCSVDataByColName m0 (0%nat, 0) (-1) (str "B") (1%nat, 0) 8 = None
  /\ nGetCSVDataByColName m0 (0%nat, 0) 0 (str "C") (1%nat, 0) 8
     = Some (-3, m0 ++ [[]])
  /\ nGetCSVDataByColName (caller_memory (str "A,B" ++ [LF]) 8) (0%nat, 0) 0
       (str "A") (1%nat, 0) 8
     = Some (0, caller_memory (str "A,B" ++ [LF]) 8 ++ [[]]).
Proof. repeat split; vm_compute; reflexivity. Qed.

(* ----------------------------------------------------------------- *)
(** ** C1: the first pass *)

Lemma filter_map_In {A B : Type} (f : A -> option B) (l : list A) (y : B) :
  In y (filter_map f l) -> exists x, In x l /\ f x = Some y.
Proof.
  induction l as [|a l IH]; cbn [filter_map]; [intros []|].
  destruct (f a) as [b|] eqn:E.
  - intros [<-|H].
    + exists a. split; [left; reflexivity | exact E].
    + destruct (IH H) as [x [Hx Hf]]. exists x. split; [right|]; assumption.
  - intros H. destruct (IH H) as [x [Hx Hf]]. exists x.
    split; [right|]; assumption.
Qed.

Lemma bParseDate_filename (mktime : tmT -> Z) (s : list ascii) (p : fileDateT) :
  szFilename (snd (fst (bParseDate mktime s p))) = szFilename p.
Proof.
  unfold bParseDate.
  destruct (negb (length _ =? 6)%nat); [reflexivity|].
  destruct (negb (components_valid _)); [reflexivity|].
  cbv zeta. destruct (tTimestamp _ =? -1); reflexivity.
Qed.

Lemma candidate_filename (mktime : tmT -> Z) (prefix name : list ascii)
  (d : fileDateT) :
  candidate mktime prefix name = Some d -> szFilename d = name.
Proof.
  unfold candidate. destruct (date_part prefix name) as [part|]; [|discriminate].
  destruct (Z.of_nat (length name) <? MAX_PATH_LENGTH); [|discriminate].
  pose proof (bParseDate_filename mktime part (set_filename zero_fileDate name))
    as H.
  destruct (bParseDate mktime part (set_filename zero_fileDate name))
    as [[ok d'] ev].
  cbn [fst snd] in H. destruct ok; [|discriminate].
  intros E. injection E as <-. exact H.
Qed.

Lemma first_latest_In (cands : list fileDateT) (best : fileDateT) :
  first_latest cands best -> In best cands.
Proof.
  intros [pre [suf [-> _]]]. apply in_or_app. right. left. reflexivity.
Qed.

(** C1.  Let [names] be the base names the reader hands to its matcher on
    an archive, in the order of the archive (the names of the regular files
    under the target directory), and let the candidates be those names that
    have the prefix and whose date is parsed.  The first pass hands the same
    names to [bLatestBdcDailyMatcher] and extracts nothing.  If there is a
    candidate, the pass ends with the match flag set and the record of the
    first candidate of greatest timestamp (every earlier candidate is
    strictly older, every later one is not newer), whose filename is one of
    the names; names that are no candidates change nothing and do not end
    the scan.  If there is no candidate, the flag stays down and the whole
    operation extracts nothing and fails: with -1 and the message of no
    matching file when the pass itself returned 0. *)
Theorem first_pass_keeps_first_latest (mktime : tmT -> Z)
  (file : option archiveT) (szTargetDir : list ascii)
  (ret : Z) (names : list (list ascii)) (logr : list event) :
  nExtractFromTargzWithCallback szTargetDir (Some recorder) file []
  = Some (ret, names, logr) ->
  let cands := filter_map (candidate mktime BDC_PREFIX) names in
  exists stData log1,
    nExtractFromTargzWithCallback szTargetDir
      (Some (bLatestBdcDailyMatcher mktime)) file
      (mkMatcherData BDC_PREFIX zero_fileDate false)
    = Some (ret, stData, log1)
    /\ Forall (presented szTargetDir) names
    /\ quiet log1
    /\ (cands <> [] ->
        bFoundMatch stData = true
        /\ first_latest cands (stLatestFile stData)
        /\ In (szFilename (stLatestFile stData)) names
        /\ candidate mktime BDC_PREFIX (szFilename (stLatestFile stData))
           = Some (stLatestFile stData))
    /\ (cands = [] ->
        bFoundMatch stData = false
        /\ exists code log,
             nExtractLatestBdcDailyFile mktime file szTargetDir
             = Some (code, log)
             /\ code <> 0 /\ quiet log
             /\ (ret = 0 ->
                 code = -1 /\ log = OutParsing :: log1 ++ [ErrNoMatching])).
Proof.
  intros Hrun cands.
  set (stData0 := mkMatcherData BDC_PREFIX zero_fileDate false).
  pose proof (declining_run matcherDataT szTargetDir
                (bLatestBdcDailyMatcher mktime) (matcher_declines mktime)
                (matcher_events mktime) file stData0) as Hsim.
  rewrite Hrun in Hsim. destruct Hsim as [log1 [Hnames [Hpass Hq]]].
  change (fold_left (seen_by matcherDataT (bLatestBdcDailyMatcher mktime))
            names stData0)
    with (fold_left (observe mktime) names stData0) in Hpass.
  rewrite (observe_fold mktime names stData0 eq_refl) in Hpass.
  change (filter_map (candidate mktime (szPrefix stData0)) names) with cands
    in Hpass.
  change (latest_of stData0) with (@None fileDateT) in Hpass.
  exists (keep stData0 (fold_left pick cands None)), log1.
  split; [exact Hpass|]. split; [exact Hnames|]. split; [exact Hq|].
  split.
  - intros Hne. destruct (pick_fold_first cands Hne) as [best [E Hbest]].
    rewrite E. cbn [keep bFoundMatch stLatestFile].
    split; [reflexivity|]. split; [exact Hbest|].
    destruct (filter_map_In _ _ _ (first_latest_In _ _ Hbest))
      as [name [Hin Hc]].
    rewrite (candidate_filename mktime BDC_PREFIX name best Hc).
    split; assumption.
  - intros Hnil. rewrite Hnil in Hpass |- *. cbn [fold_left keep] in Hpass |- *.
    split; [reflexivity|].
    unfold nExtractLatestBdcDailyFile. fold stData0. rewrite Hpass.
    cbn [bind bFoundMatch stData0 negb].
    destruct (Z.eqb_spec ret 0) as [E|E]; cbn [negb].
    + exists (-1), (OutParsing :: log1 ++ [ErrNoMatching]).
      split; [reflexivity|]. split; [discriminate|].
      split; [|intros _; split; reflexivity].
      apply (quiet_app [OutParsing]); [reflexivity|].
      apply quiet_app; [exact Hq | reflexivity].
    + exists ret, (OutParsing :: log1 ++ [ErrAnalyze]).
      split; [reflexivity|]. split; [exact E|].
      split; [|intros; contradiction].
      apply (quiet_app [OutParsing]); [reflexivity|].
      apply quiet_app; [exact Hq | reflexivity].
Qed.

Lemma first_pass_keeps_first_latest_witness :
  exists stData log1,
    nExtractFromTargzWithCallback TARGET_DIR
      (Some (bLatestBdcDailyMatcher mktime_utc)) (Some archive_three)
      (mkMatcherData BDC_PREFIX zero_fileDate false)
    = Some (0, stData, log1)
    /\ bFoundMatch stData = true
    /\ szFilename (stLatestFile stData)
       = str "BDC_Daily_version_2025-05-14_20:30:45.csv".
Proof.
  assert (Hrun :
    nExtractFromTargzWithCallback TARGET_DIR (Some recorder)
      (Some archive_three) []
    = Some (0, [str "BDC_Daily_version_2025-05-12_20:30:45.csv";
                str "BDC_Daily_version_2025-05-14_20:30:45.csv";
                str "BDC_Daily_version_bad.csv";
                str "BDC_Daily_version_2025-05-13_20:30:45.csv"],
            [WarnUnsafePath (str "logs/../x")]))
    by (vm_compute; reflexivity).
  destruct (first_pass_keeps_first_latest mktime_utc (Some archive_three)
              TARGET_DIR _ _ _ Hrun)
    as [stData [log1 [Hpass [_ [_ [Hsome _]]]]]].
  exists stData, log1. split; [exact Hpass|].
  destruct Hsome as [Hfound _]; [vm_compute; discriminate|].
  split; [exact Hfound|].
  vm_compute in Hpass. injection Hpass as <- _. reflexivity.
Defined.


(* ================================================================= *)
(** * Further properties of the program *)

(* ----------------------------------------------------------------- *)
(** ** Paths: bIsInDirectory and the test for parent-directory segments *)

Lemma is_prefix_spec (p l : list ascii) :
  is_prefix p l = true <-> exists rest, l = p ++ rest.
Proof.
  revert l. induction p as [|x p IH]; intros l; cbn [is_prefix].
  - split; [intros _; exists l; reflexivity | reflexivity].
  - destruct l as [|y l].
    + split; [discriminate | intros [rest H]; discriminate].
    + rewrite andb_true_iff, Ascii.eqb_eq, IH. split.
      * intros [-> [rest ->]]. exists rest. reflexivity.
      * intros [rest H]. injection H as -> ->. split; [reflexivity|].
        exists rest. reflexivity.
Qed.

Lemma contains_spec (sub l : list ascii) :
  contains sub l = true <-> exists a b, l = a ++ sub ++ b.
Proof.
  induction l as [|c l IH]; cbn [contains]; rewrite orb_true_iff, is_prefix_spec.
  - split.
    + intros [[rest H]|H]; [|discriminate]. exists [], rest. exact H.
    + intros [a [b H]]. left. destruct a as [|x a]; [|discriminate].
      exists b. exact H.
  - rewrite IH. split.
    + intros [[rest H]|[a [b H]]].
      * exists [], rest. exact H.
      * exists (c :: a), b. rewrite H. reflexivity.
    + intros [a [b H]]. destruct a as [|x a].
      * left. exists b. exact H.
      * right. injection H as _ H. exists a, b. exact H.
Qed.

Lemma list_eqb_eq (a b : list ascii) : list_eqb a b = true <-> a = b.
Proof.
  unfold list_eqb. destruct (list_eq_dec ascii_dec a b); split;
    congruence.
Qed.

Lemma strncmp_eq_prefix (a b : list ascii) :
  strncmp_eq a b (length b) = true <-> exists rest, a = b ++ rest.
Proof.
  unfold strncmp_eq. rewrite list_eqb_eq, firstn_all. split.
  - intros H. exists (skipn (length b) a).
    rewrite <- H at 1. symmetry. apply firstn_skipn.
  - intros [rest ->]. rewrite firstn_app, Nat.sub_diag, firstn_all.
    cbn. apply app_nil_r.
Qed.

(** The directory as [bIsInDirectory] compares it: with a slash added when
    it is not empty and ends with neither a slash nor a backslash. *)
Definition dir_with_slash (szTargetDir : list ascii) : list ascii :=
  match rev szTargetDir with
  | [] => []
  | c :: _ =>
      if Ascii.eqb c SLASH || Ascii.eqb c BACKSLASH then szTargetDir
      else szTargetDir ++ [SLASH]
  end.

(** X1.  [bIsInDirectory] is a test of prefix on characters: a path is in
    the directory exactly when it begins with the directory name completed
    by a slash (a name that ends with a slash or a backslash is taken as it
    is).  So every path is in the empty directory, and the directory
    [logs/BatteryBDC] does not hold [logs/BatteryBDC2/x]. *)
Theorem bIsInDirectory_is_prefix_test (szPath szTargetDir : list ascii) :
  (bIsInDirectory szPath szTargetDir = true
   <-> exists rest, szPath = dir_with_slash szTargetDir ++ rest)
  /\ bIsInDirectory szPath [] = true
  /\ bIsInDirectory (str "logs/BatteryBDC2/x") (str "logs/BatteryBDC") = false.
Proof.
  split; [|split; reflexivity].
  unfold bIsInDirectory, dir_with_slash.
  destruct szTargetDir as [|c0 d0] using rev_ind.
  - cbn. split; [intros _; exists szPath; reflexivity | reflexivity].
  - rewrite rev_app_distr, last_last, length_app. cbn [rev app length].
    replace (0 <? length d0 + 1)%nat with true
      by (symmetry; apply Nat.ltb_lt; lia).
    cbn [andb].
    destruct (Ascii.eqb c0 SLASH); cbn [negb andb orb].
    + rewrite <- (length_app d0 [c0]) at 1. replace (length d0 + 1)%nat
        with (length (d0 ++ [c0])) by (rewrite length_app; reflexivity).
      apply strncmp_eq_prefix.
    + destruct (Ascii.eqb c0 BACKSLASH); cbn [negb].
      * replace (length d0 + 1)%nat
          with (length (d0 ++ [c0])) by (rewrite length_app; reflexivity).
        apply strncmp_eq_prefix.
      * replace (length d0 + 1 + 1)%nat
          with (length ((d0 ++ [c0]) ++ [SLASH]))
          by (rewrite !length_app; reflexivity).
        apply strncmp_eq_prefix.
Qed.

(** X2.  The reader takes a name for unsafe exactly when the three
    characters [../] or the three characters [..\] occur somewhere in it, as
    [strstr] finds them: a name that only ends with two dots is not
    refused, and a name such as [a../b], which has no parent-directory
    segment, is. *)
Theorem unsafe_path_is_substring_test (szName : list ascii) :
  (unsafe_path szName = true
   <-> exists a b,
         szName = a ++ str "../" ++ b
         \/ szName = a ++ [".";"."; BACKSLASH]%char ++ b)
  /\ unsafe_path (str "logs/..") = false
  /\ unsafe_path (str "a../b") = true.
Proof.
  split; [|split; reflexivity].
  unfold unsafe_path. rewrite orb_true_iff, !contains_spec. split.
  - intros [[a [b H]]|[a [b H]]]; exists a, b; [left | right]; exact H.
  - intros [a [b [H|H]]]; [left | right]; exists a, b; exact H.
Qed.

(* ----------------------------------------------------------------- *)
(** ** The accessor: what a call returns *)

(** X3.  A call succeeds with the value [v] exactly when the column name is
    one of the (trimmed) names of the header line, the row asked for
    exists, the row has a field at the first index [k] where the header has
    that name, and [v], the trimmed field, is shorter than the buffer.  The
    comparison of names is exact, and of two columns of the same name the
    first is read. *)
Theorem getField_success_value (n : Z) (text : list ascii) (row : RowSelector)
  (col v : list ascii) :
  nonul text -> 0 < n ->
  (getField_sized n text row col = Some (0, v)
   <-> exists rest r tok,
         let k := index_of col (header_names (line_of text)) 0 in
         0 <= k
         /\ nth_error (header_names (line_of text)) (Z.to_nat k) = Some col
         /\ after_line text = Some rest
         /\ select_row rest (nRow_of row) = Some r
         /\ nth_error (csv_fields r) (Z.to_nat k) = Some tok
         /\ v = trim_field tok
         /\ Z.of_nat (length v) < n).
Proof.
  intros Ht Hn.
  rewrite (getField_sized_spec n text row col Ht Hn). unfold csv_lookup.
  set (names := header_names (line_of text)).
  set (k := index_of col names 0).
  split.
  - destruct (Z.eqb_spec k (-1)) as [E|E]; [discriminate|].
    destruct (after_line text) as [rest|] eqn:Hrest; cbn [bind];
      [|discriminate].
    destruct (select_row rest (nRow_of row)) as [r|] eqn:Hrow; [|discriminate].
    unfold field_result.
    destruct (nth_error (csv_fields r) (Z.to_nat k)) as [tok|] eqn:Hnth;
      [|discriminate].
    destruct (Z.ltb_spec (Z.of_nat (length (trim_field tok))) n) as [Hlt|Hge];
      [|discriminate].
    intros H. injection H as <-.
    exists rest, r, tok. cbv zeta.
    destruct (index_of_range col names 0) as [R|R]; [contradiction|].
    pose proof (index_of_nth col names 0 E) as Hcol.
    rewrite Z.sub_0_r in Hcol.
    split; [lia|]. split; [exact Hcol|]. split; [reflexivity|].
    split; [exact Hrow|]. split; [exact Hnth|]. split; [reflexivity|].
    exact Hlt.
  - intros [rest [r [tok H]]]. cbv zeta in H.
    destruct H as [Hk [_ [Hrest [Hrow [Hnth [-> Hlen]]]]]].
    destruct (Z.eqb_spec k (-1)) as [E|E]; [lia|].
    rewrite Hrest. cbn [bind]. rewrite Hrow. unfold field_result.
    rewrite Hnth. destruct (Z.ltb_spec (Z.of_nat (length (trim_field tok))) n);
      [reflexivity | lia].
Qed.

Lemma getField_success_value_witness :
  getField_sized 8 csv_quoted (Absolute 0) (str "B") = Some (0, str "9").
Proof.
  assert (Hz : nonul csv_quoted) by (apply nonul_check; vm_compute; reflexivity).
  apply (proj2 (getField_success_value 8 csv_quoted (Absolute 0) (str "B")
                  (str "9") Hz eq_refl)).
  exists ([DQUOTE] ++ str "x,y" ++ [DQUOTE] ++ str ",9" ++ [LF]),
         ([DQUOTE] ++ str "x,y" ++ [DQUOTE] ++ str ",9"), (str "9").
  cbv zeta. repeat split; vm_compute; congruence.
Defined.

(** X4.  The string left in the result buffer is always shorter than
    [nBufSize].  The call fails with -6 exactly when the field is found and
    its trimmed value has [nBufSize] characters or more; the buffer then
    holds the first [nBufSize - 1] characters of the value. *)
Theorem getField_truncates_long_value (n : Z) (text : list ascii)
  (row : RowSelector) (col : list ascii) (code : Z) (v : list ascii) :
  nonul text -> 0 < n ->
  getField_sized n text row col = Some (code, v) ->
  Z.of_nat (length v) < n
  /\ (code = -6
      <-> exists rest r tok,
            after_line text = Some rest
            /\ select_row rest (nRow_of row) = Some r
            /\ nth_error (csv_fields r)
                 (Z.to_nat (index_of col (header_names (line_of text)) 0))
               = Some tok
            /\ index_of col (header_names (line_of text)) 0 <> -1
            /\ n <= Z.of_nat (length (trim_field tok))
            /\ v = firstn (Z.to_nat (n - 1)) (trim_field tok)).
Proof.
  intros Ht Hn.
  rewrite (getField_sized_spec n text row col Ht Hn). unfold csv_lookup.
  set (k := index_of col (header_names (line_of text)) 0).
  destruct (Z.eqb_spec k (-1)) as [E|E].
  { intros H. injection H as <- <-. split; [cbn; lia|].
    split; [discriminate|]. intros [rest [r [tok H]]]. tauto. }
  destruct (after_line text) as [rest|] eqn:Hrest; cbn [bind]; [|discriminate].
  destruct (select_row rest (nRow_of row)) as [r|] eqn:Hrow.
  2:{ intros H. injection H as <- <-. split; [cbn; lia|].
      split; [discriminate|]. intros [rest' [r' [tok [E1 [H _]]]]].
      injection E1 as <-. rewrite Hrow in H. discriminate. }
  unfold field_result.
  destruct (nth_error (csv_fields r) (Z.to_nat k)) as [tok|] eqn:Hnth.
  2:{ intros H. injection H as <- <-. split; [cbn; lia|].
      split; [discriminate|]. intros [rest' [r' [tok [E1 [E2 [H _]]]]]].
      injection E1 as <-. rewrite Hrow in E2. injection E2 as <-.
      fold k in H. rewrite Hnth in H. discriminate. }
  destruct (Z.ltb_spec (Z.of_nat (length (trim_field tok))) n) as [Hlt|Hge];
    intros H; injection H as <- <-.
  - split; [exact Hlt|]. split; [discriminate|].
    intros [rest' [r' [tok' [E1 [E2 [E3 [_ [Hlen _]]]]]]]].
    injection E1 as <-. rewrite Hrow in E2. injection E2 as <-.
    fold k in E3. rewrite Hnth in E3. injection E3 as <-. lia.
  - split; [rewrite length_firstn; lia|].
    split; [|reflexivity]. intros _. exists rest, r, tok.
    split; [reflexivity|]. split; [exact Hrow|]. split; [exact Hnth|].
    split; [exact E|]. split; [exact Hge | reflexivity].
Qed.

Lemma getField_truncates_long_value_witness :
  getField_sized 3 csv_round_trip Last (str "TimeStamp") = Some (-6, str "20")
  /\ Z.of_nat (length (str "20")) < 3.
Proof.
  assert (Hz : nonul csv_round_trip)
    by (apply nonul_check; vm_compute; reflexivity).
  assert (Hrun : getField_sized 3 csv_round_trip Last (str "TimeStamp")
                 = Some (-6, str "20")) by (vm_compute; reflexivity).
  split; [exact Hrun|].
  exact (proj1 (getField_truncates_long_value 3 csv_round_trip Last
                  (str "TimeStamp") (-6) (str "20") Hz eq_refl Hrun)).
Defined.

(* ----------------------------------------------------------------- *)
(** ** The accessor: what a call writes *)

Lemma csv_lookup_length (n : Z) (text : list ascii) (nRow : Z)
  (col : list ascii) (code : Z) (v : list ascii) :
  0 < n -> csv_lookup n text nRow col = Some (code, v) ->
  Z.of_nat (length v) < n.
Proof.
  intros Hn. unfold csv_lookup.
  destruct (index_of col (header_names (line_of text)) 0 =? -1).
  { intros H. injection H as _ <-. cbn. lia. }
  destruct (after_line text) as [rest|]; cbn [bind]; [|discriminate].
  destruct (select_row rest nRow) as [r|].
  2:{ intros H. injection H as _ <-. cbn. lia. }
  unfold field_result. destruct (nth_error (csv_fields r) _) as [tok|].
  2:{ intros H. injection H as _ <-. cbn. lia. }
  destruct (Z.ltb_spec (Z.of_nat (length (trim_field tok))) n) as [Hlt|Hge];
    intros E; injection E as _ <-; [exact Hlt|].
  rewrite length_firstn. lia.
Qed.

Lemma run_reads_text (m m' : memory) (bc : nat) (zc : Z) (br : nat)
  (rpre old rpost : list ascii) (nRow : Z) (col : list ascii) (n ret : Z) :
  (br < length m)%nat -> br <> bc ->
  block_of m br = rpre ++ old ++ rpost -> n = Z.of_nat (length old) -> 0 < n ->
  nGetCSVDataByColName m (bc, zc) nRow col (br, Z.of_nat (length rpre)) n
  = Some (ret, m') ->
  exists text, cstring_at m (bc, zc) = Some text.
Proof.
  intros Hbr Hne Hblk Hn Hpos Hrun. unfold nGetCSVDataByColName in Hrun.
  destruct (Z.leb_spec n 0); [lia|].
  destruct old as [|c old']; [cbn in Hn; lia|].
  rewrite (store_block m br rpre (old' ++ rpost) c NUL _ Hbr Hblk eq_refl)
    in Hrun.
  cbn [bind] in Hrun.
  rewrite (cstring_at_other m br bc _ zc Hbr (not_eq_sym Hne)) in Hrun.
  destruct (cstring_at m (bc, zc)) as [text|]; [|discriminate].
  exists text. reflexivity.
Qed.

(** X5.  In the block of the result buffer a call writes inside the
    [nBufSize] bytes of the buffer only: the bytes before and after them
    are kept, and the buffer holds a string that ends within it.  Whatever
    the call returns, its heap copy is freed: the memory has one more
    block, the copy's, and that block is released. *)
Theorem nGetCSVDataByColName_writes_within_buffer
  (m m' : memory) (bc : nat) (zc : Z) (br : nat)
  (rpre old rpost : list ascii) (nRow : Z) (col : list ascii) (n ret : Z) :
  (br < length m)%nat -> br <> bc ->
  block_of m br = rpre ++ old ++ rpost -> n = Z.of_nat (length old) -> 0 < n ->
  nGetCSVDataByColName m (bc, zc) nRow col (br, Z.of_nat (length rpre)) n
  = Some (ret, m') ->
  (exists w v,
     block_of m' br = rpre ++ w ++ rpost
     /\ length w = length old
     /\ cstr w = Some v
     /\ cstring_at m' (br, Z.of_nat (length rpre)) = Some v)
  /\ length m' = S (length m)
  /\ block_of m' (length m) = [].
Proof.
  intros Hbr Hne Hblk Hn Hpos Hrun.
  destruct (run_reads_text m m' bc zc br rpre old rpost nRow col n ret
              Hbr Hne Hblk Hn Hpos Hrun) as [text Hc].
  rewrite (nGetCSVDataByColName_spec m bc zc br rpre old rpost nRow col text n
             Hc Hbr Hne Hblk Hn Hpos) in Hrun.
  destruct (csv_lookup n text nRow col) as [[code v]|] eqn:Hl; [|discriminate].
  assert (Hm : m' = set_block m br
                      (rpre ++ v ++ NUL :: skipn (S (length v)) old ++ rpost)
                    ++ [[]]) by congruence.
  clear Hrun. subst m'.
  pose proof (csv_lookup_length n text nRow col code v Hpos Hl) as Hlen.
  assert (Hv : nonul v).
  { destruct (cstr_inv _ _ Hc) as [Ht _].
    exact (csv_lookup_nonul n text nRow col code v Ht Hl). }
  assert (Hblk' : block_of (set_block m br
                    (rpre ++ v ++ NUL :: skipn (S (length v)) old ++ rpost)
                    ++ [[]]) br
                  = rpre ++ (v ++ NUL :: skipn (S (length v)) old) ++ rpost).
  { rewrite block_of_freed_end, block_of_set_same by exact Hbr.
    rewrite <- !app_assoc. reflexivity. }
  split; [|split].
  - exists (v ++ NUL :: skipn (S (length v)) old), v.
    split; [exact Hblk'|].
    split; [rewrite length_app; cbn [length]; rewrite length_skipn; lia|].
    split; [apply cstr_nonul; exact Hv|].
    unfold cstring_at, tail_at. cbv beta iota delta [fst snd].
    destruct (Z.ltb_spec (Z.of_nat (length rpre)) 0); [lia|].
    rewrite Hblk', Nat2Z.id, skipn_app, skipn_all, Nat.sub_diag.
    cbn [skipn app]. rewrite <- app_assoc. cbn [app].
    apply cstr_nonul. exact Hv.
  - rewrite length_app, length_set_block by exact Hbr. cbn. lia.
  - unfold block_of. rewrite app_nth2; rewrite length_set_block by exact Hbr;
      [|lia].
    rewrite Nat.sub_diag. reflexivity.
Qed.

Lemma nGetCSVDataByColName_writes_within_buffer_witness :
  exists ret m',
    nGetCSVDataByColName
      [csv_round_trip ++ [NUL]; str "ab" ++ repeat NUL 4 ++ str "cd"]
      (0%nat, 0) (-1) (str "CycleCount") (1%nat, 2) 4 = Some (ret, m')
    /\ length m' = 3%nat /\ block_of m' 2 = [].
Proof.
  destruct (nGetCSVDataByColName
              [csv_round_trip ++ [NUL]; str "ab" ++ repeat NUL 4 ++ str "cd"]
              (0%nat, 0) (-1) (str "CycleCount") (1%nat, 2) 4)
    as [[ret m']|] eqn:Hrun; [|vm_compute in Hrun; discriminate].
  exists ret, m'. split; [reflexivity|].
  exact (proj2 (nGetCSVDataByColName_writes_within_buffer
                  [csv_round_trip ++ [NUL]; str "ab" ++ repeat NUL 4 ++ str "cd"]
                  m' 0 0 1 (str "ab") (repeat NUL 4) (str "cd") (-1)
                  (str "CycleCount") 4 ret
                  (le_n 2) (fun H => O_S 0 (eq_sym H)) eq_refl eq_refl eq_refl
                  Hrun)).
Defined.

(* ----------------------------------------------------------------- *)
(** ** The accessor: the row index *)

Lemma csv_lookup_negative_row (n : Z) (text : list ascii) (nRow : Z)
  (col : list ascii) :
  nRow < -1 -> csv_lookup n text nRow col = csv_lookup n text 0 col.
Proof.
  intros H. unfold csv_lookup, select_row, row_suffix.
  destruct (Z.leb_spec 0 nRow); [lia|].
  destruct (Z.eqb_spec nRow (-1)); [lia|]. reflexivity.
Qed.

(** X6.  A row index below -1 is not refused: neither of the two branches
    that move to a row is taken, and the call does what it does for row 0,
    the first row after the header. *)
Theorem row_index_below_minus_one_reads_row_zero
  (m : memory) (bc : nat) (zc : Z) (br : nat)
  (rpre old rpost text : list ascii) (nRow : Z) (col : list ascii) (n : Z) :
  cstring_at m (bc, zc) = Some text ->
  (br < length m)%nat -> br <> bc ->
  block_of m br = rpre ++ old ++ rpost -> n = Z.of_nat (length old) -> 0 < n ->
  nRow < -1 ->
  nGetCSVDataByColName m (bc, zc) nRow col (br, Z.of_nat (length rpre)) n
  = nGetCSVDataByColName m (bc, zc) 0 col (br, Z.of_nat (length rpre)) n.
Proof.
  intros Hc Hbr Hne Hblk Hn Hpos Hrow.
  rewrite (nGetCSVDataByColName_spec m bc zc br rpre old rpost nRow col text n
             Hc Hbr Hne Hblk Hn Hpos).
  rewrite (nGetCSVDataByColName_spec m bc zc br rpre old rpost 0 col text n
             Hc Hbr Hne Hblk Hn Hpos).
  rewrite (csv_lookup_negative_row n text nRow col Hrow). reflexivity.
Qed.

Lemma row_index_below_minus_one_reads_row_zero_witness :
  nGetCSVDataByColName (caller_memory csv_no_final_newline 8) (0%nat, 0) (-7)
    (str "CycleCount") (1%nat, 0) 8
  = nGetCSVDataByColName (caller_memory csv_no_final_newline 8) (0%nat, 0) 0
      (str "CycleCount") (1%nat, 0) 8.
Proof.
  apply (row_index_below_minus_one_reads_row_zero
           (caller_memory csv_no_final_newline 8) 0 0 1 [] (repeat NUL 8) []
           csv_no_final_newline (-7) (str "CycleCount") 8).
  - vm_compute. reflexivity.
  - apply le_n.
  - discriminate.
  - reflexivity.
  - reflexivity.
  - reflexivity.
  - reflexivity.
Defined.

Definition count_lf (l : list ascii) : nat := count_occ ascii_dec l LF.

Lemma after_line_count (l : list ascii) :
  match after_line l with
  | Some r => count_lf l = S (count_lf r)
  | None => count_lf l = 0%nat
  end.
Proof.
  unfold after_line, count_lf.
  induction l as [|c l IH]; cbn [drop_while count_occ]; [reflexivity|].
  unfold not_lf at 1. destruct (Ascii.eqb_spec c LF) as [->|Hc]; cbn [negb].
  - destruct (ascii_dec LF LF); [reflexivity | congruence].
  - destruct (ascii_dec c LF); [contradiction|]. exact IH.
Qed.

Lemma skip_lines_count (k : nat) (l : list ascii) :
  skip_lines k l = None <-> (count_lf l < k)%nat.
Proof.
  revert l. induction k as [|k IH]; intros l; cbn [skip_lines].
  - split; [discriminate | lia].
  - pose proof (after_line_count l) as H.
    destruct (after_line l) as [r|].
    + rewrite IH, H. lia.
    + rewrite H. split; [lia | reflexivity].
Qed.

(** X7.  A call fails with -5 (row not found) exactly when the column is in
    the header and the row asked for is the row [k] of a text that has
    fewer than [k] line feeds after its header line; asking for the last
    row never gives -5.  The row [k] itself need not end with a line feed,
    and may be empty. *)
Theorem getField_row_not_found (n : Z) (text : list ascii) (row : RowSelector)
  (col : list ascii) (v : list ascii) :
  nonul text -> 0 < n ->
  (getField_sized n text row col = Some (-5, v)
   <-> v = []
       /\ In col (header_names (line_of text))
       /\ exists k rest,
            row = Absolute k /\ after_line text = Some rest
            /\ (count_lf rest < k)%nat).
Proof.
  intros Ht Hn.
  rewrite (getField_sized_spec n text row col Ht Hn). unfold csv_lookup.
  set (names := header_names (line_of text)).
  destruct (Z.eqb_spec (index_of col names 0) (-1)) as [E|E].
  { split; [discriminate|]. intros [_ [Hin _]].
    elim (index_of_found col names 0 Hin (Z.le_refl 0)). exact E. }
  pose proof (index_of_present col names 0 E) as Hin.
  destruct (after_line text) as [rest|]; cbn [bind].
  2:{ split; [discriminate|]. intros [_ [_ [k [rest [_ [H _]]]]]].
      discriminate. }
  unfold select_row, row_suffix.
  destruct row as [k|]; cbn [nRow_of].
  - destruct (Z.leb_spec 0 (Z.of_nat k)); [|lia]. rewrite Nat2Z.id.
    destruct (skip_lines k rest) as [s|] eqn:Hs; cbn [option_map].
    + assert (Hno : ~ (count_lf rest < k)%nat).
      { intros Hlt. apply skip_lines_count in Hlt. congruence. }
      split.
      * unfold field_result.
        destruct (nth_error _ _); [destruct (_ <? n)|]; discriminate.
      * intros [_ [_ [k' [rest' [Ek [Er Hlt]]]]]].
        injection Ek as <-. injection Er as <-. contradiction.
    + split.
      * intros Ev. injection Ev as <-. split; [reflexivity|].
        split; [exact Hin|]. exists k, rest.
        split; [reflexivity|]. split; [reflexivity|].
        apply skip_lines_count. exact Hs.
      * intros [-> _]. reflexivity.
  - cbn [Z.leb Z.eqb Z.compare Pos.eqb option_map]. split.
    + unfold field_result.
      destruct (nth_error _ _); [destruct (_ <? n)|]; discriminate.
    + intros [_ [_ [k [rest' [Ek _]]]]]. discriminate.
Qed.

Lemma getField_row_not_found_witness :
  getField_sized 8 csv_round_trip (Absolute 2) (str "CycleCount")
  = Some (-5, []).
Proof.
  assert (Hz : nonul csv_round_trip)
    by (apply nonul_check; vm_compute; reflexivity).
  apply (proj2 (getField_row_not_found 8 csv_round_trip (Absolute 2)
                  (str "CycleCount") [] Hz eq_refl)).
  split; [reflexivity|]. split; [right; left; reflexivity|].
  exists 2%nat, (str "2025-05-14 20:15:23,253" ++ [LF]).
  split; [reflexivity|]. split; [reflexivity|]. vm_compute. apply le_n.
Defined.

(** X8.  On a text that has no line feed at all the header is the whole
    text and no row follows.  A column that is not in the header gives -3;
    for a column that is in the header the call moves one byte past the end
    of its heap copy and reads there, outside the allocated block, for any
    row index: this embedding gives no result to such a read. *)
Theorem text_without_line_feed_is_read_past_its_end
  (n : Z) (text : list ascii) (row : RowSelector) (col : list ascii) :
  nonul text -> nolf text -> 0 < n ->
  (In col (header_names text) -> getField_sized n text row col = None)
  /\ (~ In col (header_names text)
      -> getField_sized n text row col = Some (-3, [])).
Proof.
  intros Ht Hl Hn.
  rewrite (getField_sized_spec n text row col Ht Hn). unfold csv_lookup.
  assert (Hline : line_of text = text).
  { unfold line_of. rewrite <- (app_nil_r text) at 1.
    rewrite (take_while_app not_lf text [] Hl). apply app_nil_r. }
  assert (Hafter : after_line text = None).
  { unfold after_line. rewrite <- (app_nil_r text).
    rewrite (drop_while_app not_lf text [] Hl). reflexivity. }
  rewrite Hline, Hafter. split; intros Hin.
  - destruct (Z.eqb_spec (index_of col (header_names text) 0) (-1)) as [E|E];
      [|reflexivity].
    elim (index_of_found col (header_names text) 0 Hin (Z.le_refl 0)). exact E.
  - destruct (Z.eqb_spec (index_of col (header_names text) 0) (-1)) as [E|E];
      [reflexivity|].
    elim Hin. exact (index_of_present col (header_names text) 0 E).
Qed.

Lemma text_without_line_feed_is_read_past_its_end_witness :
  getField_sized 8 (str "A,B") (Absolute 0) (str "A") = None
  /\ getField_sized 8 (str "A,B") (Absolute 0) (str "C") = Some (-3, []).
Proof.
  assert (Hz : nonul (str "A,B")) by (repeat constructor).
  assert (Hl : nolf (str "A,B")) by (repeat constructor).
  split.
  - apply (proj1 (text_without_line_feed_is_read_past_its_end 8 (str "A,B")
                    (Absolute 0) (str "A") Hz Hl eq_refl)).
    left. reflexivity.
  - apply (proj2 (text_without_line_feed_is_read_past_its_end 8 (str "A,B")
                    (Absolute 0) (str "C") Hz Hl eq_refl)).
    apply not_in_check. vm_compute. reflexivity.
Defined.

(* ----------------------------------------------------------------- *)
(** ** The reader: turns of the main loop *)

Section Turns_made.

Context {U : Type}.
Variable szTargetDir : list ascii.
Variable pfnMatcher : option (matcherT U).






End Turns_made.


(* ----------------------------------------------------------------- *)
(** ** The reader: the report of an extracted file *)

(** The C string a file content is read as: its characters up to the first
    NUL, or all of them. *)
Definition c_text (content : list ascii) : list ascii :=
  take_while (fun c => negb (Ascii.eqb c NUL)) content.

(** The two fields of the last row, the time stamp first. *)
Definition report_of (text : list ascii) : option (list event) :=
  '(r, ts) <- csv_lookup MAX_BUFFER_SIZE text (-1) (str "TimeStamp") ;;
  if negb (r =? 0) then Some [ErrTimestamp]
  else
    '(r, cc) <- csv_lookup MAX_BUFFER_SIZE text (-1) (str "CycleCount") ;;
    if negb (r =? 0) then Some [ErrCycleCount]
    else Some [OutReport cc ts].

Lemma c_text_nonul (content : list ascii) : nonul (c_text content).
Proof.
  unfold c_text, nonul.
  induction content as [|c l IH]; cbn [take_while]; [constructor|].
  destruct (Ascii.eqb c NUL) eqn:E; cbn [negb]; constructor; assumption.
Qed.

Lemma cstr_c_text (content x : list ascii) :
  cstr (content ++ NUL :: x) = Some (c_text content).
Proof.
  unfold c_text.
  induction content as [|c l IH]; cbn [app cstr take_while].
  - rewrite Ascii.eqb_refl. reflexivity.
  - destruct (Ascii.eqb c NUL) eqn:E; cbn [negb]; [reflexivity|].
    rewrite IH. reflexivity.
Qed.

(** X10.  The report of an extracted file is made of two lookups in the
    same text, which is the content up to its first NUL: the field
    [TimeStamp] of the last row, then the field [CycleCount] of the last
    row, each through a buffer of 1024 bytes.  The first lookup that does
    not return 0 gives its error message and ends the report; the second
    call reads the text as the first one left it, unchanged. *)
Theorem report_fields_is_two_lookups (content : list ascii) :
  report_fields content = report_of (c_text content).
Proof.
  unfold report_fields, report_of.
  set (text := c_text content).
  set (buf := repeat NUL (Z.to_nat MAX_BUFFER_SIZE)).
  assert (Hbuf : MAX_BUFFER_SIZE = Z.of_nat (length buf)).
  { unfold buf. rewrite repeat_length. reflexivity. }
  assert (Ht : nonul text) by apply c_text_nonul.
  set (m0 := [content ++ [NUL]; buf; buf]).
  assert (Hc0 : cstring_at m0 (0%nat, 0) = Some text) by apply cstr_c_text.
  pose proof (nGetCSVDataByColName_spec m0 0 0 1 [] buf [] (-1)
                (str "TimeStamp") text MAX_BUFFER_SIZE Hc0 (le_S _ _ (le_n 2))
                (fun H => O_S 0 (eq_sym H)) eq_refl Hbuf eq_refl) as H1.
  change (Z.of_nat (length (@nil ascii))) with 0 in H1.
  rewrite H1. clear H1.
  destruct (csv_lookup MAX_BUFFER_SIZE text (-1) (str "TimeStamp"))
    as [[r1 ts]|] eqn:L1; cbn [bind]; [|reflexivity].
  destruct (negb (r1 =? 0)); [reflexivity|].
  set (B1 := [] ++ ts ++ NUL :: skipn (S (length ts)) buf ++ []).
  change (set_block m0 1 B1 ++ [[]]) with [content ++ [NUL]; B1; buf; []].
  set (m1 := [content ++ [NUL]; B1; buf; []]).
  assert (Hc1 : cstring_at m1 (0%nat, 0) = Some text) by apply cstr_c_text.
  pose proof (nGetCSVDataByColName_spec m1 0 0 2 [] buf [] (-1)
                (str "CycleCount") text MAX_BUFFER_SIZE Hc1 (le_S _ _ (le_n 3))
                (fun H => O_S 1 (eq_sym H)) eq_refl Hbuf eq_refl) as H2.
  change (Z.of_nat (length (@nil ascii))) with 0 in H2.
  rewrite H2. clear H2.
  destruct (csv_lookup MAX_BUFFER_SIZE text (-1) (str "CycleCount"))
    as [[r2 cc]|] eqn:L2; cbn [bind]; [|reflexivity].
  destruct (negb (r2 =? 0)); [reflexivity|].
  set (B2 := [] ++ cc ++ NUL :: skipn (S (length cc)) buf ++ []).
  change (set_block m1 2 B2 ++ [[]]) with [content ++ [NUL]; B1; B2; []; []].
  assert (Hts : cstring_at [content ++ [NUL]; B1; B2; []; []] (1%nat, 0)
                = Some ts).
  { apply (cstr_nonul ts).
    exact (csv_lookup_nonul _ _ _ _ _ _ Ht L1). }
  assert (Hcc : cstring_at [content ++ [NUL]; B1; B2; []; []] (2%nat, 0)
                = Some cc).
  { apply (cstr_nonul cc).
    exact (csv_lookup_nonul _ _ _ _ _ _ Ht L2). }
  rewrite Hts, Hcc. reflexivity.
Qed.

(* ----------------------------------------------------------------- *)
(** ** The reader: one extraction at most, and its return code *)

(** How a call of the reader ends: what the last turn adds to the log after
    the events of the turns before it, and the value returned. *)
Definition ending (nRet : Z) (out : list event) : Prop :=
  (out = [] /\ (nRet = 0 \/ nRet = -1))
  \/ (exists expected got, out = [ErrReadData expected got] /\ nRet = -1)
  \/ (nRet = 0
      /\ (out = [ErrTimestamp] \/ out = [ErrCycleCount]
          \/ exists cc ts, out = [OutReport cc ts])).

Definition matcher_quiet {U : Type} (pfnMatcher : option (matcherT U)) : Prop :=
  match pfnMatcher with
  | Some f => forall name u, quiet (snd (f name u))
  | None => True
  end.

Lemma report_fields_shape (content : list ascii) (out : list event) :
  report_fields content = Some out ->
  out = [ErrTimestamp] \/ out = [ErrCycleCount]
  \/ exists cc ts, out = [OutReport cc ts].
Proof.
  unfold report_fields.
  destruct (nGetCSVDataByColName _ _ _ (str "TimeStamp") _ _) as [[r1 m1]|];
    cbn [bind]; [|discriminate].
  destruct (negb (r1 =? 0)); [intros H; injection H as <-; tauto|].
  destruct (nGetCSVDataByColName _ _ _ (str "CycleCount") _ _) as [[r2 m2]|];
    cbn [bind]; [|discriminate].
  destruct (negb (r2 =? 0)); [intros H; injection H as <-; tauto|].
  destruct (cstring_at m2 (1%nat, 0)) as [ts|]; cbn [bind]; [|discriminate].
  destruct (cstring_at m2 (2%nat, 0)) as [cc|]; cbn [bind]; [|discriminate].
  intros H; injection H as <-. right. right. exists cc, ts. reflexivity.
Qed.

Section Turns.

Context {U : Type}.
Variable szTargetDir : list ascii.
Variable pfnMatcher : option (matcherT U).
Hypothesis Hquiet : matcher_quiet pfnMatcher.

Lemma tar_step_shape (gz : gzFile) (u : U) (s : loop_step U) :
  tar_step szTargetDir pfnMatcher gz u = Some s ->
  match s with
  | Next _ _ ev => quiet ev
  | Exit r _ ev => exists mid out, ev = mid ++ out /\ quiet mid /\ ending r out
  end.
Proof.
  unfold tar_step.
  destruct (gzread gz (Z.to_nat TAR_BLOCK_SIZE)) as [[n stHeader] gz1].
  destruct (negb (n =? TAR_BLOCK_SIZE)).
  { destruct (gz_eof gz1); intros H; injection H as <-.
    - exists [], []. split; [reflexivity|]. split; [reflexivity|].
      left. split; [reflexivity | left; reflexivity].
    - exists [ErrUnexpectedEnd], []. split; [reflexivity|].
      split; [reflexivity|]. left. split; [reflexivity | right; reflexivity]. }
  destruct (Ascii.eqb (nth 0 stHeader NUL) NUL).
  { destruct (gzread gz1 (Z.to_nat TAR_BLOCK_SIZE)) as [[? ?] ?].
    intros H; injection H as <-. exists [], [].
    split; [reflexivity|]. split; [reflexivity|].
    left. split; [reflexivity | left; reflexivity]. }
  destruct (cstr stHeader) as [szName|]; cbn [bind]; [|discriminate].
  destruct (unsafe_path szName).
  { destruct (ulParseOctal _ _); cbn [bind]; [|discriminate].
    destruct (gzseek gz1 _); cbn [bind]; [|discriminate].
    intros H; injection H as <-. reflexivity. }
  destruct (ulParseOctal _ _) as [sz|]; cbn [bind]; [|discriminate].
  destruct (_ && bIsInDirectory szName szTargetDir).
  2:{ destruct (gzseek gz1 _); cbn [bind]; [|discriminate].
      intros H; injection H as <-. reflexivity. }
  destruct (base_name szName) as [|c name].
  { destruct (gzseek gz1 _); cbn [bind]; [|discriminate].
    intros H; injection H as <-. reflexivity. }
  assert (Hev : quiet (snd (match pfnMatcher with
                            | Some f => f (c :: name) u
                            | None => (true, u, [])
                            end))).
  { unfold matcher_quiet in Hquiet. destruct pfnMatcher as [f|];
      [apply Hquiet | reflexivity]. }
  destruct (match pfnMatcher with
            | Some f => f (c :: name) u
            | None => (true, u, [])
            end) as [[b u1] ev1].
  cbn [snd] in Hev.
  destruct (negb b).
  { destruct (gzseek gz1 _); cbn [bind]; [|discriminate].
    intros H; injection H as <-. exact Hev. }
  destruct (ulong (sz + 1) =? 0); [discriminate|].
  destruct (read_content _ _ _ _) as [[content gz2|a b0]|]; cbn [bind];
    [| |discriminate].
  - destruct (report_fields content) as [out|] eqn:Hrep; cbn [bind];
      [|discriminate].
    intros H; injection H as <-. exists ev1, out.
    split; [reflexivity|]. split; [exact Hev|].
    right. right. split; [reflexivity|].
    exact (report_fields_shape content out Hrep).
  - intros H; injection H as <-. exists ev1, [ErrReadData a b0].
    split; [reflexivity|]. split; [exact Hev|].
    right. left. exists a, b0. split; reflexivity.
Qed.

Lemma tar_loop_shape :
  forall fuel gz u log r u' log',
  tar_loop szTargetDir pfnMatcher fuel gz u log = Some (r, u', log') ->
  exists mid out, log' = log ++ mid ++ out /\ quiet mid /\ ending r out.
Proof.
  induction fuel as [|fuel IH]; intros gz u log r u' log';
    cbn [tar_loop]; [discriminate|].
  destruct (tar_step szTargetDir pfnMatcher gz u) as [s|] eqn:Hs;
    cbn [bind]; [|discriminate].
  pose proof (tar_step_shape gz u s Hs) as Hshape.
  destruct s as [gz1 u1 ev|r1 u1 ev].
  - intros H. destruct (IH _ _ _ _ _ _ H) as [mid [out [-> [Hq He]]]].
    exists (ev ++ mid), out. rewrite <- !app_assoc.
    split; [reflexivity|]. split; [apply quiet_app; assumption | exact He].
  - destruct Hshape as [mid [out [-> [Hq He]]]].
    intros H; injection H as <- _ <-. exists mid, out.
    split; [reflexivity|]. split; assumption.
Qed.

End Turns.

Lemma ending_single (r : Z) (out : list event) :
  ending r out ->
  out = [] \/ exists e, out = [e] /\ is_extraction_event e = true.
Proof.
  intros [[-> _]|[[a [b [-> _]]]|[_ [->|[->|[cc [ts ->]]]]]]];
    [left; reflexivity | right ..]; eexists; split; reflexivity.
Qed.

(** X11.  A call of the reader extracts one file at most, and stops there:
    for a matcher that prints none of the messages of an extraction, the log
    of a call is a run of events that are no extraction events, followed
    by nothing or by the one event of an extraction (the report, a field
    that could not be read, or a short read), which is the last event of
    the call.  The value returned is 0 or -1, and it is 0 whenever the call
    ends with the report or with a field that could not be read. *)
Theorem reader_extracts_one_file_at_most {U : Type}
  (szTargetDir : list ascii) (pfnMatcher : option (matcherT U))
  (file : option archiveT) (pUserData pUserData' : U) (nRet : Z)
  (log : list event) :
  matcher_quiet pfnMatcher ->
  nExtractFromTargzWithCallback szTargetDir pfnMatcher file pUserData
  = Some (nRet, pUserData', log) ->
  exists mid out,
    log = mid ++ out /\ quiet mid
    /\ (out = [] \/ exists e, out = [e] /\ is_extraction_event e = true)
    /\ (nRet = 0 \/ nRet = -1)
    /\ (In ErrTimestamp log \/ In ErrCycleCount log
        \/ (exists cc ts, In (OutReport cc ts) log) -> nRet = 0).
Proof.
  intros Hq. unfold nExtractFromTargzWithCallback.
  destruct (gzopen file) as [gz|].
  - intros Hrun.
    destruct (tar_loop_shape szTargetDir pfnMatcher Hq _ _ _ _ _ _ _ Hrun)
      as [mid [out [-> [Hmid He]]]].
    cbn [app]. exists mid, out. split; [reflexivity|]. split; [exact Hmid|].
    split; [exact (ending_single nRet out He)|].
    assert (Hnot : forall e, is_extraction_event e = true -> ~ In e mid).
    { intros e He' Hin. unfold quiet in Hmid. rewrite forallb_forall in Hmid.
      specialize (Hmid e Hin). rewrite He' in Hmid. discriminate. }
    split.
    + destruct He as [[_ H]|[[a [b [_ ->]]]|[-> _]]];
        [exact H | right; reflexivity | left; reflexivity].
    + intros Hin.
      assert (Hout : exists e, is_extraction_event e = true /\ In e out
                               /\ (e = ErrTimestamp \/ e = ErrCycleCount
                                   \/ exists cc ts, e = OutReport cc ts)).
      { destruct Hin as [Hin|[Hin|[cc [ts Hin]]]];
          apply in_app_or in Hin; destruct Hin as [Hin|Hin];
          try (exfalso; revert Hin; apply Hnot; reflexivity).
        - exists ErrTimestamp. split; [reflexivity|]. split; [exact Hin|].
          left. reflexivity.
        - exists ErrCycleCount. split; [reflexivity|]. split; [exact Hin|].
          right. left. reflexivity.
        - exists (OutReport cc ts). split; [reflexivity|].
          split; [exact Hin|]. right. right. exists cc, ts. reflexivity. }
      destruct Hout as [e [_ [Hin' He']]].
      destruct He as [[-> _]|[[a [b [-> _]]]|[H0 _]]].
      * destruct Hin'.
      * destruct Hin' as [<-|[]].
        destruct He' as [H|[H|[cc [ts H]]]]; discriminate.
      * exact H0.
  - intros H; injection H as <- _ <-. exists [ErrCannotOpen], [].
    split; [reflexivity|]. split; [reflexivity|].
    split; [left; reflexivity|]. split; [right; reflexivity|].
    intros [[H|[]]|[[H|[]]|[cc [ts [H|[]]]]]]; discriminate.
Qed.

Lemma reader_extracts_one_file_at_most_witness :
  exists mid out,
    [WarnUnsafePath (str "logs/../x")] = mid ++ out /\ quiet mid
    /\ (out = [] \/ exists e, out = [e] /\ is_extraction_event e = true)
    /\ (0 = 0 \/ 0 = -1)
    /\ (In ErrTimestamp [WarnUnsafePath (str "logs/../x")]
        \/ In ErrCycleCount [WarnUnsafePath (str "logs/../x")]
        \/ (exists cc ts, In (OutReport cc ts) [WarnUnsafePath (str "logs/../x")])
        -> 0 = 0).
Proof.
  refine (reader_extracts_one_file_at_most TARGET_DIR (Some recorder)
            (Some archive_three) [] _ 0 _ _ _).
  - intros name u. reflexivity.
  - vm_compute. reflexivity.
Defined.

(* ----------------------------------------------------------------- *)
(** ** The program: its return value *)

Lemma reader_shape {U : Type} (szTargetDir : list ascii)
  (pfnMatcher : option (matcherT U)) (file : option archiveT)
  (u u' : U) (r : Z) (log : list event) :
  matcher_quiet pfnMatcher ->
  nExtractFromTargzWithCallback szTargetDir pfnMatcher file u
  = Some (r, u', log) ->
  exists mid out, log = mid ++ out /\ quiet mid /\ ending r out.
Proof.
  intros Hq. unfold nExtractFromTargzWithCallback.
  destruct (gzopen file) as [gz|].
  - intros Hrun.
    destruct (tar_loop_shape szTargetDir pfnMatcher Hq _ _ _ _ _ _ _ Hrun)
      as [mid [out H]].
    exists mid, out. exact H.
  - intros H; injection H as <- _ <-. exists [ErrCannotOpen], [].
    split; [reflexivity|]. split; [reflexivity|].
    left. split; [reflexivity | right; reflexivity].
Qed.

Lemma quiet_not_in (log : list event) (e : event) :
  quiet log -> is_extraction_event e = true -> ~ In e log.
Proof.
  unfold quiet. intros Hq He Hin. rewrite forallb_forall in Hq.
  specialize (Hq e Hin). rewrite He in Hq. discriminate.
Qed.

Lemma ending_codes (r : Z) (out : list event) :
  ending r out ->
  (r = 0 \/ r = -1)
  /\ (forall e, In e out -> is_extraction_event e = true ->
                e = ErrTimestamp \/ e = ErrCycleCount
                \/ (exists cc ts, e = OutReport cc ts) -> r = 0)
  /\ (r = -1 -> forall cc ts, ~ In (OutReport cc ts) out).
Proof.
  intros [[-> H]|[[a [b [-> ->]]]|[-> H]]].
  - split; [exact H|]. split; [intros e []|]. intros _ cc ts [].
  - split; [right; reflexivity|]. split.
    + intros e [<-|[]] _ [H|[H|[cc [ts H]]]]; discriminate.
    + intros _ cc ts [H|[]]. discriminate.
  - split; [left; reflexivity|]. split; [reflexivity|]. discriminate.
Qed.

Lemma first_pass_log (mktime : tmT -> Z) (szTargetDir : list ascii)
  (file : option archiveT) (u u' : matcherDataT) (r : Z) (log : list event) :
  nExtractFromTargzWithCallback szTargetDir
    (Some (bLatestBdcDailyMatcher mktime)) file u = Some (r, u', log) ->
  quiet log /\ (r = 0 \/ r = -1).
Proof.
  intros Hrun. split.
  - pose proof (declining_run matcherDataT szTargetDir
                  (bLatestBdcDailyMatcher mktime) (matcher_declines mktime)
                  (matcher_events mktime) file u) as Hsim.
    destruct (nExtractFromTargzWithCallback szTargetDir (Some recorder) file [])
      as [[[r0 names] l0]|].
    + destruct Hsim as [log0 [_ [E Hq]]]. rewrite Hrun in E.
      injection E as _ _ <-. exact Hq.
    + rewrite Hrun in Hsim. discriminate.
  - destruct (reader_shape szTargetDir (Some (bLatestBdcDailyMatcher mktime))
                file u u' r log (matcher_events mktime) Hrun)
      as [mid [out [_ [_ He]]]].
    exact (proj1 (ending_codes r out He)).
Qed.

(** X12.  The program returns 0 or -1, and the messages of a field that
    could not be read do not make it fail: when it prints that the time
    stamp or the cycle count could not be parsed, the value it returns is
    0, as when it prints the report.  When it returns -1 it has printed no
    report. *)
Theorem program_returns_zero_after_field_errors (mktime : tmT -> Z)
  (file : option archiveT) (szTargetDir : list ascii) (nRet : Z)
  (log : list event) :
  nExtractLatestBdcDailyFile mktime file szTargetDir = Some (nRet, log) ->
  (nRet = 0 \/ nRet = -1)
  /\ (In ErrTimestamp log \/ In ErrCycleCount log -> nRet = 0)
  /\ (nRet = -1 -> forall cc ts, ~ In (OutReport cc ts) log).
Proof.
  unfold nExtractLatestBdcDailyFile.
  destruct (nExtractFromTargzWithCallback szTargetDir
              (Some (bLatestBdcDailyMatcher mktime)) file _)
    as [[[r1 stData] log1]|] eqn:Hpass1; cbn [bind]; [|discriminate].
  destruct (first_pass_log mktime szTargetDir file _ _ _ _ Hpass1)
    as [Hq1 Hr1].
  assert (Hno1 : forall e tail, is_extraction_event e = true ->
                 ~ In e tail -> ~ In e (OutParsing :: log1 ++ tail)).
  { intros e tail He Ht [H|H]; [subst e; discriminate|].
    apply in_app_or in H. destruct H as [H|H]; [|exact (Ht H)].
    exact (quiet_not_in log1 e Hq1 He H). }
  assert (Hsingle : forall e x, is_extraction_event e = true ->
                    is_extraction_event x = false -> ~ In e [x]).
  { intros e x He Hx [<-|[]]. congruence. }
  destruct (Z.eqb_spec r1 0) as [E1|E1]; cbn [negb].
  2:{ intros H; injection H as <- <-. split; [exact Hr1|]. split.
      - intros [H|H]; exfalso; revert H; apply Hno1; try reflexivity;
          apply Hsingle; reflexivity.
      - intros _ cc ts. apply Hno1; [reflexivity|].
        apply Hsingle; reflexivity. }
  destruct (bFoundMatch stData); cbn [negb].
  2:{ intros H; injection H as <- <-. split; [right; reflexivity|]. split.
      - intros [H|H]; exfalso; revert H; apply Hno1; try reflexivity;
          apply Hsingle; reflexivity.
      - intros _ cc ts. apply Hno1; [reflexivity|].
        apply Hsingle; reflexivity. }
  destruct (nExtractFromTargzWithCallback szTargetDir
              (Some bExtractLatestFileMatcher) file stData)
    as [[[r2 st2] log2]|] eqn:Hpass2; cbn [bind]; [|discriminate].
  intros H; injection H as <- <-.
  destruct (reader_shape szTargetDir (Some bExtractLatestFileMatcher) file
              stData st2 r2 log2 (fun _ _ => eq_refl) Hpass2)
    as [mid [out [-> [Hmid He]]]].
  destruct (ending_codes r2 out He) as [Hr2 [Hzero Hminus]].
  assert (Hin : forall e, is_extraction_event e = true ->
                In e (OutParsing :: log1
                      ++ [OutLatest (szFilename (stLatestFile stData));
                          OutChecking] ++ mid ++ out) -> In e out).
  { intros e He' [H|H]; [subst e; discriminate|].
    apply in_app_or in H. destruct H as [H|H];
      [elim (quiet_not_in log1 e Hq1 He' H)|].
    cbn [app In] in H.
    destruct H as [H|[H|H]]; [subst e; discriminate | subst e; discriminate|].
    apply in_app_or in H. destruct H as [H|H];
      [elim (quiet_not_in mid e Hmid He' H) | exact H]. }
  split; [exact Hr2|]. split.
  - intros [H|H].
    + apply (Hzero ErrTimestamp (Hin ErrTimestamp eq_refl H) eq_refl).
      left. reflexivity.
    + apply (Hzero ErrCycleCount (Hin ErrCycleCount eq_refl H) eq_refl).
      right. left. reflexivity.
  - intros Hm cc ts H. exact (Hminus Hm cc ts (Hin (OutReport cc ts) eq_refl H)).
Qed.

(** An archive whose dated file has no column [TimeStamp]. *)
Definition archive_no_timestamp : archiveT :=
  mkArchive
    (tar_file (bdc_path "2025-05-14_20:30:45")
       (str "Stamp,CycleCount" ++ [LF] ++ str "1,2" ++ [LF])
     ++ tar_end) false.

Lemma program_returns_zero_after_field_errors_witness :
  exists log,
    nExtractLatestBdcDailyFile mktime_utc (Some archive_no_timestamp) TARGET_DIR
    = Some (0, log)
    /\ In ErrTimestamp log.
Proof.
  destruct (nExtractLatestBdcDailyFile mktime_utc (Some archive_no_timestamp)
              TARGET_DIR) as [[r log]|] eqn:Hrun;
    [|vm_compute in Hrun; discriminate].
  assert (Hin : In ErrTimestamp log).
  { vm_compute in Hrun. injection Hrun as _ <-. cbn. tauto. }
  exists log. split; [|exact Hin].
  rewrite (proj1 (proj2 (program_returns_zero_after_field_errors mktime_utc
                           (Some archive_no_timestamp) TARGET_DIR r log Hrun))
             (or_introl Hin)).
  reflexivity.
Defined.

(* ----------------------------------------------------------------- *)
(** ** The first-pass matcher and the date parser *)

(** X13.  One call of [bLatestBdcDailyMatcher] never asks for an
    extraction and keeps the prefix.  Either it leaves the user data as it
    was, or it records the file it was given: then the name is a candidate
    (prefix, date parsed), the record is the one parsed from the name, and
    a record that was there before had a strictly smaller timestamp.  Once
    a match is recorded the flag stays up and the timestamp never goes
    down. *)
Theorem bLatestBdcDailyMatcher_only_moves_forward (mktime : tmT -> Z)
  (szFileName : list ascii) (pData : matcherDataT) :
  let res := bLatestBdcDailyMatcher mktime szFileName pData in
  let pData' := snd (fst res) in
  fst (fst res) = false
  /\ szPrefix pData' = szPrefix pData
  /\ (pData' = pData
      \/ (bFoundMatch pData' = true
          /\ szFilename (stLatestFile pData') = szFileName
          /\ candidate mktime (szPrefix pData) szFileName
             = Some (stLatestFile pData')
          /\ (bFoundMatch pData = true ->
              tTimestamp (stLatestFile pData)
              < tTimestamp (stLatestFile pData'))))
  /\ (bFoundMatch pData = true ->
      bFoundMatch pData' = true
      /\ tTimestamp (stLatestFile pData) <= tTimestamp (stLatestFile pData')).
Proof.
  cbv zeta. unfold bLatestBdcDailyMatcher, candidate, date_part.
  destruct (strncmp_eq szFileName (szPrefix pData) (length (szPrefix pData)));
    cbn [negb fst snd].
  2:{ split; [reflexivity|]. split; [reflexivity|]. split; [left; reflexivity|].
      intros H. split; [exact H | lia]. }
  destruct (str_from "_" (skipn (length (szPrefix pData)) szFileName))
    as [dp|]; cbn [option_map fst snd].
  2:{ split; [reflexivity|]. split; [reflexivity|]. split; [left; reflexivity|].
      intros H. split; [exact H | lia]. }
  destruct (Z.of_nat (length szFileName) <? MAX_PATH_LENGTH);
    cbn [negb fst snd].
  2:{ split; [reflexivity|]. split; [reflexivity|]. split; [left; reflexivity|].
      intros H. split; [exact H | lia]. }
  pose proof (bParseDate_filename mktime (skipn 1 dp)
                (set_filename zero_fileDate szFileName)) as Hname.
  destruct (bParseDate mktime (skipn 1 dp)
              (set_filename zero_fileDate szFileName)) as [[ok d] ev].
  cbn [fst snd set_filename szFilename] in Hname.
  destruct ok; cbn [negb fst snd].
  2:{ split; [reflexivity|]. split; [reflexivity|]. split; [left; reflexivity|].
      intros H. split; [exact H | lia]. }
  destruct (bFoundMatch pData) eqn:Hf; cbn [negb orb].
  - destruct (Z.ltb_spec (tTimestamp (stLatestFile pData)) (tTimestamp d))
      as [Hlt|Hge]; cbn [fst snd szPrefix stLatestFile bFoundMatch].
    + split; [reflexivity|]. split; [reflexivity|]. split.
      * right. split; [reflexivity|]. split; [exact Hname|].
        split; [reflexivity|]. intros _. exact Hlt.
      * intros _. split; [reflexivity | lia].
    + split; [reflexivity|]. split; [reflexivity|].
      split; [left; reflexivity|]. intros _. split; [exact Hf | lia].
  - cbn [fst snd szPrefix stLatestFile bFoundMatch].
    split; [reflexivity|]. split; [reflexivity|]. split.
    + right. split; [reflexivity|]. split; [exact Hname|].
      split; [reflexivity|]. discriminate.
    + discriminate.
Qed.

(** X14.  Whatever its input, when [bParseDate] succeeds the six fields it
    stored are in their ranges (year 1970 to 2100, month 1 to 12, day 1 to
    31, hour 0 to 23, minute and second 0 to 59), the timestamp is the
    value of [mktime] for them and is not -1, the filename of the record is
    untouched and nothing is printed; when it fails it prints exactly one
    message.  The day is not checked against the month: the 31st of
    February is accepted. *)
Theorem bParseDate_success_means_fields_in_range (mktime : tmT -> Z)
  (szDateStr : list ascii) (pDate : fileDateT) :
  let res := bParseDate mktime szDateStr pDate in
  let d := snd (fst res) in
  szFilename d = szFilename pDate
  /\ (fst (fst res) = true ->
      1970 <= nYear d <= 2100 /\ 1 <= nMonth d <= 12 /\ 1 <= nDay d <= 31
      /\ 0 <= nHour d <= 23 /\ 0 <= nMinute d <= 59 /\ 0 <= nSecond d <= 59
      /\ tTimestamp d = mktime (tm_of d) /\ tTimestamp d <> -1
      /\ snd res = [])
  /\ (fst (fst res) = false -> length (snd res) = 1%nat)
  /\ fst (fst (bParseDate mktime_utc (str "2025-02-31_00:00:00") pDate)) = true.
Proof.
  cbv zeta. split; [apply bParseDate_filename|].
  split; [|split; [|reflexivity]].
  - unfold bParseDate.
    destruct (negb (length _ =? 6)%nat); [discriminate|].
    set (d := store_fields pDate _).
    destruct (components_valid d) eqn:Hv; cbn [negb]; [|discriminate].
    change (tTimestamp (set_timestamp d (mktime (tm_of d))))
      with (mktime (tm_of d)).
    destruct (Z.eqb_spec (mktime (tm_of d)) (-1)) as [E|E]; [discriminate|].
    intros _. cbn [fst snd].
    change (tm_of (set_timestamp d (mktime (tm_of d)))) with (tm_of d).
    cbn [set_timestamp nYear nMonth nDay nHour nMinute nSecond tTimestamp].
    unfold components_valid in Hv. apply negb_true_iff in Hv.
    repeat (apply orb_false_iff in Hv; destruct Hv as [Hv ?]).
    repeat match goal with
           | H : (_ <? _) = false |- _ => apply Z.ltb_ge in H
           end.
    repeat split; try assumption; try reflexivity.
  - unfold bParseDate.
    destruct (negb (length _ =? 6)%nat); [reflexivity|].
    destruct (negb (components_valid _)); [reflexivity|]. cbv zeta.
    destruct (tTimestamp _ =? -1); [reflexivity | discriminate].
Qed.

(* ----------------------------------------------------------------- *)
(** ** ulParseOctal and the octal fields of a header *)

Lemma octal_digit_code (r : Z) :
  0 <= r < 8 -> char_code (ascii_of_N (Z.to_N (48 + r))) = 48 + r.
Proof.
  intros H. unfold char_code. rewrite N_ascii_embedding.
  - rewrite Z2N.id; lia.
  - change 256%N with (Z.to_N 256). apply Z2N.inj_lt; lia.
Qed.

Lemma octal_of_length (d : nat) (n : Z) : length (octal_of d n) = d.
Proof.
  revert n. induction d as [|d IH]; intros n; cbn [octal_of]; [reflexivity|].
  rewrite length_app, IH. cbn. lia.
Qed.

Lemma octal_of_digits (d : nat) (n : Z) :
  Forall (fun c => is_octal c = true) (octal_of d n).
Proof.
  revert n. induction d as [|d IH]; intros n; cbn [octal_of]; [constructor|].
  apply Forall_app. split; [apply IH|]. constructor; [|constructor].
  unfold is_octal. rewrite (octal_digit_code (n mod 8)) by (apply Z.mod_pos_bound; lia).
  pose proof (Z.mod_pos_bound n 8 ltac:(lia)) as Hr.
  change (char_code "0") with 48. change (char_code "7") with 55.
  apply andb_true_iff. split; apply Z.leb_le; lia.
Qed.

Lemma octal_of_value (d : nat) (n : Z) :
  0 <= n -> octal_value (octal_of d n) = n mod 8 ^ Z.of_nat d.
Proof.
  unfold octal_value. revert n.
  induction d as [|d IH]; intros n Hn; cbn [octal_of].
  - cbn. rewrite Z.mod_1_r. reflexivity.
  - rewrite fold_left_app, IH by (apply Z.div_pos; lia).
    cbn [fold_left]. unfold octal_step.
    rewrite (octal_digit_code (n mod 8)) by (apply Z.mod_pos_bound; lia).
    change (char_code "0") with 48.
    rewrite Nat2Z.inj_succ, Z.pow_succ_r by lia.
    assert (Hp : 0 < 8 ^ Z.of_nat d) by (apply Z.pow_pos_nonneg; lia).
    rewrite (Z.rem_mul_r n 8 (8 ^ Z.of_nat d)) by lia. lia.
Qed.

Lemma octal_not_pad (c : ascii) : is_octal c = true -> is_pad c = false.
Proof.
  intros H. destruct (is_pad c) eqn:E; [|reflexivity].
  rewrite (is_pad_not_octal c E) in H. discriminate.
Qed.

Lemma octal_digits_of_field (pad digits tail : list ascii) :
  Forall (fun c => is_pad c = true) pad ->
  Forall (fun c => is_octal c = true) digits ->
  match tail with [] => True | t :: _ => is_octal t = false end ->
  (length tail <= 1)%nat ->
  octal_digits (pad ++ digits ++ tail) = digits.
Proof.
  intros Hpad Hdig Ht Hlen. unfold octal_digits.
  rewrite (drop_while_app is_pad pad _ Hpad).
  destruct digits as [|c ds].
  - cbn [app]. destruct tail as [|t [|? ?]]; [reflexivity| |cbn in Hlen; lia].
    cbn [drop_while]. destruct (is_pad t); cbn [take_while]; [reflexivity|].
    rewrite Ht. reflexivity.
  - cbn [app drop_while].
    rewrite (octal_not_pad c (Forall_inv Hdig)).
    change (c :: ds ++ tail) with ((c :: ds) ++ tail).
    rewrite (take_while_app is_octal (c :: ds) tail Hdig).
    destruct tail as [|t [|? ?]]; [apply app_nil_r| |cbn in Hlen; lia].
    cbn [take_while]. rewrite Ht. apply app_nil_r.
Qed.

(** X15.  Round trip of a numeric header field: for a number [n] written
    in [d] octal digits (with leading zeros, as tar writes its fields)
    after any leading padding of spaces and NULs, [ulParseOctal] gives [n]
    back, whether the field ends with its last digit or one terminating
    character that is no octal digit follows within the width.  What
    follows the field in the buffer does not matter. *)
Theorem ulParseOctal_decodes_octal_field (pad : list ascii) (d : nat) (n : Z)
  (rest : list ascii) :
  Forall (fun c => is_pad c = true) pad ->
  0 <= n < 8 ^ Z.of_nat d -> n < 2 ^ ULONG_BITS ->
  ulParseOctal (pad ++ octal_of d n ++ rest) (length pad + d) = Some n
  /\ (forall t, is_octal t = false ->
        ulParseOctal (pad ++ octal_of d n ++ t :: rest) (length pad + d + 1)
        = Some n).
Proof.
  intros Hpad Hn Hlong.
  assert (Hval : ulong (octal_value (octal_of d n)) = n).
  { rewrite octal_of_value by lia. rewrite Z.mod_small by lia.
    apply ulong_small. lia. }
  split.
  - rewrite ulParseOctal_value
      by (rewrite !length_app, octal_of_length; lia).
    assert (Hcut : firstn (length pad + d) (pad ++ octal_of d n ++ rest)
                   = pad ++ octal_of d n ++ []).
    { rewrite app_nil_r, app_assoc.
      replace (length pad + d)%nat with (length (pad ++ octal_of d n))
        by (rewrite length_app, octal_of_length; reflexivity).
      apply firstn_exact. }
    rewrite Hcut.
    rewrite (octal_digits_of_field pad (octal_of d n) [] Hpad
               (octal_of_digits d n) I (Nat.le_0_l 1)).
    rewrite Hval. reflexivity.
  - intros t Ht.
    rewrite ulParseOctal_value
      by (rewrite !length_app, octal_of_length; cbn [length]; lia).
    assert (Hcut : firstn (length pad + d + 1)
                     (pad ++ octal_of d n ++ t :: rest)
                   = pad ++ octal_of d n ++ [t]).
    { change (t :: rest) with ([t] ++ rest). rewrite !app_assoc.
      replace (length pad + d + 1)%nat
        with (length ((pad ++ octal_of d n) ++ [t]))
        by (rewrite !length_app, octal_of_length; reflexivity).
      apply firstn_exact. }
    rewrite Hcut.
    rewrite (octal_digits_of_field pad (octal_of d n) [t] Hpad
               (octal_of_digits d n) Ht (le_n 1)).
    rewrite Hval. reflexivity.
Qed.

Lemma ulParseOctal_decodes_octal_field_witness :
  ulParseOctal (str "  " ++ octal_of 9 171 ++ NUL :: str "junk") 12 = Some 171.
Proof.
  refine (proj2 (ulParseOctal_decodes_octal_field (str "  ") 9 171 (str "junk")
                   _ _ _) NUL eq_refl).
  - repeat constructor.
  - split; [discriminate | reflexivity].
  - reflexivity.
Defined.

(* ----------------------------------------------------------------- *)
(** ** The reader: entries with a parent-directory path *)

Lemma nBlocks_of_small (ulFileSize : Z) :
  0 <= ulFileSize -> ulFileSize + 511 < 2 ^ ULONG_BITS ->
  nBlocks_of ulFileSize = (ulFileSize + 511) / 512.
Proof.
  intros H0 H1. unfold nBlocks_of, TAR_BLOCK_SIZE.
  replace (ulFileSize + 512 - 1) with (ulFileSize + 511) by lia.
  rewrite ulong_small by lia. reflexivity.
Qed.

(** X16.  An entry whose name has a parent-directory segment is skipped
    without the matcher: whatever the matcher and the target directory,
    the turn prints the warning, leaves the user data as it is, and moves
    the stream past the data of the entry, that is [ceil(size / 512)]
    blocks after the header, when the size is small enough for the block
    count not to wrap ([size + 511 < 2^31]). *)
Theorem unsafe_entry_is_skipped_without_the_matcher {U : Type}
  (szTargetDir : list ascii) (pfnMatcher : option (matcherT U))
  (gz gz1 : gzFile) (pUserData : U) (stHeader szName : list ascii)
  (ulFileSize : Z) :
  gzread gz (Z.to_nat TAR_BLOCK_SIZE) = (TAR_BLOCK_SIZE, stHeader, gz1) ->
  nth 0 stHeader NUL <> NUL ->
  cstr stHeader = Some szName ->
  unsafe_path szName = true ->
  ulParseOctal (skipn OFFSET_SIZE stHeader) SIZE_WIDTH = Some ulFileSize ->
  0 <= ulFileSize -> ulFileSize + 511 < 2 ^ 31 ->
  exists gz',
    tar_step szTargetDir pfnMatcher gz pUserData
    = Some (Next gz' pUserData [WarnUnsafePath szName])
    /\ gz_data gz' = gz_data gz
    /\ Z.of_nat (gz_pos gz')
       = Z.of_nat (gz_pos gz) + 512 + 512 * ((ulFileSize + 511) / 512).
Proof.
  intros Hread Hfirst Hname Hunsafe Hsize H0 Hsmall.
  destruct (gzread_block gz _ _ _ Hread eq_refl) as [Hd [Hp _]].
  pose proof (nBlocks_of_small ulFileSize H0
                ltac:(change (2 ^ ULONG_BITS) with 4294967296;
                      change (2 ^ 31) with 2147483648 in Hsmall; lia)) as Hb.
  assert (Hdiv : 0 <= (ulFileSize + 511) / 512 < 2 ^ 31 / 512).
  { split; [apply Z.div_pos; lia|].
    apply Z.div_lt_upper_bound; [lia|].
    change (2 ^ 31) with 2147483648 in *. cbn. lia. }
  unfold tar_step. rewrite Hread.
  change (negb (TAR_BLOCK_SIZE =? TAR_BLOCK_SIZE)) with false. cbv iota.
  destruct (Ascii.eqb_spec (nth 0 stHeader NUL) NUL) as [E|_]; [contradiction|].
  rewrite Hname. cbn [bind]. rewrite Hunsafe, Hsize. cbn [bind].
  rewrite Hb. unfold gzseek, TAR_BLOCK_SIZE, LONG_MAX.
  change (2 ^ 31) with 2147483648 in *. cbn in Hdiv.
  destruct (Z.leb_spec 0 ((ulFileSize + 511) / 512 * 512)); [|lia].
  destruct (Z.leb_spec ((ulFileSize + 511) / 512 * 512) (2147483648 - 1));
    [|lia].
  cbn [andb bind]. eexists. split; [reflexivity|].
  cbn [gz_data gz_pos]. split; [exact Hd|]. rewrite Hp. lia.
Qed.

Lemma unsafe_entry_is_skipped_without_the_matcher_witness :
  exists gz',
    tar_step TARGET_DIR (Some recorder)
      (mkGz (ar_bytes archive_three) false 1024 false) []
    = Some (Next gz' [] [WarnUnsafePath (str "logs/../x")])
    /\ gz_data gz' = ar_bytes archive_three
    /\ Z.of_nat (gz_pos gz') = Z.of_nat 1024 + 512 + 512 * ((3 + 511) / 512).
Proof.
  refine (unsafe_entry_is_skipped_without_the_matcher TARGET_DIR
            (Some recorder) (mkGz (ar_bytes archive_three) false 1024 false)
            (mkGz (ar_bytes archive_three) false 1536 false) []
            (tar_header (str "logs/../x") (octal_of 11 3) "0")
            (str "logs/../x") 3 _ _ _ _ _ _ _).
  - vm_compute. reflexivity.
  - vm_compute. discriminate.
  - vm_compute. reflexivity.
  - vm_compute. reflexivity.
  - vm_compute. reflexivity.
  - discriminate.
  - reflexivity.
Defined.

(* ----------------------------------------------------------------- *)
(** ** The matchers by extension and by pattern *)

Lemma strrchr_none (c : ascii) (l : list ascii) :
  strrchr c l = None <-> ~ In c l.
Proof.
  induction l as [|x l IH]; cbn [strrchr In]; [tauto|].
  destruct (strrchr c l) as [s|].
  - split; [discriminate|]. intros H. exfalso.
    assert (Hin : In c l).
    { destruct (in_dec ascii_dec c l) as [Hi|Hn]; [exact Hi|].
      apply IH in Hn. discriminate. }
    tauto.
  - destruct (Ascii.eqb_spec x c) as [->|Hne].
    + split; [discriminate | tauto].
    + split; [|reflexivity]. intros _ [H|H]; [contradiction|].
      apply (proj1 IH eq_refl). exact H.
Qed.

Lemma strrchr_some (c : ascii) (l s : list ascii) :
  strrchr c l = Some s <->
  exists pre tail, l = pre ++ c :: tail /\ s = c :: tail /\ ~ In c tail.
Proof.
  revert s. induction l as [|x l IH]; intros s; cbn [strrchr].
  - split; [discriminate|]. intros [pre [tail [H _]]].
    destruct pre; discriminate.
  - destruct (strrchr c l) as [s'|] eqn:E.
    + split.
      * intros H. injection H as <-.
        destruct (proj1 (IH s') eq_refl) as [pre [tail [-> [-> Hno]]]].
        exists (x :: pre), tail. repeat split; assumption.
      * intros [pre [tail [Hl [-> Hno]]]].
        destruct pre as [|y pre]; cbn [app] in Hl; injection Hl as -> ->.
        -- apply strrchr_none in Hno. congruence.
        -- destruct (proj1 (IH s') eq_refl) as [pre' [tail' [Hl' [-> Hno']]]].
           assert (Hsame : forall p1 t1 p2 t2 : list ascii,
                     p1 ++ c :: t1 = p2 ++ c :: t2 ->
                     ~ In c t1 -> ~ In c t2 -> t1 = t2).
           { induction p1 as [|a p1 IHp]; intros t1 p2 t2 Heq H1 H2.
             - destruct p2 as [|b p2]; cbn [app] in Heq.
               + congruence.
               + injection Heq as <- Heq. elim H1. rewrite Heq.
                 apply in_or_app. right. left. reflexivity.
             - destruct p2 as [|b p2]; cbn [app] in Heq.
               + injection Heq as -> Heq. elim H2. rewrite <- Heq.
                 apply in_or_app. right. left. reflexivity.
               + injection Heq as _ Heq. exact (IHp _ _ _ Heq H1 H2). }
           pose proof (Hsame _ _ _ _ Hl' Hno Hno') as Ht. congruence.
    + apply strrchr_none in E.
      destruct (Ascii.eqb_spec x c) as [->|Hne].
      * split.
        -- intros H. injection H as <-. exists [], l.
           repeat split; assumption.
        -- intros [pre [tail [Hl [-> Hno]]]].
           destruct pre as [|y pre]; cbn [app] in Hl.
           ++ injection Hl as ->. reflexivity.
           ++ injection Hl as _ ->. elim E. apply in_or_app.
              right. left. reflexivity.
      * split; [discriminate|]. intros [pre [tail [Hl _]]].
        destruct pre as [|y pre]; cbn [app] in Hl.
        -- injection Hl as -> _. contradiction.
        -- injection Hl as _ ->. elim E. apply in_or_app.
           right. left. reflexivity.
Qed.

Lemma tolower_dot (c : ascii) : tolower c = "."%char <-> c = "."%char.
Proof.
  split; [|intros ->; reflexivity].
  unfold tolower.
  destruct ((char_code "A" <=? char_code c) && (char_code c <=? char_code "Z"))
    eqn:E; [|tauto].
  apply andb_true_iff in E. destruct E as [E1 E2].
  apply Z.leb_le in E1, E2. change (char_code "A") with 65 in E1.
  change (char_code "Z") with 90 in E2.
  intros H. apply (f_equal char_code) in H. unfold char_code at 1 in H.
  rewrite N_ascii_embedding in H.
  - rewrite Z2N.id in H by lia. change (char_code ".") with 46 in H. lia.
  - change 256%N with (Z.to_N 256). apply Z2N.inj_lt; lia.
Qed.

(** X17.  [bFileExtensionMatcher] accepts a filename exactly when the part
    of the name from its last dot on equals the extension given, letters
    compared without case; so an extension that has a second dot, such as
    [.tar.gz], accepts no filename at all.  [bWildcardMatcher] with a
    pattern that begins with a star and a dot is the same test on the
    pattern without its star; with any other pattern it accepts the
    filename equal to the pattern, and nothing else.  Neither matcher
    changes its user data or prints. *)
Theorem extension_and_wildcard_matchers (szFilename e : list ascii) :
  (fst (fst (bFileExtensionMatcher szFilename ("." :: e)%char)) = true
   <-> exists stem x,
         szFilename = stem ++ "."%char :: x /\ ~ In "."%char x
         /\ map tolower x = map tolower e)
  /\ (In "."%char e ->
      fst (fst (bFileExtensionMatcher szFilename ("." :: e)%char)) = false)
  /\ bWildcardMatcher szFilename ("*" :: "." :: e)%char
     = (fst (fst (bFileExtensionMatcher szFilename ("." :: e)%char)),
        ("*" :: "." :: e)%char, [])
  /\ (forall szPattern,
        (forall p, szPattern <> ("*" :: "." :: p)%char) ->
        bWildcardMatcher szFilename szPattern
        = (list_eqb szFilename szPattern, szPattern, []))
  /\ (forall szExtension,
        snd (fst (bFileExtensionMatcher szFilename szExtension)) = szExtension
        /\ snd (bFileExtensionMatcher szFilename szExtension) = []).
Proof.
  assert (Hiff :
    fst (fst (bFileExtensionMatcher szFilename ("." :: e)%char)) = true
    <-> exists stem x,
          szFilename = stem ++ "."%char :: x /\ ~ In "."%char x
          /\ map tolower x = map tolower e).
  { unfold bFileExtensionMatcher.
    destruct (strrchr "." szFilename) as [s|] eqn:E; cbn [fst].
    - apply strrchr_some in E. destruct E as [pre [tail [-> [-> Hno]]]].
      unfold stricmp_eq. rewrite list_eqb_eq. cbn [map]. split.
      + intros H. injection H as H. exists pre, tail.
        repeat split; assumption.
      + intros [stem [x [Heq [Hx Hm]]]].
        assert (Hx' : x = tail).
        { assert (Hs : strrchr "." (pre ++ "."%char :: tail)
                       = Some ("."%char :: x)).
          { apply strrchr_some. exists stem, x. repeat split; assumption. }
          assert (Hs' : strrchr "." (pre ++ "."%char :: tail)
                        = Some ("."%char :: tail)).
          { apply strrchr_some. exists pre, tail. repeat split; assumption. }
          congruence. }
        subst x. rewrite Hm. reflexivity.
    - apply strrchr_none in E. split; [discriminate|].
      intros [stem [x [-> _]]]. elim E. apply in_or_app.
      right. left. reflexivity. }
  split; [exact Hiff|]. split; [|split; [|split]].
  - intros Hdot.
    destruct (fst (fst (bFileExtensionMatcher szFilename ("." :: e)%char)))
      eqn:Hb; [|reflexivity].
    destruct (proj1 Hiff eq_refl) as [stem [x [_ [Hno Hm]]]].
    exfalso. apply Hno.
    assert (Hin : In "."%char (map tolower e)).
    { apply in_map_iff. exists "."%char. split; [reflexivity | exact Hdot]. }
    rewrite <- Hm in Hin. apply in_map_iff in Hin.
    destruct Hin as [c [Hc Hin]]. apply (proj1 (tolower_dot c)) in Hc.
    subst c. exact Hin.
  - unfold bWildcardMatcher, bFileExtensionMatcher. cbn [nth skipn].
    rewrite !Ascii.eqb_refl. cbn [andb].
    destruct (strrchr "." szFilename); reflexivity.
  - intros szPattern Hp. unfold bWildcardMatcher.
    destruct szPattern as [|a [|b p]]; cbn [nth].
    + reflexivity.
    + rewrite andb_false_r. reflexivity.
    + destruct (Ascii.eqb_spec a "*") as [->|_]; [|reflexivity].
      destruct (Ascii.eqb_spec b ".") as [->|_]; [|reflexivity].
      elim (Hp p). reflexivity.
  - intros szExtension. unfold bFileExtensionMatcher.
    destruct (strrchr "." szFilename); split; reflexivity.
Qed.


(* ================================================================= *)
(** * The reader on an archive of well-formed entries *)

(* ----------------------------------------------------------------- *)
(** ** The header block of an entry *)

Lemma firstn_repeat_le {A : Type} (x : A) (k n : nat) :
  (k <= n)%nat -> firstn k (repeat x n) = repeat x k.
Proof.
  revert n. induction k as [|k IH]; intros n H; [reflexivity|].
  destruct n as [|n]; [lia|]. cbn [repeat firstn]. rewrite IH by lia.
  reflexivity.
Qed.

Lemma skipn_len {A : Type} (n : nat) (a b : list A) :
  length a = n -> skipn n (a ++ b) = b.
Proof. intros <-. apply skipn_exact. Qed.

Lemma firstn_len {A : Type} (n : nat) (a b : list A) :
  length a = n -> firstn n (a ++ b) = a.
Proof. intros <-. apply firstn_exact. Qed.

Lemma pad_to_short (n : nat) (l : list ascii) :
  (length l <= n)%nat -> pad_to n l = l ++ repeat NUL (n - length l).
Proof.
  intros H. unfold pad_to. rewrite firstn_app, firstn_all2 by exact H.
  f_equal. apply firstn_repeat_le. lia.
Qed.

Lemma pad_to_length (n : nat) (l : list ascii) : length (pad_to n l) = n.
Proof.
  unfold pad_to. rewrite length_firstn, length_app, repeat_length. lia.
Qed.

Lemma tar_header_length (name size_field : list ascii) (typeflag : ascii) :
  length (tar_header name size_field typeflag) = 512%nat.
Proof.
  unfold tar_header. rewrite !length_app, !pad_to_length, repeat_length.
  reflexivity.
Qed.

Lemma tar_header_name (name size_field : list ascii) (typeflag : ascii) :
  nonul name -> (length name < 100)%nat ->
  cstr (tar_header name size_field typeflag) = Some name.
Proof.
  intros Hz Hlen. unfold tar_header.
  rewrite (pad_to_short 100 name) by lia.
  destruct (100 - length name)%nat as [|k] eqn:E; [lia|].
  cbn [repeat]. rewrite <- app_assoc. cbn [app].
  apply cstr_nonul. exact Hz.
Qed.

Lemma tar_header_first (name size_field : list ascii) (typeflag : ascii) :
  nonul name -> name <> [] ->
  Ascii.eqb (nth 0 (tar_header name size_field typeflag) NUL) NUL = false.
Proof.
  intros Hz Hne. destruct name as [|c name]; [congruence|].
  unfold tar_header, pad_to. cbn [app firstn nth].
  exact (Forall_inv Hz).
Qed.

Lemma tar_header_size (name size_field : list ascii) (typeflag : ascii) :
  skipn OFFSET_SIZE (tar_header name size_field typeflag)
  = pad_to 12 size_field
    ++ pad_to 12 (str "00000000000") ++ pad_to 8 (str "        ")
    ++ [typeflag] ++ repeat NUL 355.
Proof.
  unfold tar_header.
  rewrite (app_assoc (pad_to 100 name)), (app_assoc (_ ++ _) (pad_to 8 _)),
    (app_assoc (_ ++ _) (pad_to 8 _)).
  apply skipn_len. rewrite !length_app, !pad_to_length. reflexivity.
Qed.

Lemma tar_header_typeflag (name size_field : list ascii) (typeflag : ascii) :
  nth OFFSET_TYPEFLAG (tar_header name size_field typeflag) NUL = typeflag.
Proof.
  unfold tar_header.
  rewrite (app_assoc (pad_to 100 name)), (app_assoc (_ ++ _) (pad_to 8 _)),
    (app_assoc (_ ++ _) (pad_to 8 _)), (app_assoc (_ ++ _) (pad_to 12 _)),
    (app_assoc (_ ++ _) (pad_to 12 _)), (app_assoc (_ ++ _) (pad_to 8 _)).
  rewrite app_nth2; rewrite !length_app, !pad_to_length; [|apply le_n].
  reflexivity.
Qed.

Lemma tar_header_size_value (name : list ascii) (typeflag : ascii) (n : Z) :
  0 <= n < 2 ^ ULONG_BITS ->
  ulParseOctal (skipn OFFSET_SIZE (tar_header name (octal_of 11 n) typeflag))
    SIZE_WIDTH = Some n.
Proof.
  intros Hn. rewrite tar_header_size.
  rewrite (pad_to_short 12 (octal_of 11 n)) by (rewrite octal_of_length; lia).
  rewrite octal_of_length. change (12 - 11)%nat with 1%nat. cbn [repeat].
  rewrite ulParseOctal_value
    by (rewrite !length_app, octal_of_length; cbn [length]; unfold SIZE_WIDTH; lia).
  match goal with
  | |- context [firstn SIZE_WIDTH ?x] =>
      assert (Hcut : firstn SIZE_WIDTH x = [] ++ octal_of 11 n ++ [NUL])
  end.
  { apply firstn_len. rewrite !length_app, octal_of_length. reflexivity. }
  rewrite Hcut.
  rewrite (octal_digits_of_field [] (octal_of 11 n) [NUL] (Forall_nil _)
             (octal_of_digits 11 n) eq_refl (le_n 1)).
  rewrite octal_of_value by lia.
  rewrite Z.mod_small
    by (change (2 ^ ULONG_BITS) with 4294967296 in Hn;
        change (8 ^ Z.of_nat 11) with 8589934592; lia).
  rewrite ulong_small by exact Hn. reflexivity.
Qed.

(* ----------------------------------------------------------------- *)
(** ** Reading an entry *)

Lemma gzread_available (gz : gzFile) (n : nat) (bytes post : list ascii) :
  skipn (gz_pos gz) (gz_data gz) = bytes ++ post -> length bytes = n ->
  gzread gz n
  = (Z.of_nat n, bytes,
     mkGz (gz_data gz) (gz_damaged gz) (gz_pos gz + n) (gz_eof gz)).
Proof.
  intros Hav Hlen. unfold gzread. rewrite Hav.
  destruct (Nat.leb_spec n (length (bytes ++ post))) as [_|Hgt].
  - rewrite (firstn_len n bytes post Hlen). reflexivity.
  - rewrite length_app in Hgt. lia.
Qed.

Lemma skipn_more {A : Type} (l a b : list A) (p : nat) :
  skipn p l = a ++ b -> skipn (p + length a) l = b.
Proof.
  intros H. rewrite Nat.add_comm, <- skipn_skipn, H. apply skipn_exact.
Qed.

Lemma read_content_all :
  forall fuel gz content post acc,
  skipn (gz_pos gz) (gz_data gz) = content ++ post ->
  (Z.to_nat ((Z.of_nat (length content) + (CHUNK - 1)) / CHUNK) + 1 <= fuel)%nat ->
  read_content fuel gz (Z.of_nat (length content)) acc
  = Some (ReadOk (acc ++ content)
            (mkGz (gz_data gz) (gz_damaged gz) (gz_pos gz + length content)
               (gz_eof gz))).
Proof.
  induction fuel as [|fuel IH]; intros gz content post acc Hav Hfuel; [lia|].
  cbn [read_content].
  destruct (Z.leb_spec (Z.of_nat (length content)) 0) as [Hle|Hpos].
  - destruct content as [|c content]; [|cbn [length] in Hle; lia].
    rewrite app_nil_r. cbn [length]. rewrite Nat.add_0_r.
    destruct gz; reflexivity.
  - remember (Z.of_nat (length content)) as n eqn:En.
    remember (Z.to_nat (if CHUNK <? n then CHUNK else n)) as k eqn:Ek.
    assert (Hkz : Z.of_nat k = (if CHUNK <? n then CHUNK else n)).
    { rewrite Ek. unfold CHUNK. destruct (Z.ltb_spec 16384 n); lia. }
    assert (Hk : (k <= length content)%nat).
    { unfold CHUNK in Hkz. destruct (Z.ltb_spec 16384 n); lia. }
    clear Ek.
    assert (Hav' : skipn (gz_pos gz) (gz_data gz)
                   = firstn k content ++ (skipn k content ++ post)).
    { rewrite app_assoc, firstn_skipn. exact Hav. }
    rewrite (gzread_available gz k (firstn k content) _ Hav')
      by (rewrite length_firstn; lia).
    rewrite Hkz, Z.eqb_refl. cbn [negb].
    replace (n - (if CHUNK <? n then CHUNK else n))
      with (Z.of_nat (length (skipn k content)))
      by (rewrite length_skipn, <- Hkz; lia).
    rewrite (IH _ (skipn k content) post (acc ++ firstn k content)).
    + cbn [gz_data gz_damaged gz_pos gz_eof].
      rewrite <- app_assoc, firstn_skipn, length_skipn.
      replace (gz_pos gz + k + (length content - k))%nat
        with (gz_pos gz + length content)%nat by lia.
      reflexivity.
    + cbn [gz_data gz_pos].
      pose proof (skipn_more (gz_data gz) (firstn k content)
                    (skipn k content ++ post) (gz_pos gz) Hav') as H.
      rewrite length_firstn in H.
      replace (Nat.min k (length content)) with k in H by lia. exact H.
    + rewrite length_skipn.
      unfold CHUNK in *. destruct (Z.ltb_spec 16384 n) as [Hbig|Hsmall].
      all: cbv iota in Hkz.
      * replace (Z.of_nat (length content - k)) with (n - 16384) by lia.
        assert (Hd : (n + (16384 - 1)) / 16384
                     = (n - 16384 + (16384 - 1)) / 16384 + 1).
        { rewrite <- Z.div_add by lia. f_equal. lia. }
        assert (0 <= (n - 16384 + (16384 - 1)) / 16384)
          by (apply Z.div_pos; lia).
        lia.
      * replace (length content - k)%nat with 0%nat by lia.
        assert (1 <= (n + (16384 - 1)) / 16384)
          by (apply Z.div_le_lower_bound; lia).
        change (Z.of_nat 0 + (16384 - 1)) with 16383.
        change (16383 / 16384) with 0. lia.
Qed.

(* ----------------------------------------------------------------- *)
(** ** One turn of the loop on a well-formed entry *)

(** An entry of an archive: the path of a file and its content. *)
Definition entry : Type := (list ascii * list ascii)%type.

(** The entries the lemmas below speak of: the path is a non-empty string
    of fewer than 100 characters, and the content is short enough for the
    offset of the seek to fit. *)
Definition entry_ok (e : entry) : Prop :=
  nonul (fst e) /\ fst e <> [] /\ (length (fst e) < 100)%nat
  /\ Z.of_nat (length (snd e)) + 511 < 2 ^ 31.

Definition tar_entry (e : entry) : list ascii := tar_file (fst e) (snd e).

(** The stream moved [n] bytes forward. *)
Definition advance (gz : gzFile) (n : nat) : gzFile :=
  mkGz (gz_data gz) (gz_damaged gz) (gz_pos gz + n) (gz_eof gz).

(** What a turn does with an entry, read off the entry itself. *)
Definition step_on_entry {U : Type} (szTargetDir : list ascii)
  (pfnMatcher : option (matcherT U)) (gz : gzFile) (pUserData : U) (e : entry)
  : option (loop_step U) :=
  let after := advance gz (length (tar_entry e)) in
  if unsafe_path (fst e) then
    Some (Next after pUserData [WarnUnsafePath (fst e)])
  else if bIsInDirectory (fst e) szTargetDir then
    match base_name (fst e) with
    | [] => Some (Next after pUserData [])
    | c :: b =>
        let '(bExtract, pUserData, ev) :=
          match pfnMatcher with
          | Some f => f (c :: b) pUserData
          | None => (true, pUserData, [])
          end in
        if negb bExtract then Some (Next after pUserData ev)
        else
          out <- report_fields (snd e) ;;
          Some (Exit 0 pUserData (ev ++ out))
    end
  else Some (Next after pUserData []).

Lemma padded_blocks (len : nat) :
  Z.of_nat ((len + 511) / 512 * 512) = (Z.of_nat len + 511) / 512 * 512.
Proof.
  rewrite Nat2Z.inj_mul, Nat2Z.inj_div, Nat2Z.inj_add. reflexivity.
Qed.

Lemma tar_entry_length (e : entry) :
  length (tar_entry e) = (512 + (length (snd e) + 511) / 512 * 512)%nat.
Proof.
  unfold tar_entry, tar_file. cbv zeta.
  rewrite length_app, tar_header_length, pad_to_length. reflexivity.
Qed.

Lemma tar_step_entry {U : Type} (szTargetDir : list ascii)
  (pfnMatcher : option (matcherT U)) (gz : gzFile) (u : U) (e : entry)
  (post : list ascii) :
  entry_ok e ->
  skipn (gz_pos gz) (gz_data gz) = tar_entry e ++ post ->
  tar_step szTargetDir pfnMatcher gz u
  = step_on_entry szTargetDir pfnMatcher gz u e.
Proof.
  destruct e as [name content]. unfold entry_ok. cbn [fst snd].
  intros [Hz [Hne [Hlen Hsize]]] Hav.
  set (n := Z.of_nat (length content)).
  set (K := ((length content + 511) / 512 * 512)%nat).
  assert (HK : Z.of_nat K = (n + 511) / 512 * 512) by apply padded_blocks.
  assert (Hn : 0 <= n) by apply Nat2Z.is_nonneg.
  change (2 ^ 31) with 2147483648 in Hsize. fold n in Hsize.
  assert (Hup : n <= (n + 511) / 512 * 512 <= n + 511).
  { pose proof (Z.div_mod (n + 511) 512 ltac:(lia)) as Hdm.
    pose proof (Z.mod_pos_bound (n + 511) 512 ltac:(lia)) as Hm. lia. }
  set (hdr := tar_header name (octal_of 11 n) "0").
  assert (Hav0 : skipn (gz_pos gz) (gz_data gz)
                 = hdr ++ (pad_to K content ++ post)).
  { rewrite Hav. unfold tar_entry, tar_file. cbn [fst snd]. cbv zeta.
    rewrite <- app_assoc. reflexivity. }
  unfold tar_step, step_on_entry. cbn [fst snd].
  change (Z.to_nat TAR_BLOCK_SIZE) with 512%nat.
  rewrite (gzread_available gz 512 hdr _ Hav0 (tar_header_length _ _ _)).
  change (negb (Z.of_nat 512 =? TAR_BLOCK_SIZE)) with false. cbv iota.
  unfold hdr at 1. rewrite (tar_header_first name _ _ Hz Hne).
  unfold hdr at 1. rewrite (tar_header_name name _ _ Hz Hlen). cbn [bind].
  unfold hdr at 1 2.
  rewrite (tar_header_size_value name "0" n)
    by (change (2 ^ ULONG_BITS) with 4294967296; lia).
  cbn [bind].
  rewrite (nBlocks_of_small n Hn)
    by (change (2 ^ ULONG_BITS) with 4294967296; lia).
  unfold hdr. rewrite tar_header_typeflag.
  rewrite Ascii.eqb_refl. cbn [orb andb].
  set (gz1 := mkGz (gz_data gz) (gz_damaged gz) (gz_pos gz + 512) (gz_eof gz)).
  assert (Hseek : gzseek gz1 ((n + 511) / 512 * TAR_BLOCK_SIZE)
                  = Some (advance gz (length (tar_entry (name, content))))).
  { unfold gzseek, TAR_BLOCK_SIZE, LONG_MAX.
    change (2 ^ 31) with 2147483648.
    destruct (Z.leb_spec 0 ((n + 511) / 512 * 512)); [|lia].
    destruct (Z.leb_spec ((n + 511) / 512 * 512) (2147483648 - 1)); [|lia].
    cbn [andb]. unfold advance, gz1. cbn [gz_data gz_damaged gz_pos gz_eof].
    rewrite tar_entry_length. cbn [snd]. fold K.
    rewrite <- HK, Nat2Z.id, Nat.add_assoc. reflexivity. }
  rewrite Hseek. cbn [bind].
  destruct (unsafe_path name); [reflexivity|].
  destruct (bIsInDirectory name szTargetDir); [|reflexivity].
  destruct (base_name name) as [|c b]; [reflexivity|].
  destruct (match pfnMatcher with
            | Some f => f (c :: b) u
            | None => (true, u, [])
            end) as [[ok u'] ev].
  destruct (negb ok); [reflexivity|].
  rewrite ulong_small by (change (2 ^ ULONG_BITS) with 4294967296; lia).
  destruct (Z.eqb_spec (n + 1) 0); [lia|].
  assert (Hav1 : skipn (gz_pos gz1) (gz_data gz1)
                 = content ++ (repeat NUL (K - length content) ++ post)).
  { unfold gz1. cbn [gz_pos gz_data].
    pose proof (skipn_more (gz_data gz) hdr _ (gz_pos gz) Hav0) as H.
    unfold hdr in H at 1. rewrite tar_header_length in H. rewrite H.
    rewrite (pad_to_short K content) by lia.
    rewrite <- app_assoc. reflexivity. }
  unfold n at 2.
  rewrite (read_content_all _ gz1 content _ [] Hav1).
  - cbn [bind app]. reflexivity.
  - fold n. unfold CHUNK.
    assert (Hc : (n + (16384 - 1)) / 16384 <= n / 16384 + 1).
    { replace (n + (16384 - 1)) with ((n - 1) + 1 * 16384) by lia.
      rewrite Z.div_add by lia.
      assert ((n - 1) / 16384 <= n / 16384)
        by (apply Z.div_le_mono; lia).
      lia. }
    assert (0 <= n / 16384) by (apply Z.div_pos; lia).
    assert (0 <= (n + (16384 - 1)) / 16384) by (apply Z.div_pos; lia).
    lia.
Qed.

(* ----------------------------------------------------------------- *)
(** ** The loop on a list of entries *)

(** The bytes of an archive: its entries, then two blocks of NULs. *)
Definition tar_archive (es : list entry) : list ascii :=
  concat (map tar_entry es) ++ tar_end.

(** The scan of a list of entries, as the reader does it: an entry with a
    parent-directory path is warned about; an entry outside the directory,
    or with an empty base name, is passed over; the matcher is asked about
    the others, and the first entry it accepts is reported, which ends the
    scan. *)
Fixpoint scan {U : Type} (szTargetDir : list ascii)
  (pfnMatcher : option (matcherT U)) (pUserData : U) (log : list event)
  (es : list entry) : option (Z * U * list event) :=
  match es with
  | [] => Some (0, pUserData, log)
  | e :: es' =>
      if unsafe_path (fst e) then
        scan szTargetDir pfnMatcher pUserData
          (log ++ [WarnUnsafePath (fst e)]) es'
      else if bIsInDirectory (fst e) szTargetDir then
        match base_name (fst e) with
        | [] => scan szTargetDir pfnMatcher pUserData (log ++ []) es'
        | c :: b =>
            let '(bExtract, pUserData, ev) :=
              match pfnMatcher with
              | Some f => f (c :: b) pUserData
              | None => (true, pUserData, [])
              end in
            if negb bExtract
            then scan szTargetDir pfnMatcher pUserData (log ++ ev) es'
            else
              out <- report_fields (snd e) ;;
              Some (0, pUserData, log ++ ev ++ out)
        end
      else scan szTargetDir pfnMatcher pUserData (log ++ []) es'
  end.

Lemma tar_step_end {U : Type} (szTargetDir : list ascii)
  (pfnMatcher : option (matcherT U)) (gz : gzFile) (u : U) (post : list ascii) :
  skipn (gz_pos gz) (gz_data gz) = tar_end ++ post ->
  tar_step szTargetDir pfnMatcher gz u = Some (Exit 0 u []).
Proof.
  intros Hav. unfold tar_step.
  change (Z.to_nat TAR_BLOCK_SIZE) with 512%nat.
  assert (Hav0 : skipn (gz_pos gz) (gz_data gz)
                 = repeat NUL 512 ++ (repeat NUL 512 ++ post)).
  { rewrite Hav. unfold tar_end. change 1024%nat with (512 + 512)%nat.
    rewrite repeat_app, <- app_assoc. reflexivity. }
  rewrite (gzread_available gz 512 (repeat NUL 512) _ Hav0 (repeat_length _ _)).
  change (negb (Z.of_nat 512 =? TAR_BLOCK_SIZE)) with false. cbv iota.
  change (Ascii.eqb (nth 0 (repeat NUL 512) NUL) NUL) with true. cbv iota.
  destruct (gzread _ 512) as [[? ?] ?]. reflexivity.
Qed.

Lemma tar_loop_entries {U : Type} (szTargetDir : list ascii)
  (pfnMatcher : option (matcherT U)) :
  forall (es : list entry) (gz : gzFile) (u : U) (log : list event)
         (post : list ascii) (fuel : nat),
  Forall entry_ok es ->
  skipn (gz_pos gz) (gz_data gz) = tar_archive es ++ post ->
  (length es < fuel)%nat ->
  tar_loop szTargetDir pfnMatcher fuel gz u log
  = scan szTargetDir pfnMatcher u log es.
Proof.
  induction es as [|e es IH]; intros gz u log post fuel Hok Hav Hfuel;
    (destruct fuel as [|fuel]; [lia|]); cbn [tar_loop scan].
  - rewrite (tar_step_end szTargetDir pfnMatcher gz u post Hav).
    cbn [bind]. rewrite app_nil_r. reflexivity.
  - assert (Hav' : skipn (gz_pos gz) (gz_data gz)
                   = tar_entry e ++ (tar_archive es ++ post)).
    { rewrite Hav. unfold tar_archive. cbn [map concat].
      rewrite <- !app_assoc. reflexivity. }
    rewrite (tar_step_entry szTargetDir pfnMatcher gz u e _
               (Forall_inv Hok) Hav').
    unfold step_on_entry.
    assert (Hnext : forall u' log',
              tar_loop szTargetDir pfnMatcher fuel
                (advance gz (length (tar_entry e))) u' log'
              = scan szTargetDir pfnMatcher u' log' es).
    { intros u' log'. apply (IH _ u' log' post fuel (Forall_inv_tail Hok)).
      - unfold advance. cbn [gz_pos gz_data].
        exact (skipn_more _ _ _ _ Hav').
      - cbn [length] in Hfuel. lia. }
    destruct (unsafe_path (fst e)); cbn [bind]; [apply Hnext|].
    destruct (bIsInDirectory (fst e) szTargetDir); cbn [bind]; [|apply Hnext].
    destruct (base_name (fst e)) as [|c b]; cbn [bind]; [apply Hnext|].
    destruct (match pfnMatcher with
              | Some f => f (c :: b) u
              | None => (true, u, [])
              end) as [[ok u'] ev].
    destruct (negb ok); cbn [bind]; [apply Hnext|].
    destruct (report_fields (snd e)) as [out|]; cbn [bind]; [|reflexivity].
    rewrite app_assoc. reflexivity.
Qed.

Lemma tar_loop_more_fuel {U : Type} (szTargetDir : list ascii)
  (pfnMatcher : option (matcherT U)) (k : nat) :
  forall fuel gz (u : U) log res,
  tar_loop szTargetDir pfnMatcher fuel gz u log = Some res ->
  tar_loop szTargetDir pfnMatcher (fuel + k) gz u log = Some res.
Proof.
  induction fuel as [|fuel IH]; intros gz u log res H;
    cbn [tar_loop Nat.add] in *; [discriminate|].
  destruct (tar_step szTargetDir pfnMatcher gz u) as [[g' u' ev|r u' ev]|];
    cbn [bind] in *; [apply IH; exact H | exact H | discriminate].
Qed.

Lemma tar_archive_length (es : list entry) :
  (512 * length es + 1024 <= length (tar_archive es))%nat.
Proof.
  unfold tar_archive. rewrite length_app.
  change (length tar_end) with 1024%nat.
  induction es as [|e es IH]; cbn [map concat length]; [lia|].
  rewrite length_app, tar_entry_length in *. lia.
Qed.

(** X18.  On an archive made of well-formed entries (a header block with
    the path, the size in octal and the type of a regular file; the content
    padded to whole blocks) and closed by two blocks of NULs, one call of
    the reader is the scan of the list of entries: it walks from header to
    header, whatever the contents hold, asks the matcher about the base
    name of each entry of the directory in the order of the archive, and
    reports the content of the first entry the matcher accepts.  The result
    does not depend on what follows the closing blocks, nor on the state of
    the compressed file. *)
Theorem reader_scans_the_entries {U : Type} (szTargetDir : list ascii)
  (pfnMatcher : option (matcherT U)) (es : list entry) (trailer : list ascii)
  (damaged : bool) (pUserData : U) :
  Forall entry_ok es ->
  nExtractFromTargzWithCallback szTargetDir pfnMatcher
    (Some (mkArchive (tar_archive es ++ trailer) damaged)) pUserData
  = scan szTargetDir pfnMatcher pUserData [] es.
Proof.
  intros Hok. unfold nExtractFromTargzWithCallback, gzopen.
  cbn [ar_bytes ar_damaged].
  apply (tar_loop_entries szTargetDir pfnMatcher es _ pUserData [] trailer).
  - exact Hok.
  - reflexivity.
  - unfold tar_fuel. cbn [gz_data].
    change (Z.to_nat TAR_BLOCK_SIZE) with 512%nat.
    pose proof (tar_archive_length es) as Hlen.
    rewrite length_app.
    assert (Hdiv : (length es + 2 <= (length (tar_archive es) + length trailer) / 512)%nat).
    { apply Nat.div_le_lower_bound; lia. }
    lia.
Qed.

Lemma reader_scans_the_entries_witness :
  nExtractFromTargzWithCallback TARGET_DIR (Some recorder)
    (Some (mkArchive
             (tar_archive [(str "logs/../x", str "abc");
                           (bdc_path "2025-05-14_20:30:45", str "A,B")]
              ++ str "trailing bytes") true)) []
  = Some (0, [str "BDC_Daily_version_2025-05-14_20:30:45.csv"],
          [WarnUnsafePath (str "logs/../x")]).
Proof.
  rewrite (reader_scans_the_entries TARGET_DIR (Some recorder)
             [(str "logs/../x", str "abc");
              (bdc_path "2025-05-14_20:30:45", str "A,B")]
             (str "trailing bytes") true []).
  - vm_compute. reflexivity.
  - repeat constructor; try discriminate; cbn; lia.
Defined.

(* ----------------------------------------------------------------- *)
(** ** The two passes on a list of entries *)

(** The name under which the matcher is asked about an entry, if it is. *)
Definition entry_name (szTargetDir : list ascii) (e : entry)
  : option (list ascii) :=
  if unsafe_path (fst e) then None
  else if bIsInDirectory (fst e) szTargetDir then
    match base_name (fst e) with
    | [] => None
    | c :: b => Some (c :: b)
    end
  else None.

(** The warnings printed for a list of entries. *)
Definition warnings (es : list entry) : list event :=
  flat_map (fun e => if unsafe_path (fst e)
                     then [WarnUnsafePath (fst e)] else []) es.

Lemma scan_declining {U : Type} (szTargetDir : list ascii) (f : matcherT U) :
  (forall name u, fst (fst (f name u)) = false) ->
  (forall name u, quiet (snd (f name u))) ->
  forall es u log,
  quiet log ->
  exists log',
    scan szTargetDir (Some f) u log es
    = Some (0, fold_left (seen_by U f)
                 (filter_map (entry_name szTargetDir) es) u, log')
    /\ quiet log'.
Proof.
  intros Hdec Hq. induction es as [|e es IH]; intros u log Hlog;
    cbn [scan filter_map fold_left].
  - exists log. split; [reflexivity | exact Hlog].
  - unfold entry_name at 1.
    destruct (unsafe_path (fst e)).
    { apply IH. apply quiet_app; [exact Hlog | reflexivity]. }
    destruct (bIsInDirectory (fst e) szTargetDir).
    2:{ apply IH. apply quiet_app; [exact Hlog | reflexivity]. }
    destruct (base_name (fst e)) as [|c b].
    { apply IH. apply quiet_app; [exact Hlog | reflexivity]. }
    cbn [fold_left]. unfold seen_by at 2.
    pose proof (Hdec (c :: b) u) as Hd. pose proof (Hq (c :: b) u) as Hev.
    destruct (f (c :: b) u) as [[ok u'] ev]. cbn [fst snd] in *. subst ok.
    cbn [negb]. apply IH. apply quiet_app; assumption.
Qed.

Lemma scan_extract (szTargetDir : list ascii) (stData : matcherDataT) :
  forall es log,
  (exists e, In e es
             /\ entry_name szTargetDir e
                = Some (szFilename (stLatestFile stData))) ->
  exists pre e post,
    es = pre ++ e :: post
    /\ entry_name szTargetDir e = Some (szFilename (stLatestFile stData))
    /\ Forall (fun x => entry_name szTargetDir x
                        <> Some (szFilename (stLatestFile stData))) pre
    /\ scan szTargetDir (Some bExtractLatestFileMatcher) stData log es
       = (out <- report_fields (snd e) ;;
          Some (0, stData, log ++ warnings pre ++ out)).
Proof.
  induction es as [|x es IH]; intros log [e [Hin He]]; [destruct Hin|].
  assert (Hdec : {entry_name szTargetDir x
                  = Some (szFilename (stLatestFile stData))}
                 + {entry_name szTargetDir x
                    <> Some (szFilename (stLatestFile stData))}).
  { decide equality. apply (list_eq_dec ascii_dec). }
  destruct Hdec as [Hx|Hx].
  - exists [], x, es. split; [reflexivity|]. split; [exact Hx|].
    split; [constructor|].
    cbn [scan warnings flat_map app]. unfold entry_name in Hx.
    destruct (unsafe_path (fst x)); [discriminate|].
    destruct (bIsInDirectory (fst x) szTargetDir); [|discriminate].
    destruct (base_name (fst x)) as [|c b]; [discriminate|].
    injection Hx as Hx. unfold bExtractLatestFileMatcher.
    rewrite Hx. rewrite (proj2 (list_eqb_eq _ _) eq_refl). cbn [negb].
    reflexivity.
  - assert (Hrest : exists e, In e es
                      /\ entry_name szTargetDir e
                         = Some (szFilename (stLatestFile stData))).
    { exists e. split; [|exact He]. destruct Hin as [<-|Hin];
        [contradiction | exact Hin]. }
    assert (Hgo : forall ev,
              ev = (if unsafe_path (fst x)
                    then [WarnUnsafePath (fst x)] else []) ->
              scan szTargetDir (Some bExtractLatestFileMatcher) stData log
                (x :: es)
              = scan szTargetDir (Some bExtractLatestFileMatcher) stData
                  (log ++ ev) es).
    { intros ev ->. cbn [scan]. unfold entry_name in Hx.
      destruct (unsafe_path (fst x)); [reflexivity|].
      destruct (bIsInDirectory (fst x) szTargetDir); [|reflexivity].
      destruct (base_name (fst x)) as [|c b]; [reflexivity|].
      unfold bExtractLatestFileMatcher.
      destruct (list_eqb (c :: b) (szFilename (stLatestFile stData))) eqn:E.
      - apply list_eqb_eq in E. rewrite E in Hx. congruence.
      - cbn [negb]. reflexivity. }
    rewrite (Hgo _ eq_refl).
    destruct (IH (log ++ (if unsafe_path (fst x)
                          then [WarnUnsafePath (fst x)] else [])) Hrest)
      as [pre [e' [post [-> [He' [Hpre Hscan]]]]]].
    exists (x :: pre), e', post. split; [reflexivity|]. split; [exact He'|].
    split; [constructor; assumption|].
    rewrite Hscan.
    destruct (report_fields (snd e')) as [out|]; cbn [bind]; [|reflexivity].
    cbn [warnings flat_map]. rewrite <- !app_assoc. reflexivity.
Qed.

Lemma reader_on_archive {U : Type} (szTargetDir : list ascii)
  (pfnMatcher : option (matcherT U)) (es : list entry) (trailer : list ascii)
  (damaged : bool) (u : U) :
  Forall entry_ok es ->
  nExtractFromTargzWithCallback szTargetDir pfnMatcher
    (Some (mkArchive (tar_archive es ++ trailer) damaged)) u
  = scan szTargetDir pfnMatcher u [] es.
Proof.
  intros Hok. unfold nExtractFromTargzWithCallback, gzopen.
  cbn [ar_bytes ar_damaged].
  apply (tar_loop_entries szTargetDir pfnMatcher es _ u [] trailer _ Hok);
    [reflexivity|].
  unfold tar_fuel. cbn [gz_data].
  change (Z.to_nat TAR_BLOCK_SIZE) with 512%nat.
  pose proof (tar_archive_length es) as Hlen. rewrite length_app.
  assert (Hdiv : (length es + 2
                  <= (length (tar_archive es) + length trailer) / 512)%nat)
    by (apply Nat.div_le_lower_bound; lia).
  lia.
Qed.

Lemma report_fields_text (content : list ascii) :
  report_fields content = report_of (c_text content).
Proof.
  unfold report_fields, report_of.
  set (text := c_text content).
  set (buf := repeat NUL (Z.to_nat MAX_BUFFER_SIZE)).
  assert (Hbuf : MAX_BUFFER_SIZE = Z.of_nat (length buf)).
  { unfold buf. rewrite repeat_length. reflexivity. }
  assert (Ht : nonul text) by apply c_text_nonul.
  set (m0 := [content ++ [NUL]; buf; buf]).
  assert (Hc0 : cstring_at m0 (0%nat, 0) = Some text) by apply cstr_c_text.
  pose proof (nGetCSVDataByColName_spec m0 0 0 1 [] buf [] (-1)
                (str "TimeStamp") text MAX_BUFFER_SIZE Hc0 (le_S _ _ (le_n 2))
                (fun H => O_S 0 (eq_sym H)) eq_refl Hbuf eq_refl) as H1.
  change (Z.of_nat (length (@nil ascii))) with 0 in H1.
  rewrite H1. clear H1.
  destruct (csv_lookup MAX_BUFFER_SIZE text (-1) (str "TimeStamp"))
    as [[r1 ts]|] eqn:L1; cbn [bind]; [|reflexivity].
  destruct (negb (r1 =? 0)); [reflexivity|].
  set (B1 := [] ++ ts ++ NUL :: skipn (S (length ts)) buf ++ []).
  change (set_block m0 1 B1 ++ [[]]) with [content ++ [NUL]; B1; buf; []].
  set (m1 := [content ++ [NUL]; B1; buf; []]).
  assert (Hc1 : cstring_at m1 (0%nat, 0) = Some text) by apply cstr_c_text.
  pose proof (nGetCSVDataByColName_spec m1 0 0 2 [] buf [] (-1)
                (str "CycleCount") text MAX_BUFFER_SIZE Hc1 (le_S _ _ (le_n 3))
                (fun H => O_S 1 (eq_sym H)) eq_refl Hbuf eq_refl) as H2.
  change (Z.of_nat (length (@nil ascii))) with 0 in H2.
  rewrite H2. clear H2.
  destruct (csv_lookup MAX_BUFFER_SIZE text (-1) (str "CycleCount"))
    as [[r2 cc]|] eqn:L2; cbn [bind]; [|reflexivity].
  destruct (negb (r2 =? 0)); [reflexivity|].
  set (B2 := [] ++ cc ++ NUL :: skipn (S (length cc)) buf ++ []).
  change (set_block m1 2 B2 ++ [[]]) with [content ++ [NUL]; B1; B2; []; []].
  assert (Hts : cstring_at [content ++ [NUL]; B1; B2; []; []] (1%nat, 0)
                = Some ts).
  { apply (cstr_nonul ts).
    exact (csv_lookup_nonul _ _ _ _ _ _ Ht L1). }
  assert (Hcc : cstring_at [content ++ [NUL]; B1; B2; []; []] (2%nat, 0)
                = Some cc).
  { apply (cstr_nonul cc).
    exact (csv_lookup_nonul _ _ _ _ _ _ Ht L2). }
  rewrite Hts, Hcc. reflexivity.
Qed.

(** X19.  The whole program on an archive of well-formed entries.  Let the
    names be the base names of the entries of the directory with a safe
    path, in the order of the archive, and the candidates those names that
    have the prefix and a date that is parsed.  If there is a candidate,
    the program finds the first candidate of greatest timestamp in its
    first pass and prints its name; its second pass stops at the first
    entry of the archive that has this base name and looks up, in the last
    row of the content of that entry (read up to its first NUL), the field
    [TimeStamp] and then the field [CycleCount].  What the program gives is
    what these two lookups give: when both return 0 it prints the report of
    the two values and returns 0; when one of them returns an error code it
    prints the message of that field in place of the report and returns 0
    all the same; and when a lookup has no result (a content without line
    feed whose header holds the column) the program has none.  Before that
    last event the log of the second pass holds nothing but the warnings of
    the unsafe paths passed. *)
Theorem program_reports_the_latest_entry (mktime : tmT -> Z)
  (szTargetDir : list ascii) (es : list entry) (trailer : list ascii)
  (damaged : bool) :
  Forall entry_ok es ->
  let names := filter_map (entry_name szTargetDir) es in
  let cands := filter_map (candidate mktime BDC_PREFIX) names in
  cands <> [] ->
  exists best pre e post log1,
    first_latest cands best
    /\ es = pre ++ e :: post
    /\ entry_name szTargetDir e = Some (szFilename best)
    /\ Forall (fun x => entry_name szTargetDir x <> Some (szFilename best)) pre
    /\ quiet log1
    /\ (let text := c_text (snd e) in
        let run :=
          nExtractLatestBdcDailyFile mktime
            (Some (mkArchive (tar_archive es ++ trailer) damaged)) szTargetDir in
        let log :=
          OutParsing :: log1 ++ [OutLatest (szFilename best); OutChecking]
                     ++ warnings pre in
        run = (out <- report_of text ;; Some (0, log ++ out))
        /\ (forall ts cc,
              csv_lookup MAX_BUFFER_SIZE text (-1) (str "TimeStamp")
              = Some (0, ts) ->
              csv_lookup MAX_BUFFER_SIZE text (-1) (str "CycleCount")
              = Some (0, cc) ->
              run = Some (0, log ++ [OutReport cc ts]))
        /\ (forall r v, r <> 0 ->
              csv_lookup MAX_BUFFER_SIZE text (-1) (str "TimeStamp")
              = Some (r, v) ->
              run = Some (0, log ++ [ErrTimestamp]))
        /\ (forall ts r v, r <> 0 ->
              csv_lookup MAX_BUFFER_SIZE text (-1) (str "TimeStamp")
              = Some (0, ts) ->
              csv_lookup MAX_BUFFER_SIZE text (-1) (str "CycleCount")
              = Some (r, v) ->
              run = Some (0, log ++ [ErrCycleCount]))
        /\ (csv_lookup MAX_BUFFER_SIZE text (-1) (str "TimeStamp") = None ->
            run = None)).
Proof.
  intros Hok names cands Hne.
  set (stData0 := mkMatcherData BDC_PREFIX zero_fileDate false).
  destruct (scan_declining szTargetDir (bLatestBdcDailyMatcher mktime)
              (matcher_declines mktime) (matcher_events mktime)
              es stData0 [] eq_refl) as [log1 [Hpass1 Hq1]].
  change (fold_left (seen_by matcherDataT (bLatestBdcDailyMatcher mktime))
            (filter_map (entry_name szTargetDir) es) stData0)
    with (fold_left (observe mktime) names stData0) in Hpass1.
  rewrite (observe_fold mktime names stData0 eq_refl) in Hpass1.
  change (filter_map (candidate mktime (szPrefix stData0)) names) with cands
    in Hpass1.
  change (latest_of stData0) with (@None fileDateT) in Hpass1.
  destruct (pick_fold_first cands Hne) as [best [Hpick Hbest]].
  rewrite Hpick in Hpass1. cbn [keep szPrefix stData0] in Hpass1.
  set (stData := mkMatcherData BDC_PREFIX best true) in *.
  assert (Hentry : exists e, In e es
                     /\ entry_name szTargetDir e
                        = Some (szFilename (stLatestFile stData))).
  { destruct (filter_map_In _ _ _ (first_latest_In _ _ Hbest))
      as [name [Hin Hc]].
    destruct (filter_map_In _ _ _ Hin) as [e [He Hn]].
    exists e. split; [exact He|]. cbn [stData stLatestFile].
    rewrite (candidate_filename mktime BDC_PREFIX name best Hc). exact Hn. }
  destruct (scan_extract szTargetDir stData es [] Hentry)
    as [pre [e [post [Hes [He [Hpre Hpass2]]]]]].
  exists best, pre, e, post, log1.
  split; [exact Hbest|]. split; [exact Hes|]. split; [exact He|].
  split; [exact Hpre|]. split; [exact Hq1|].
  cbv zeta.
  assert (Hrun :
    nExtractLatestBdcDailyFile mktime
      (Some (mkArchive (tar_archive es ++ trailer) damaged)) szTargetDir
    = (out <- report_of (c_text (snd e)) ;;
       Some (0, (OutParsing :: log1
                   ++ [OutLatest (szFilename best); OutChecking]
                   ++ warnings pre) ++ out))).
  { unfold nExtractLatestBdcDailyFile. fold stData0.
    rewrite (reader_on_archive szTargetDir _ es trailer damaged stData0 Hok).
    rewrite Hpass1. cbn [bind]. cbn [Z.eqb negb bFoundMatch stData].
    fold stData.
    rewrite (reader_on_archive szTargetDir _ es trailer damaged stData Hok).
    rewrite Hpass2. rewrite (report_fields_text (snd e)).
    destruct (report_of (c_text (snd e))) as [out|]; cbn [bind];
      [|reflexivity].
    cbn [app]. rewrite <- !app_assoc. reflexivity. }
  split; [exact Hrun|].
  split; [|split; [|split]].
  - intros ts cc H1 H2. rewrite Hrun. unfold report_of.
    rewrite H1. cbn [bind Z.eqb negb]. rewrite H2. reflexivity.
  - intros r v Hr H1. rewrite Hrun. unfold report_of.
    rewrite H1. cbn [bind].
    destruct (Z.eqb_spec r 0) as [E|_]; [contradiction|]. reflexivity.
  - intros ts r v Hr H1 H2. rewrite Hrun. unfold report_of.
    rewrite H1. cbn [bind Z.eqb negb]. rewrite H2. cbn [bind].
    destruct (Z.eqb_spec r 0) as [E|_]; [contradiction|]. reflexivity.
  - intros H1. rewrite Hrun. unfold report_of. rewrite H1. reflexivity.
Qed.

Lemma program_reports_the_latest_entry_witness :
  exists log,
    nExtractLatestBdcDailyFile mktime_utc
      (Some (mkArchive
               (tar_archive
                  [(bdc_path "2025-05-12_20:30:45",
                    bdc_csv "2025-05-12 20:15:23" "251");
                   (bdc_path "2025-05-14_20:30:45",
                    bdc_csv "2025-05-14 20:15:23" "253")] ++ []) false))
      TARGET_DIR
    = Some (0, log)
    /\ In (OutReport (str "253") (str "2025-05-14 20:15:23")) log.
Proof.
  set (es := [(bdc_path "2025-05-12_20:30:45",
               bdc_csv "2025-05-12 20:15:23" "251");
              (bdc_path "2025-05-14_20:30:45",
               bdc_csv "2025-05-14 20:15:23" "253")]).
  assert (Hok : Forall entry_ok es)
    by (repeat constructor; try discriminate; cbn; lia).
  assert (Hne : filter_map (candidate mktime_utc BDC_PREFIX)
                  (filter_map (entry_name TARGET_DIR) es) <> [])
    by (vm_compute; discriminate).
  destruct (program_reports_the_latest_entry mktime_utc TARGET_DIR es []
              false Hok Hne)
    as [best [pre [e [post [log1 [_ [_ [_ [_ [_ [Hrun _]]]]]]]]]]].
  destruct (nExtractLatestBdcDailyFile mktime_utc
              (Some (mkArchive (tar_archive es ++ []) false)) TARGET_DIR)
    as [[r log]|] eqn:Hval; [|vm_compute in Hval; discriminate].
  clear Hrun. vm_compute in Hval. injection Hval as <- <-.
  eexists. split; [reflexivity|]. cbn. tauto.
Defined.


(* ================================================================= *)
(** * Writing a table and reading it back *)

(** A character that neither cuts a field nor is trimmed from it. *)
Definition plain (c : ascii) : bool :=
  negb (Ascii.eqb c COMMA || Ascii.eqb c DQUOTE || Ascii.eqb c LF
        || Ascii.eqb c NUL || Ascii.eqb c SPACE || Ascii.eqb c TAB
        || Ascii.eqb c CR).

Definition plain_field (f : list ascii) : Prop :=
  Forall (fun c => plain c = true) f.

(** A character that may stand between two quotes. *)
Definition inner (c : ascii) : bool :=
  negb (Ascii.eqb c DQUOTE || Ascii.eqb c LF || Ascii.eqb c NUL).

(** A value that can be written between quotes and read back as it is: it
    may hold commas and spaces, but does not begin with a space or a tab
    nor end with a space, a tab or a carriage return. *)
Definition quotable (q : list ascii) : Prop :=
  Forall (fun c => inner c = true) q
  /\ match q with [] => True | c :: _ => is_lead c = false end
  /\ match rev q with [] => True | c :: _ => is_trail c = false end.

(** A cell of a table: a value written as it is, or between quotes, or
    written as it is and followed by a carriage return, as the last field
    of a line is in a file whose lines end with CR LF. *)
Inductive cell :=
| Plain (f : list ascii)
| Quoted (q : list ascii)
| PlainCR (f : list ascii).

Definition written (c : cell) : list ascii :=
  match c with
  | Plain f => f
  | Quoted q => DQUOTE :: q ++ [DQUOTE]
  | PlainCR f => f ++ [CR]
  end.

(** What is read back for a cell: the value written, but for an empty
    value followed by a carriage return, which is read as the carriage
    return. *)
Definition value (c : cell) : list ascii :=
  match c with
  | Plain f => f
  | Quoted q => q
  | PlainCR [] => [CR]
  | PlainCR f => f
  end.

Definition cell_ok (c : cell) : Prop :=
  match c with
  | Plain f => plain_field f
  | Quoted q => quotable q
  | PlainCR f => plain_field f
  end.

(** The fields of a line, written with commas between them. *)
Fixpoint join_fields (fs : list (list ascii)) : list ascii :=
  match fs with
  | [] => []
  | [f] => f
  | f :: fs' => f ++ COMMA :: join_fields fs'
  end.

Definition csv_line (cells : list cell) : list ascii :=
  join_fields (map written cells).

(** The rows of a table, each closed by a line feed. *)
Definition csv_rows (rows : list (list cell)) : list ascii :=
  concat (map (fun r => csv_line r ++ [LF]) rows).

Definition csv_text (header : list cell) (rows : list (list cell))
  : list ascii :=
  csv_line header ++ LF :: csv_rows rows.

Lemma plain_facts (c : ascii) :
  plain c = true ->
  Ascii.eqb c COMMA = false /\ Ascii.eqb c DQUOTE = false
  /\ Ascii.eqb c LF = false /\ Ascii.eqb c NUL = false
  /\ is_lead c = false /\ is_trail c = false.
Proof.
  unfold plain, is_lead, is_trail. intros H. apply negb_true_iff in H.
  repeat (apply orb_false_iff in H; destruct H as [H ?]).
  repeat split; try assumption;
    repeat (apply orb_false_iff; split); assumption.
Qed.

Lemma inner_facts (c : ascii) :
  inner c = true ->
  Ascii.eqb c DQUOTE = false /\ Ascii.eqb c LF = false
  /\ Ascii.eqb c NUL = false.
Proof.
  unfold inner. intros H. apply negb_true_iff in H.
  repeat (apply orb_false_iff in H; destruct H as [H ?]).
  repeat split; assumption.
Qed.

(** A written field that the tokenizer reads through without a cut, the
    quote flag being down before and after it. *)
Definition uncut (w : list ascii) : Prop :=
  forall tok rest,
  split_fields false tok (w ++ rest) = split_fields false (tok ++ w) rest.

Lemma uncut_plain (f : list ascii) : plain_field f -> uncut f.
Proof.
  unfold uncut. induction 1 as [|c f Hc _ IH]; intros tok rest; cbn [app].
  - rewrite app_nil_r. reflexivity.
  - cbn [split_fields].
    destruct (plain_facts c Hc) as [Hcomma [Hq _]].
    rewrite Hq, Hcomma. cbn [andb].
    rewrite IH, <- app_assoc. reflexivity.
Qed.

Lemma split_fields_inner (q : list ascii) :
  Forall (fun c => inner c = true) q ->
  forall tok rest,
  split_fields true tok (q ++ rest) = split_fields true (tok ++ q) rest.
Proof.
  induction 1 as [|c q Hc _ IH]; intros tok rest; cbn [app].
  - rewrite app_nil_r. reflexivity.
  - cbn [split_fields].
    destruct (inner_facts c Hc) as [Hq _].
    rewrite Hq. cbn [negb]. rewrite andb_false_r.
    rewrite IH, <- app_assoc. reflexivity.
Qed.

Lemma uncut_quoted (q : list ascii) :
  Forall (fun c => inner c = true) q -> uncut (DQUOTE :: q ++ [DQUOTE]).
Proof.
  intros Hq tok rest. cbn [app split_fields].
  rewrite Ascii.eqb_refl. cbn [negb].
  rewrite <- app_assoc. rewrite (split_fields_inner q Hq). cbn [app split_fields].
  rewrite Ascii.eqb_refl. cbn [negb].
  rewrite <- !app_assoc. reflexivity.
Qed.

Lemma written_uncut (c : cell) : cell_ok c -> uncut (written c).
Proof.
  destruct c as [f|q|f]; cbn [cell_ok written].
  - apply uncut_plain.
  - intros [Hq _]. apply uncut_quoted. exact Hq.
  - intros Hf tok rest. rewrite <- app_assoc.
    rewrite (uncut_plain f Hf). cbn [app split_fields].
    change (Ascii.eqb CR DQUOTE) with false.
    change (Ascii.eqb CR COMMA) with false. cbn [andb].
    rewrite <- !app_assoc. reflexivity.
Qed.

Lemma plain_chars (f : list ascii) : plain_field f -> nolf f /\ nonul f.
Proof.
  intros H. split; apply Forall_forall; intros x Hx;
    unfold plain_field in H; rewrite Forall_forall in H;
    destruct (plain_facts x (H x Hx)) as [_ [_ [Hlf [Hnul _]]]].
  - unfold not_lf. rewrite Hlf. reflexivity.
  - exact Hnul.
Qed.

Lemma written_chars (c : cell) :
  cell_ok c -> nolf (written c) /\ nonul (written c).
Proof.
  destruct c as [f|q|f]; cbn [cell_ok written].
  - apply plain_chars.
  - intros [H _].
    assert (Hq : nolf q /\ nonul q).
    { split; apply Forall_forall; intros x Hx; rewrite Forall_forall in H;
        destruct (inner_facts x (H x Hx)) as [_ [Hlf Hnul]].
      - unfold not_lf. rewrite Hlf. reflexivity.
      - exact Hnul. }
    destruct Hq as [H1 H2].
    split; (constructor; [reflexivity|]); apply Forall_app;
      (split; [assumption | constructor; [reflexivity | constructor]]).
  - intros H. destruct (plain_chars f H) as [H1 H2].
    split; apply Forall_app;
      (split; [assumption | constructor; [reflexivity | constructor]]).
Qed.

Lemma csv_fields_join (ws : list (list ascii)) :
  ws <> [] -> Forall uncut ws -> csv_fields (join_fields ws) = ws.
Proof.
  unfold csv_fields. induction ws as [|f fs IH]; intros Hne Hp; [congruence|].
  destruct fs as [|g fs].
  - cbn [join_fields]. rewrite <- (app_nil_r f) at 1.
    rewrite (Forall_inv Hp [] []). reflexivity.
  - change (join_fields (f :: g :: fs))
      with (f ++ COMMA :: join_fields (g :: fs)).
    rewrite (Forall_inv Hp [] _). cbn [split_fields app].
    change (Ascii.eqb COMMA DQUOTE) with false.
    rewrite Ascii.eqb_refl. cbn [andb negb].
    rewrite (IH ltac:(discriminate) (Forall_inv_tail Hp)). reflexivity.
Qed.

Lemma rstrip_keeps (r : list ascii) :
  match rev r with [] => True | c :: _ => is_trail c = false end ->
  rstrip r = r.
Proof.
  destruct r as [|c r] using rev_ind; [reflexivity|].
  rewrite rev_app_distr. cbn [rev app]. intros H.
  rewrite rstrip_snoc, H. reflexivity.
Qed.

Lemma rstrip_plain (r : list ascii) : plain_field r -> rstrip r = r.
Proof.
  intros H. apply rstrip_keeps.
  destruct (rev r) as [|d l] eqn:E; [exact I|].
  assert (Hd : In d r) by (apply in_rev; rewrite E; left; reflexivity).
  unfold plain_field in H. rewrite Forall_forall in H.
  exact (proj2 (proj2 (proj2 (proj2 (proj2 (plain_facts d (H d Hd))))))).
Qed.

Lemma trim_field_written (c : cell) :
  cell_ok c -> trim_field (written c) = value c.
Proof.
  destruct c as [f|q|f]; cbn [cell_ok written value].
  3:{ intros H. unfold trim_field. destruct f as [|c r]; [reflexivity|].
      cbn [app drop_while].
      destruct (plain_facts c (Forall_inv H)) as [_ [_ [_ [_ [Hl _]]]]].
      rewrite Hl. f_equal. rewrite rstrip_snoc.
      change (is_trail CR) with true. cbv iota.
      apply rstrip_plain. exact (Forall_inv_tail H). }
  - intros H. unfold trim_field. destruct f as [|c r]; [reflexivity|].
    cbn [drop_while].
    destruct (plain_facts c (Forall_inv H)) as [_ [_ [_ [_ [Hl _]]]]].
    rewrite Hl. f_equal. apply rstrip_plain. exact (Forall_inv_tail H).
  - intros [_ [Hhead Hlast]]. unfold trim_field. cbn [drop_while].
    change (is_lead DQUOTE) with true. cbv iota.
    destruct q as [|c r]; [reflexivity|].
    cbn [app drop_while]. rewrite Hhead. f_equal.
    rewrite rstrip_snoc. change (is_trail DQUOTE) with true. cbv iota.
    destruct r as [|d r'] using rev_ind; [reflexivity|].
    rewrite rstrip_snoc.
    cbn [rev] in Hlast. rewrite rev_app_distr in Hlast. cbn [rev app] in Hlast.
    rewrite Hlast. reflexivity.
Qed.

Lemma join_fields_chars (ws : list (list ascii)) :
  Forall (fun w => nolf w /\ nonul w) ws ->
  nolf (join_fields ws) /\ nonul (join_fields ws).
Proof.
  induction ws as [|f fs IH]; intros Hp; [split; constructor|].
  pose proof (Forall_inv Hp) as Hf.
  destruct fs as [|g fs]; [exact Hf|].
  change (join_fields (f :: g :: fs)) with (f ++ COMMA :: join_fields (g :: fs)).
  destruct (IH (Forall_inv_tail Hp)) as [H1 H2]. destruct Hf as [H3 H4].
  split; apply Forall_app; (split; [assumption|]);
    (constructor; [reflexivity | assumption]).
Qed.

Lemma csv_line_chars (cells : list cell) :
  Forall cell_ok cells -> nolf (csv_line cells) /\ nonul (csv_line cells).
Proof.
  intros H. apply join_fields_chars. apply Forall_map.
  apply (Forall_impl _ written_chars H).
Qed.

Lemma csv_line_fields (cells : list cell) :
  cells <> [] -> Forall cell_ok cells ->
  csv_fields (csv_line cells) = map written cells.
Proof.
  intros Hne H. apply csv_fields_join.
  - destruct cells; [congruence | discriminate].
  - apply Forall_map. apply (Forall_impl _ written_uncut H).
Qed.

Lemma csv_rows_nonul (rows : list (list cell)) :
  Forall (Forall cell_ok) rows -> nonul (csv_rows rows).
Proof.
  unfold csv_rows. induction 1 as [|r rows Hr _ IH]; cbn [map concat];
    [constructor|].
  apply nonul_app. split; [|exact IH]. apply nonul_app.
  split; [apply (csv_line_chars r Hr) | repeat constructor].
Qed.

Lemma csv_rows_cons (r : list cell) (rows : list (list cell)) :
  csv_rows (r :: rows) = csv_line r ++ LF :: csv_rows rows.
Proof. unfold csv_rows. cbn [map concat]. rewrite <- app_assoc. reflexivity. Qed.

Lemma skip_lines_rows (rows : list (list cell)) :
  Forall (Forall cell_ok) rows ->
  forall i, (i <= length rows)%nat ->
  skip_lines i (csv_rows rows) = Some (csv_rows (skipn i rows)).
Proof.
  induction 1 as [|r rows Hr _ IH]; intros i Hi.
  - destruct i; [reflexivity | cbn in Hi; lia].
  - destruct i as [|i]; [reflexivity|].
    cbn [skip_lines skipn]. rewrite csv_rows_cons.
    rewrite (after_line_line _ _ (proj1 (csv_line_chars r Hr))).
    apply IH. cbn [length] in Hi. lia.
Qed.

Lemma last_default {A : Type} (l : list A) (d d' : A) :
  l <> [] -> last l d = last l d'.
Proof.
  induction l as [|a l IH]; intros H; [congruence|].
  destruct l as [|b l]; [reflexivity|].
  change (last (b :: l) d = last (b :: l) d'). apply IH. discriminate.
Qed.

Lemma last_line_start_rows :
  forall (rows : list (list cell)) (r : list cell) (cur prev : list ascii),
  Forall (Forall cell_ok) (r :: rows) ->
  last_line_start (csv_rows (r :: rows)) cur prev
  = match rows with
    | [] => cur
    | _ :: _ => csv_line (last rows r) ++ [LF]
    end.
Proof.
  induction rows as [|r2 rows IH]; intros r cur prev Hp;
    rewrite csv_rows_cons;
    rewrite (last_line_start_line _ _ _ _
               (proj1 (csv_line_chars r (Forall_inv Hp)))).
  - reflexivity.
  - rewrite (IH r2 _ cur (Forall_inv_tail Hp)).
    destruct rows as [|r3 rows].
    + unfold csv_rows. cbn [map concat last]. rewrite app_nil_r. reflexivity.
    + change (last (r2 :: r3 :: rows) r) with (last (r3 :: rows) r).
      rewrite (last_default (r3 :: rows) r r2 ltac:(discriminate)).
      reflexivity.
Qed.

Lemma index_of_nodup (col : list ascii) :
  forall (names : list (list ascii)) (j : nat) (i : Z),
  NoDup names -> nth_error names j = Some col ->
  index_of col names i = i + Z.of_nat j.
Proof.
  induction names as [|s names IH]; intros j i Hnd Hj;
    [destruct j; discriminate|].
  cbn [index_of]. destruct j as [|j]; cbn [nth_error] in Hj.
  - injection Hj as ->. rewrite (proj2 (list_eqb_eq col col) eq_refl). lia.
  - destruct (list_eqb s col) eqn:E.
    + apply list_eqb_eq in E. subst s. apply NoDup_cons_iff in Hnd.
      destruct Hnd as [Hnot _]. elim Hnot. exact (nth_error_In _ _ Hj).
    + rewrite (IH j (i + 1)); [lia | | exact Hj].
      apply NoDup_cons_iff in Hnd. tauto.
Qed.

Lemma nth_error_skipn {A : Type} (l : list A) (i : nat) (x : A) :
  nth_error l i = Some x -> exists rest, skipn i l = x :: rest.
Proof.
  revert i. induction l as [|a l IH]; intros i H; [destruct i; discriminate|].
  destruct i as [|i]; cbn in *.
  - injection H as ->. exists l. reflexivity.
  - exact (IH i H).
Qed.

Lemma nth_error_is_last {A : Type} (l : list A) (i : nat) (x d : A) :
  nth_error l i = Some x -> S i = length l -> last l d = x.
Proof.
  revert i. induction l as [|a l IH]; intros i H Hlen;
    [destruct i; discriminate|].
  destruct i as [|i]; cbn [nth_error length] in *.
  - destruct l; [|discriminate]. injection H as ->. reflexivity.
  - destruct l as [|b l]; [destruct i; discriminate|].
    change (last (b :: l) d = x). apply (IH i H). cbn [length] in *. lia.
Qed.

Lemma header_names_line (header : list cell) :
  header <> [] -> Forall cell_ok header ->
  (length header <= Z.to_nat MAX_COLUMNS)%nat ->
  header_names (csv_line header) = map value header.
Proof.
  intros Hne Hp Hlen. unfold header_names.
  rewrite (csv_line_fields header Hne Hp).
  rewrite firstn_all2 by (rewrite length_map; exact Hlen).
  rewrite map_map. apply map_ext_in. intros c Hc.
  apply trim_field_written. rewrite Forall_forall in Hp. exact (Hp c Hc).
Qed.

(** X20.  Round trip of a table.  Write a header of distinct names (256 at
    most) and rows of values, with commas between the fields and a line
    feed after each line, each value either made of plain characters (no
    comma, quote, line feed, NUL, space, tab or carriage return) and
    written as it is, or written between double quotes (it may then hold
    commas and inner spaces, but no quote, line feed or NUL, and it does
    not begin or end with a character that is trimmed), or plain and
    followed by a carriage return (the last field of a line that ends with
    CR LF).  Then the call for the row [i] and the name of the column [j]
    returns 0 with the value [j] of the row [i], when the buffer is large
    enough for it, and the call for the last row does the same with the
    last row written; the one value that is not read back as written is
    the empty value followed by a carriage return, which is read as the
    carriage return. *)
Theorem getField_reads_back_the_table (n : Z)
  (header : list cell) (rows : list (list cell))
  (i j : nat) (h c : cell) (r : list cell) :
  Forall cell_ok header -> NoDup (map value header) ->
  (length header <= Z.to_nat MAX_COLUMNS)%nat ->
  Forall (Forall cell_ok) rows ->
  nth_error header j = Some h ->
  nth_error rows i = Some r ->
  nth_error r j = Some c ->
  Z.of_nat (length (value c)) < n ->
  getField_sized n (csv_text header rows) (Absolute i) (value h)
  = Some (0, value c)
  /\ (S i = length rows ->
      getField_sized n (csv_text header rows) Last (value h)
      = Some (0, value c)).
Proof.
  intros Hh Hnd Hlen Hrows Hj Hi Hc Hn.
  assert (Hpos : 0 < n) by lia.
  assert (Hhne : header <> []) by (intros ->; destruct j; discriminate).
  assert (Hrne : r <> []) by (intros ->; destruct j; discriminate).
  assert (Hr : Forall cell_ok r).
  { rewrite Forall_forall in Hrows. exact (Hrows r (nth_error_In _ _ Hi)). }
  assert (Hcok : cell_ok c).
  { rewrite Forall_forall in Hr. exact (Hr c (nth_error_In _ _ Hc)). }
  destruct (csv_line_chars header Hh) as [Hlf Hnul].
  assert (Ht : nonul (csv_text header rows)).
  { unfold csv_text. apply nonul_app. split; [exact Hnul|].
    constructor; [reflexivity | apply csv_rows_nonul; exact Hrows]. }
  assert (Hfield : field_result n (csv_line r) (Z.of_nat j) = (0, value c)).
  { unfold field_result.
    rewrite (csv_line_fields r Hrne Hr), Nat2Z.id.
    rewrite (map_nth_error written j r Hc).
    rewrite (trim_field_written c Hcok).
    destruct (Z.ltb_spec (Z.of_nat (length (value c))) n); [reflexivity | lia]. }
  assert (Hlook : forall nRow,
            select_row (csv_rows rows) nRow = Some (csv_line r) ->
            csv_lookup n (csv_text header rows) nRow (value h)
            = Some (0, value c)).
  { intros nRow Hrow. unfold csv_lookup, csv_text.
    rewrite (line_of_line _ _ Hlf), (after_line_line _ _ Hlf).
    rewrite (header_names_line header Hhne Hh Hlen).
    rewrite (index_of_nodup (value h) (map value header) j 0 Hnd
               (map_nth_error value j header Hj)).
    destruct (Z.eqb_spec (0 + Z.of_nat j) (-1)); [lia|].
    cbn [bind]. rewrite Hrow. rewrite Z.add_0_l. rewrite Hfield.
    reflexivity. }
  split.
  - rewrite (getField_sized_spec n _ (Absolute i) (value h) Ht Hpos).
    apply Hlook. unfold select_row, row_suffix. cbn [nRow_of].
    destruct (Z.leb_spec 0 (Z.of_nat i)); [|lia].
    rewrite Nat2Z.id.
    rewrite (skip_lines_rows rows Hrows i)
      by (apply Nat.lt_le_incl; apply nth_error_Some; congruence).
    destruct (nth_error_skipn rows i r Hi) as [rest ->].
    cbn [option_map]. rewrite csv_rows_cons.
    rewrite (line_of_line _ _ (proj1 (csv_line_chars r Hr))).
    reflexivity.
  - intros Hlast.
    rewrite (getField_sized_spec n _ Last (value h) Ht Hpos).
    apply Hlook. unfold select_row, row_suffix. cbn [nRow_of].
    cbn [Z.leb Z.eqb Z.compare Pos.eqb option_map].
    destruct rows as [|r0 rows']; [destruct i; discriminate|].
    rewrite (last_line_start_rows rows' r0 _ _ Hrows).
    pose proof (nth_error_is_last (r0 :: rows') i r r0 Hi Hlast) as Hl.
    destruct rows' as [|r1 rows''].
    + cbn [last] in Hl. subst r0. rewrite csv_rows_cons.
      rewrite (line_of_line _ _ (proj1 (csv_line_chars r Hr))).
      reflexivity.
    + change (last (r0 :: r1 :: rows'') r0) with (last (r1 :: rows'') r0) in Hl.
      rewrite Hl.
      change (csv_line r ++ [LF]) with (csv_line r ++ LF :: []).
      rewrite (line_of_line _ _ (proj1 (csv_line_chars r Hr))).
      reflexivity.
Qed.

Lemma getField_reads_back_the_table_witness :
  getField_sized 16
    (csv_text [Plain (str "A"); PlainCR (str "B")]
       [[Plain (str "t0"); PlainCR (str "251")];
        [Quoted (str "x, y"); PlainCR []]])
    (Absolute 1) (str "A")
  = Some (0, str "x, y")
  /\ getField_sized 16
       (csv_text [Plain (str "A"); PlainCR (str "B")]
          [[Plain (str "t0"); PlainCR (str "251")];
           [Quoted (str "x, y"); PlainCR []]])
       Last (str "B")
     = Some (0, [CR]).
Proof.
  assert (Hh : Forall cell_ok [Plain (str "A"); PlainCR (str "B")])
    by (repeat constructor).
  assert (Hnd : NoDup (map value [Plain (str "A"); PlainCR (str "B")])).
  { apply NoDup_cons; [intros [H|[]]; discriminate|].
    apply NoDup_cons; [intros [] | apply NoDup_nil]. }
  assert (Hrows : Forall (Forall cell_ok)
                    [[Plain (str "t0"); PlainCR (str "251")];
                     [Quoted (str "x, y"); PlainCR []]])
    by (repeat constructor).
  split.
  - exact (proj1 (getField_reads_back_the_table 16 _ _ 1 0
                    (Plain (str "A")) (Quoted (str "x, y"))
                    [Quoted (str "x, y"); PlainCR []]
                    Hh Hnd (proj1 (Nat.leb_le 2 256) eq_refl) Hrows
                    eq_refl eq_refl eq_refl eq_refl)).
  - exact (proj2 (getField_reads_back_the_table 16 _ _ 1 1
                    (PlainCR (str "B")) (PlainCR [])
                    [Quoted (str "x, y"); PlainCR []]
                    Hh Hnd (proj1 (Nat.leb_le 2 256) eq_refl) Hrows
                    eq_refl eq_refl eq_refl eq_refl) eq_refl).
Defined.

(* ----------------------------------------------------------------- *)
(** ** A text whose last line has no line feed *)

Lemma line_of_nolf (t : list ascii) : nolf t -> line_of t = t.
Proof.
  intros H. unfold line_of. rewrite <- (app_nil_r t) at 1.
  rewrite (take_while_app not_lf t [] H). apply app_nil_r.
Qed.

Lemma last_line_start_open :
  forall (rows : list (list cell)) (r : list cell) (t cur prev : list ascii),
  Forall (Forall cell_ok) (r :: rows) -> nolf t ->
  last_line_start (csv_rows (r :: rows) ++ t) cur prev
  = match rows with
    | [] => cur
    | _ :: _ => csv_line (last rows r) ++ LF :: t
    end.
Proof.
  induction rows as [|r2 rows IH]; intros r t cur prev Hp Ht;
    rewrite csv_rows_cons, <- app_assoc; cbn [app];
    rewrite (last_line_start_line _ _ _ _
               (proj1 (csv_line_chars r (Forall_inv Hp)))).
  - unfold csv_rows. cbn [map concat app].
    apply last_line_start_end. exact Ht.
  - rewrite (IH r2 t _ cur (Forall_inv_tail Hp) Ht).
    destruct rows as [|r3 rows].
    + rewrite csv_rows_cons. unfold csv_rows at 1. cbn [map concat last].
      rewrite <- app_assoc. reflexivity.
    + change (last (r2 :: r3 :: rows) r) with (last (r3 :: rows) r).
      rewrite (last_default (r3 :: rows) r r2 ltac:(discriminate)).
      reflexivity.
Qed.

Lemma skip_lines_open (rows : list (list cell)) (t : list ascii) :
  Forall (Forall cell_ok) rows ->
  skip_lines (length rows) (csv_rows rows ++ t) = Some t.
Proof.
  induction 1 as [|r rows Hr _ IH]; [reflexivity|].
  cbn [length skip_lines]. rewrite csv_rows_cons, <- app_assoc. cbn [app].
  rewrite (after_line_line _ _ (proj1 (csv_line_chars r Hr))). exact IH.
Qed.

(** X21.  When the text does not end with a line feed, the call for the
    last row ([nRow = -1]) does not read the line that is left open: it
    reads the last line that is closed by a line feed, and reads the open
    line only when no closed row comes before it.  The open line is read
    by its index, as the row after the closed ones. *)
Theorem last_row_skips_the_open_line (n : Z)
  (header : list cell) (rows : list (list cell)) (open : list cell)
  (j : nat) (h c : cell) :
  Forall cell_ok header -> NoDup (map value header) ->
  (length header <= Z.to_nat MAX_COLUMNS)%nat ->
  Forall (Forall cell_ok) rows -> Forall cell_ok open ->
  nth_error header j = Some h ->
  nth_error (last rows open) j = Some c ->
  Z.of_nat (length (value c)) < n ->
  getField_sized n (csv_text header rows ++ csv_line open) Last (value h)
  = Some (0, value c)
  /\ (forall c', nth_error open j = Some c' ->
        Z.of_nat (length (value c')) < n ->
        getField_sized n (csv_text header rows ++ csv_line open)
          (Absolute (length rows)) (value h)
        = Some (0, value c')).
Proof.
  intros Hh Hnd Hlen Hrows Hopen Hj Hc Hn.
  assert (Hpos : 0 < n) by lia.
  assert (Hhne : header <> []) by (intros ->; destruct j; discriminate).
  destruct (csv_line_chars header Hh) as [Hlf Hnul].
  destruct (csv_line_chars open Hopen) as [Holf Honul].
  assert (Htext : csv_text header rows ++ csv_line open
                  = csv_line header ++ LF :: (csv_rows rows ++ csv_line open)).
  { unfold csv_text. rewrite <- app_assoc. reflexivity. }
  assert (Ht : nonul (csv_text header rows ++ csv_line open)).
  { rewrite Htext. apply nonul_app. split; [exact Hnul|].
    constructor; [reflexivity|]. apply nonul_app.
    split; [apply csv_rows_nonul; exact Hrows | exact Honul]. }
  assert (Hfield : forall (r : list cell) (x : cell),
            Forall cell_ok r -> nth_error r j = Some x ->
            Z.of_nat (length (value x)) < n ->
            field_result n (csv_line r) (Z.of_nat j) = (0, value x)).
  { intros r x Hr Hx Hlx. unfold field_result.
    assert (Hrne : r <> []) by (intros ->; destruct j; discriminate).
    rewrite (csv_line_fields r Hrne Hr), Nat2Z.id.
    rewrite (map_nth_error written j r Hx).
    rewrite (trim_field_written x).
    - destruct (Z.ltb_spec (Z.of_nat (length (value x))) n);
        [reflexivity | lia].
    - rewrite Forall_forall in Hr. exact (Hr x (nth_error_In _ _ Hx)). }
  assert (Hlook : forall nRow (r : list cell) (x : cell),
            Forall cell_ok r -> nth_error r j = Some x ->
            Z.of_nat (length (value x)) < n ->
            select_row (csv_rows rows ++ csv_line open) nRow
            = Some (csv_line r) ->
            csv_lookup n (csv_text header rows ++ csv_line open) nRow (value h)
            = Some (0, value x)).
  { intros nRow r x Hr Hx Hlx Hrow. rewrite Htext. unfold csv_lookup.
    rewrite (line_of_line _ _ Hlf), (after_line_line _ _ Hlf).
    rewrite (header_names_line header Hhne Hh Hlen).
    rewrite (index_of_nodup (value h) (map value header) j 0 Hnd
               (map_nth_error value j header Hj)).
    destruct (Z.eqb_spec (0 + Z.of_nat j) (-1)); [lia|].
    cbn [bind]. rewrite Hrow. rewrite Z.add_0_l.
    rewrite (Hfield r x Hr Hx Hlx). reflexivity. }
  assert (Hlastok : Forall cell_ok (last rows open)).
  { destruct rows as [|r0 rows']; [exact Hopen|].
    rewrite Forall_forall in Hrows. apply Hrows.
    destruct (exists_last (l := r0 :: rows') ltac:(discriminate))
      as [l' [x E]].
    rewrite E, last_last. apply in_or_app. right. left. reflexivity. }
  split.
  - rewrite (getField_sized_spec n _ Last (value h) Ht Hpos).
    apply (Hlook (-1) (last rows open) c Hlastok Hc Hn).
    unfold select_row, row_suffix.
    cbn [Z.leb Z.eqb Z.compare Pos.eqb option_map].
    destruct rows as [|r0 rows'].
    + cbn [csv_rows map concat app last].
      rewrite (last_line_start_end _ _ _ Holf), (line_of_nolf _ Holf).
      reflexivity.
    + rewrite (last_line_start_open rows' r0 _ _ _ Hrows Holf).
      destruct rows' as [|r1 rows''].
      * cbn [last]. rewrite csv_rows_cons, <- app_assoc. cbn [app].
        rewrite (line_of_line _ _ (proj1 (csv_line_chars r0 (Forall_inv Hrows)))).
        reflexivity.
      * change (last (r0 :: r1 :: rows'') open) with (last (r1 :: rows'') open).
        rewrite (last_default (r1 :: rows'') open r0 ltac:(discriminate)).
        assert (Hl : Forall cell_ok (last (r1 :: rows'') r0)).
        { change (last (r1 :: rows'') r0) with (last (r0 :: r1 :: rows'') r0).
          rewrite (last_default (r0 :: r1 :: rows'') r0 open
                     ltac:(discriminate)).
          exact Hlastok. }
        rewrite (line_of_line _ _ (proj1 (csv_line_chars _ Hl))).
        reflexivity.
  - intros c' Hc' Hn'.
    rewrite (getField_sized_spec n _ (Absolute (length rows)) (value h) Ht Hpos).
    apply (Hlook _ open c' Hopen Hc' Hn').
    unfold select_row, row_suffix. cbn [nRow_of].
    destruct (Z.leb_spec 0 (Z.of_nat (length rows))); [|lia].
    rewrite Nat2Z.id, (skip_lines_open rows _ Hrows). cbn [option_map].
    rewrite (line_of_nolf _ Holf). reflexivity.
Qed.

Lemma last_row_skips_the_open_line_witness :
  getField_sized 8
    (csv_text [Plain (str "TimeStamp"); Plain (str "CycleCount")]
       [[Plain (str "t0"); Plain (str "252")]]
     ++ csv_line [Plain (str "t1"); Plain (str "253")])
    Last (str "CycleCount")
  = Some (0, str "252").
Proof.
  refine (proj1 (last_row_skips_the_open_line 8
                   [Plain (str "TimeStamp"); Plain (str "CycleCount")]
                   [[Plain (str "t0"); Plain (str "252")]]
                   [Plain (str "t1"); Plain (str "253")]
                   1 (Plain (str "CycleCount")) (Plain (str "252"))
                   _ _ _ _ _ eq_refl eq_refl eq_refl)).
  - repeat constructor.
  - apply NoDup_cons; [intros [H|[]]; discriminate|].
    apply NoDup_cons; [intros [] | apply NoDup_nil].
  - cbn. lia.
  - repeat constructor.
  - repeat constructor.
Defined.

(* ----------------------------------------------------------------- *)
(** ** Calls that stay inside their buffers *)

Lemma after_line_some (l : list ascii) :
  In LF l -> exists rest, after_line l = Some rest.
Proof.
  unfold after_line. induction l as [|c l IH]; intros H; [destruct H|].
  cbn [drop_while]. unfold not_lf at 1.
  destruct (Ascii.eqb_spec c LF) as [->|Hc]; cbn [negb].
  - exists l. reflexivity.
  - destruct H as [H|H]; [congruence|]. exact (IH H).
Qed.

(** X22.  On a text that holds a line feed, every call with a buffer of
    one byte or more has a result: whatever the row index and the column
    name, all reads and writes of the call fall inside the copy of the
    text and inside the result buffer, and the call returns one of 0, -3,
    -4, -5 and -6.  (Without a line feed in the text this fails for the
    columns of the header.) *)
Theorem call_on_text_with_line_feed_is_defined
  (m : memory) (bc : nat) (zc : Z) (br : nat)
  (rpre old rpost text : list ascii) (nRow : Z) (col : list ascii) (n : Z) :
  cstring_at m (bc, zc) = Some text ->
  (br < length m)%nat -> br <> bc ->
  block_of m br = rpre ++ old ++ rpost -> n = Z.of_nat (length old) -> 0 < n ->
  In LF text ->
  exists code m',
    nGetCSVDataByColName m (bc, zc) nRow col (br, Z.of_nat (length rpre)) n
    = Some (code, m')
    /\ In code [0; -3; -4; -5; -6].
Proof.
  intros Hc Hbr Hne Hblk Hn Hpos Hlf.
  rewrite (nGetCSVDataByColName_spec m bc zc br rpre old rpost nRow col text n
             Hc Hbr Hne Hblk Hn Hpos).
  destruct (after_line_some text Hlf) as [rest Hrest].
  unfold csv_lookup. rewrite Hrest. cbn [bind].
  destruct (index_of col (header_names (line_of text)) 0 =? -1).
  { eexists _, _. split; [reflexivity|]. cbn. tauto. }
  destruct (select_row rest nRow) as [r|].
  2:{ eexists _, _. split; [reflexivity|]. cbn. tauto. }
  unfold field_result.
  destruct (nth_error (csv_fields r) _) as [tok|].
  2:{ eexists _, _. split; [reflexivity|]. cbn. tauto. }
  destruct (_ <? n); eexists _, _; (split; [reflexivity|]); cbn; tauto.
Qed.

Lemma call_on_text_with_line_feed_is_defined_witness :
  exists code m',
    nGetCSVDataByColName (caller_memory csv_ragged 4) (0%nat, 0) 7
      (str "B") (1%nat, 0) 4
    = Some (code, m')
    /\ In code [0; -3; -4; -5; -6].
Proof.
  refine (call_on_text_with_line_feed_is_defined
            (caller_memory csv_ragged 4) 0 0 1 [] (repeat NUL 4) []
            csv_ragged 7 (str "B") 4 _ _ _ _ _ _ _).
  - vm_compute. reflexivity.
  - apply le_n.
  - discriminate.
  - reflexivity.
  - reflexivity.
  - reflexivity.
  - cbn. tauto.
Defined.

(* ----------------------------------------------------------------- *)
(** ** The text of the caller after a call *)

Lemma csv_lookup_defined (n : Z) (text : list ascii) (nRow : Z)
  (col : list ascii) :
  In LF text \/ ~ In col (header_names (line_of text)) ->
  exists code v, csv_lookup n text nRow col = Some (code, v).
Proof.
  intros H. unfold csv_lookup.
  destruct (Z.eqb_spec (index_of col (header_names (line_of text)) 0) (-1))
    as [E|E]; [eexists _, _; reflexivity|].
  destruct H as [Hlf|Hno].
  2:{ elim Hno. exact (index_of_present col _ 0 E). }
  destruct (after_line_some text Hlf) as [rest ->]. cbn [bind].
  destruct (select_row rest nRow) as [r|]; [|eexists _, _; reflexivity].
  destruct (field_result n r _) as [code v]. eexists _, _; reflexivity.
Qed.

(** X23.  For a text that holds a line feed, or a column that the header
    does not hold, and a result buffer of one byte or more in another block
    than the text, every call has a result, whatever it returns, and leaves
    the memory of the caller as it was outside the result buffer's block:
    each block but that one holds the bytes it held before, the block of
    [szCsvBuffer] among them, and the C string at [szCsvBuffer] is still
    the text.  (The calls left out, on a text without line feed with a
    column of the header, write outside the copy.) *)
Theorem defined_call_keeps_caller_blocks
  (m : memory) (bc : nat) (zc : Z) (br : nat)
  (rpre old rpost text : list ascii) (nRow : Z) (col : list ascii) (n : Z) :
  cstring_at m (bc, zc) = Some text ->
  (br < length m)%nat -> br <> bc ->
  block_of m br = rpre ++ old ++ rpost -> n = Z.of_nat (length old) -> 0 < n ->
  In LF text \/ ~ In col (header_names (line_of text)) ->
  exists code m',
    nGetCSVDataByColName m (bc, zc) nRow col (br, Z.of_nat (length rpre)) n
    = Some (code, m')
    /\ (forall b, b <> br -> block_of m' b = block_of m b)
    /\ block_of m' bc = block_of m bc
    /\ cstring_at m' (bc, zc) = Some text.
Proof.
  intros Hc Hbr Hne Hblk Hn Hpos Hdom.
  destruct (csv_lookup_defined n text nRow col Hdom) as [code [v Hv]].
  pose proof (nGetCSVDataByColName_spec m bc zc br rpre old rpost nRow col
                text n Hc Hbr Hne Hblk Hn Hpos) as Hrun.
  rewrite Hv in Hrun.
  eexists code, _. split; [exact Hrun|].
  assert (Hframe : forall b, b <> br ->
            block_of (set_block m br
                        (rpre ++ v ++ NUL :: skipn (S (length v)) old ++ rpost)
                      ++ [[]]) b = block_of m b).
  { exact (nGetCSVDataByColName_frame m _ (bc, zc)
             (br, Z.of_nat (length rpre)) nRow col rpre old rpost n code
             Hbr Hne Hblk eq_refl Hn Hrun). }
  split; [exact Hframe|].
  split; [apply Hframe; exact (not_eq_sym Hne)|].
  unfold cstring_at, tail_at in *. cbn [fst snd] in *.
  rewrite (Hframe bc (not_eq_sym Hne)). exact Hc.
Qed.

Lemma defined_call_keeps_caller_blocks_witness :
  exists code m',
    nGetCSVDataByColName (caller_memory csv_round_trip 8) (0%nat, 0) (-1)
      (str "CycleCount") (1%nat, 0) 8 = Some (code, m')
    /\ block_of m' 0 = csv_round_trip ++ [NUL]
    /\ cstring_at m' (0%nat, 0) = Some csv_round_trip.
Proof.
  destruct (defined_call_keeps_caller_blocks
              (caller_memory csv_round_trip 8) 0 0 1 [] (repeat NUL 8) []
              csv_round_trip (-1) (str "CycleCount") 8)
    as [code [m' [Hrun [_ [Hb Hc]]]]].
  - vm_compute. reflexivity.
  - apply le_n.
  - discriminate.
  - reflexivity.
  - reflexivity.
  - reflexivity.
  - left. vm_compute. tauto.
  - exists code, m'. split; [exact Hrun|]. split; [exact Hb | exact Hc].
Defined.
